(** * Tank-harvest: tare-adjusted aggregation, reporting and entry store

    A shallow embedding of the aggregation loops of the harvest screens
    (AbstractScreen, RevenueScreen, HistoryScreen), of the PDF export of
    SyncManager, of the add path (CrateEntry / App), of the log and history
    serial numbering, and of the IndexedDB entry store (the two DBService
    variants of the repository), followed by the properties checked on them.

    Conventions of the embedding:
    - a JavaScript [number] is an exact rational ([Qc]); NaN is represented
      where the code tests for it (the result of [parseFloat], an unparsable
      date) by [None].  Rounding is abstracted, so the properties about
      weights are stated with both sides performing the same operations in
      the same order (or about integer counts); where a sum is regrouped or
      reordered the engine is read on binary64 numbers ([Doubles]);
    - a field that a stored record may lack ([undefined]) is an [option];
    - [Map<string, V>] is an association list in insertion order, a plain
      [Record<string, string>] that is only read is a [gmap];
    - the object store of IndexedDB is a [gmap] from the key path [id] to the
      record; a promise is its settled outcome;
    - [Array.prototype.sort] is a stable insertion sort driven by the sign of
      the comparator, which is what every engine computes for a consistent
      comparator;
    - [String.prototype.localeCompare], [parseFloat] and
      [new Date(s).getTime()] are parameters of the development. *)

From Stdlib Require Import QArith Qcanon ZArith Lia Ascii String.
From Stdlib Require Import PrimFloat.
From stdpp Require Import base option list strings gmap fin_maps sorting.

Set Warnings "-inexact-float".

Open Scope Z_scope.

(* ===================================================================== *)
(** * Part I. The embedded program                                        *)
(* ===================================================================== *)

(** ** JavaScript numbers *)

Abbreviation number := Qc.

Definition num (z : Z) : number := Q2Qc (inject_Z z).
Definition dec (n : Z) (d : positive) : number := Q2Qc (Qmake n d).

Definition num_eqb (a b : number) : bool := Qeq_bool a b.
Definition num_ltb (a b : number) : bool := negb (Qle_bool b a).

(** [ToBoolean] on a number that is not NaN: only zero is falsy. *)
Definition truthy (x : number) : bool := negb (num_eqb x (num 0)).

(** [x || d] where [x] is a possibly missing numeric field. *)
Definition or_num (x : option number) (d : number) : number :=
  match x with
  | Some v => if truthy v then v else d
  | None => d
  end.

(** [Math.max(0, x)]. *)
Definition max0 (x : number) : number :=
  if num_ltb x (num 0) then num 0 else x.

(** ** types.ts *)

Module HarvestEntry.
Record t := mk {
  id : string;
  tank : string;
  count : number;
  weight : number;
  crateWeight : option number;
  crateCount : option number;
  team : string;
  timestamp : string;
  synced : bool
}.

(** [entry.synced = true] on a record read from the store. *)
Definition set_synced (e : t) : t :=
  mk (id e) (tank e) (count e) (weight e) (crateWeight e) (crateCount e)
     (team e) (timestamp e) true.
End HarvestEntry.

Module TankSummary.
Record t := mk {
  tank : string;
  entryCount : Z;
  patluCount : Z;
  singlesCount : Z;
  crateCount : number;
  totalWeight : number;
  absoluteWeight : number;
  shrimpCount : number
}.
End TankSummary.

Module HarvestSettings.
Record t := mk {
  activeTank : string;
  shrimpCount : number;
  tankCounts : gmap string number;
  tankPrices : gmap string string;
  crateWeight : option number;
  teamName : string
}.
End HarvestSettings.

Abbreviation Entry := HarvestEntry.t.
Abbreviation Summary := TankSummary.t.
Abbreviation Settings := HarvestSettings.t.

(** ** Array.prototype.sort *)

Section JsSort.
Context {A : Type} (compareFn : A -> A -> Z).

Fixpoint sort_insert (x : A) (l : list A) : list A :=
  match l with
  | [] => [x]
  | y :: l' =>
      if compareFn x y <=? 0 then x :: y :: l' else y :: sort_insert x l'
  end.

Definition js_sort (l : list A) : list A := foldr sort_insert [] l.
End JsSort.

(** ** Map<string, V>, in insertion order *)

Module JsMap.
Definition t (V : Type) := list (string * V).

Fixpoint get {V} (m : t V) (k : string) : option V :=
  match m with
  | [] => None
  | (k', v) :: m' => if String.eqb k' k then Some v else get m' k
  end.

Fixpoint set {V} (m : t V) (k : string) (v : V) : t V :=
  match m with
  | [] => [(k, v)]
  | (k', v') :: m' =>
      if String.eqb k' k then (k, v) :: m' else (k', v') :: set m' k v
  end.

Definition values {V} (m : t V) : list V := map snd m.
Definition keys {V} (m : t V) : list string := map fst m.
End JsMap.

(** ** The aggregation engine

    The loop below is the body of [summaries] in AbstractScreen.tsx; the same
    text is repeated in RevenueScreen.tsx and in [dailyAbstract] of
    HistoryScreen.tsx (there on the entries of the selected date). *)

Definition DEFAULT_CRATE_WEIGHT : number := dec 18 10.

Definition entryCrateCount (entry : Entry) : number :=
  or_num (HarvestEntry.crateCount entry) (num 1).

Definition effectiveCrateWeight (entry : Entry) : number :=
  or_num (HarvestEntry.crateWeight entry) DEFAULT_CRATE_WEIGHT.

(** The per-entry term added to [absoluteWeight]. *)
Definition entryNet (entry : Entry) : number :=
  (HarvestEntry.weight entry - entryCrateCount entry * effectiveCrateWeight entry)%Qc.

Definition newSummary (entry : Entry) : Summary :=
  TankSummary.mk (HarvestEntry.tank entry) 0 0 0 (num 0) (num 0) (num 0)
                 (HarvestEntry.count entry).

(** The mutations applied to [current] for one entry. *)
Definition bump (current : Summary) (entry : Entry) : Summary :=
  let ecc := entryCrateCount entry in
  TankSummary.mk
    (TankSummary.tank current)
    (TankSummary.entryCount current + 1)
    (if num_eqb ecc (num 2) then TankSummary.patluCount current + 1
     else TankSummary.patluCount current)
    (if num_eqb ecc (num 2) then TankSummary.singlesCount current
     else if num_eqb ecc (num 1) then TankSummary.singlesCount current + 1
     else TankSummary.singlesCount current)
    (TankSummary.crateCount current + ecc)%Qc
    (TankSummary.totalWeight current + HarvestEntry.weight entry)%Qc
    (TankSummary.absoluteWeight current + entryNet entry)%Qc
    (HarvestEntry.count entry).

(** One iteration of [entries.forEach]. *)
Definition accumulate (m : JsMap.t Summary) (entry : Entry) : JsMap.t Summary :=
  let current :=
    default (newSummary entry) (JsMap.get m (HarvestEntry.tank entry)) in
  JsMap.set m (HarvestEntry.tank entry) (bump current entry).

Definition aggregate (entries : list Entry) : JsMap.t Summary :=
  fold_left accumulate entries [].

Section Engine.
Variable localeCompare : string -> string -> Z.
Variable parseFloat : string -> option number.

Definition byTank (a b : Summary) : Z :=
  localeCompare (TankSummary.tank a) (TankSummary.tank b).

Definition summaries (entries : list Entry) : list Summary :=
  js_sort byTank (JsMap.values (aggregate entries)).

(** [summaries.reduce((acc, s) => acc + s.field, 0)]. *)
Definition reduce_sum {A} (f : A -> number) (l : list A) : number :=
  fold_left (fun acc s => (acc + f s)%Qc) l (num 0).

Definition reduce_count {A} (f : A -> Z) (l : list A) : Z :=
  fold_left (fun acc s => acc + f s) l 0.

Definition totalAbsolute (ss : list Summary) : number :=
  reduce_sum TankSummary.absoluteWeight ss.
Definition totalGross (ss : list Summary) : number :=
  reduce_sum TankSummary.totalWeight ss.
Definition totalCrates (ss : list Summary) : number :=
  reduce_sum TankSummary.crateCount ss.
Definition totalPatlu (ss : list Summary) : Z :=
  reduce_count TankSummary.patluCount ss.
Definition totalSingles (ss : list Summary) : Z :=
  reduce_count TankSummary.singlesCount ss.
Definition totalTare (ss : list Summary) : number :=
  (totalGross ss - totalAbsolute ss)%Qc.

(** Division instrumented with the event the claim is about: [None] is a
    division whose divisor is zero. *)
Definition checked_div (a b : number) : option number :=
  if num_eqb b (num 0) then None else Some (a / b)%Qc.

(** [totalGross > 0 ? (totalAbsolute / totalGross) * 100 : 0]. *)
Definition netEfficiency (ss : list Summary) : option number :=
  if num_ltb (num 0) (totalGross ss)
  then q ← checked_div (totalAbsolute ss) (totalGross ss);
       Some (q * num 100)%Qc
  else Some (num 0).

(** [parseFloat(prices[tank] || '0') || 0]. *)
Definition priceOf (prices : gmap string string) (tank : string) : number :=
  let s := match prices !! tank with
           | Some s => if String.eqb s "" then "0" else s
           | None => "0"
           end in
  or_num (parseFloat s) (num 0).

Definition totalRevenue (prices : gmap string string) (ss : list Summary)
  : number :=
  fold_left
    (fun acc sum =>
       (acc + TankSummary.absoluteWeight sum * priceOf prices (TankSummary.tank sum))%Qc)
    ss (num 0).
End Engine.

(** ** The PDF export

    [handleDownloadPDF] of SyncManager builds its own [tankMap]; the loop is
    the same text in both versions of the component.  The older version
    prints gross, net, revenue, efficiency and unit count and the per-tank
    tables; the newer one filters the entries by the selected dates first and
    prints net, revenue and unit count. *)

Definition bumpPdf (current : Summary) (e : Entry) : Summary :=
  let cCount := or_num (HarvestEntry.crateCount e) (num 1) in
  let tare := (cCount * or_num (HarvestEntry.crateWeight e) DEFAULT_CRATE_WEIGHT)%Qc in
  TankSummary.mk
    (TankSummary.tank current)
    (TankSummary.entryCount current + 1)
    (if num_eqb cCount (num 2) then TankSummary.patluCount current + 1
     else TankSummary.patluCount current)
    (if num_eqb cCount (num 2) then TankSummary.singlesCount current
     else TankSummary.singlesCount current + 1)
    (TankSummary.crateCount current + cCount)%Qc
    (TankSummary.totalWeight current + HarvestEntry.weight e)%Qc
    (TankSummary.absoluteWeight current + max0 (HarvestEntry.weight e - tare))%Qc
    (TankSummary.shrimpCount current).

Definition accumulatePdf (tankMap : JsMap.t Summary) (e : Entry) : JsMap.t Summary :=
  let current :=
    default (newSummary e) (JsMap.get tankMap (HarvestEntry.tank e)) in
  JsMap.set tankMap (HarvestEntry.tank e) (bumpPdf current e).

(** [timestamp.split('T')[0]]: the characters before the first ['T']. *)
Fixpoint dateOf (timestamp : string) : string :=
  match timestamp with
  | EmptyString => EmptyString
  | String c rest =>
      if Ascii.eqb c "T"%char then EmptyString else String c (dateOf rest)
  end.

Section PdfExport.
Variable localeCompare : string -> string -> Z.
Variable parseFloat : string -> option number.

Definition pdfSummaries (entries : list Entry) : list Summary :=
  js_sort (byTank localeCompare)
          (JsMap.values (fold_left accumulatePdf entries [])).

Definition pdfTotalGross (ss : list Summary) : number :=
  reduce_sum TankSummary.totalWeight ss.
Definition pdfTotalNet (ss : list Summary) : number :=
  reduce_sum TankSummary.absoluteWeight ss.
Definition pdfUnits (ss : list Summary) : Z :=
  reduce_count TankSummary.entryCount ss.

(** [parseFloat(prices[x.tank]) || 0]; [parseFloat(undefined)] is NaN. *)
Definition pdfRate (prices : gmap string string) (tank : string) : number :=
  or_num (s ← prices !! tank; parseFloat s) (num 0).

Definition pdfTotalRevenue (prices : gmap string string) (ss : list Summary)
  : number :=
  fold_left
    (fun s x =>
       (s + TankSummary.absoluteWeight x * pdfRate prices (TankSummary.tank x))%Qc)
    ss (num 0).

(** [(totalNet / totalGross) * 100], printed without a guard. *)
Definition pdfEfficiency (ss : list Summary) : option number :=
  q ← checked_div (pdfTotalNet ss) (pdfTotalGross ss);
  Some (q * num 100)%Qc.

(** The date filter of the newer version. *)
Definition filteredEntries (selectedDates : gset string) (entries : list Entry)
  : list Entry :=
  filter (fun e => dateOf (HarvestEntry.timestamp e) ∈ selectedDates) entries.
End PdfExport.

(** ** The entry store (IndexedDB)

    The world seen by DBService: whether [indexedDB.open] succeeds, whether a
    transaction (or its request) completes or fires its error event, and the
    object store [harvest_entries], keyed by the key path [id].  A
    transaction that is aborted without an error event settles no promise of
    the code ([onabort] is not handled); such a world is not described
    here. *)

Record IndexedDB := mkIDB {
  openable : bool;
  tx_commits : bool;
  harvest_entries : gmap string Entry
}.

Inductive Promise (A : Type) : Type :=
| Resolved (value : A)
| Rejected (reason : string).
Arguments Resolved {A} value.
Arguments Rejected {A} reason.

Definition with_objects (w : IndexedDB) (s : gmap string Entry) : IndexedDB :=
  mkIDB (openable w) (tx_commits w) s.

Definition cmpZ (c : comparison) : Z :=
  match c with Lt => -1 | Eq => 0 | Gt => 1 end.

(** [store.put(entry)]: the key is read from the record. *)
Definition store_put (entry : Entry) (s : gmap string Entry) : gmap string Entry :=
  <[HarvestEntry.id entry := entry]> s.

(** [store.getAll()]: the records in ascending key order. *)
Definition store_getAll (s : gmap string Entry) : list Entry :=
  map snd (js_sort (fun a b => cmpZ (String.compare a.1 b.1)) (map_to_list s)).

(** [private static getDB()]. *)
Definition getDB (w : IndexedDB) : Promise (gmap string Entry) :=
  if openable w then Resolved (harvest_entries w)
  else Rejected "Database connection failed".

(** The shape shared by the write operations: open, run the requests in one
    transaction, resolve on [oncomplete], reject on [onerror]. *)
Definition readwrite {A} (w : IndexedDB) (value : A)
    (body : gmap string Entry -> gmap string Entry) : Promise A * IndexedDB :=
  match getDB w with
  | Rejected r => (Rejected r, w)
  | Resolved s =>
      if tx_commits w then (Resolved value, with_objects w (body s))
      else (Rejected "tx.error", w)
  end.

(** [ids.forEach(id => { get(id).onsuccess = () => { ...; put } })]: every
    [get] is queued before the first callback runs, so all reads see the
    store as it was; the puts follow in the order of the ids. *)
Definition mark_all (ids : list string) (s : gmap string Entry)
  : gmap string Entry :=
  fold_left
    (fun acc r =>
       match r with
       | Some entry => store_put (HarvestEntry.set_synced entry) acc
       | None => acc
       end)
    (map (fun id => s !! id) ids) s.

(** db.ts *)
Module Db.
Section WithLocale.
Variable localeCompare : string -> string -> Z.

Definition saveEntry (entry : Entry) (w : IndexedDB) : Promise unit * IndexedDB :=
  readwrite w tt (store_put entry).

Definition getAllEntries (w : IndexedDB) : Promise (list Entry) :=
  match getDB w with
  | Rejected r => Rejected r
  | Resolved s =>
      if tx_commits w then
        Resolved
          (js_sort
             (fun a b => localeCompare (HarvestEntry.timestamp b)
                                       (HarvestEntry.timestamp a))
             (store_getAll s))
      else Rejected "request.error"
  end.

Definition getCount (w : IndexedDB) : Promise Z :=
  match getDB w with
  | Rejected r => Rejected r
  | Resolved s =>
      if tx_commits w then Resolved (Z.of_nat (size s))
      else Rejected "request.error"
  end.

Definition deleteEntry (id : string) (w : IndexedDB) : Promise bool * IndexedDB :=
  readwrite w true (delete id).

Definition deleteEntries (ids : list string) (w : IndexedDB)
  : Promise bool * IndexedDB :=
  readwrite w true (fun s => fold_left (fun acc id => delete id acc) ids s).

Definition getUnsyncedEntries (w : IndexedDB) : Promise (list Entry) :=
  match getAllEntries w with
  | Rejected r => Rejected r
  | Resolved all => Resolved (filter (fun e => HarvestEntry.synced e = false) all)
  end.

Definition markEntriesSynced (ids : list string) (w : IndexedDB)
  : Promise unit * IndexedDB :=
  readwrite w tt (mark_all ids).
End WithLocale.

(** db.ts has no [markSynced]: [DBService.markSynced] is [undefined] there,
    and calling it throws a TypeError. *)
Definition markSynced
  : option (list string -> IndexedDB -> Promise unit * IndexedDB) := None.
End Db.

(** The second DBService of the repository (the one that exports
    [markSynced]). *)
Module DbService2.
(** [try { const db = await this.getDB(); return new Promise(...) }
     catch (err) { return []; }]: the [await] is inside the [try], the
    returned promise is not awaited there. *)
Definition getAllEntries (w : IndexedDB) : Promise (list Entry) :=
  match getDB w with
  | Rejected _ => Resolved []
  | Resolved s =>
      if tx_commits w then Resolved (store_getAll s)
      else Rejected "request.error"
  end.

Definition markSynced (ids : list string) (w : IndexedDB)
  : Promise unit * IndexedDB :=
  readwrite w tt (mark_all ids).

(** [ids.forEach(id => id && store.delete(id))]: an empty id is skipped. *)
Definition deleteEntries (ids : list string) (w : IndexedDB)
  : Promise unit * IndexedDB :=
  readwrite w tt
    (fun s => fold_left (fun acc id => if String.eqb id "" then acc else delete id acc)
                        ids s).
End DbService2.

(** ** The add path: CrateEntry.handleSave and App.handleAddEntry *)

Module CrateEntry.
(** The local state of the component that [handleSave] reads and writes. *)
Record state := mk {
  weight : string;
  crateCount : number;
  isSuccess : bool
}.
End CrateEntry.

Inductive DbCall :=
| CallSaveEntry (entry : Entry)
| CallDeleteEntries (ids : list string)
| CallGetAllEntries.

Module App.
Record t := mk {
  settings : Settings;
  entries : list Entry;
  lastSaved : option number;
  db : IndexedDB;
  dbCalls : list DbCall;
  alerts : list string
}.
End App.

Section AppHandlers.
Variable localeCompare : string -> string -> Z.
Variable parseFloat : string -> option number.

(** [handleSave]: returns the arguments passed to [onSave], if it is
    called, and the component state afterwards. *)
Definition handleSave (ui : CrateEntry.state)
  : option (number * number) * CrateEntry.state :=
  match parseFloat (CrateEntry.weight ui) with
  | Some numWeight =>
      if num_ltb (num 0) numWeight
      then (Some (numWeight, CrateEntry.crateCount ui),
            CrateEntry.mk "" (CrateEntry.crateCount ui) true)
      else (None, ui)
  | None => (None, ui)
  end.

(** [handleAddEntry]; [newId] and [now] are the results of
    [DBService.generateId()] and [new Date().toISOString()]. *)
Definition handleAddEntry (newId now : string) (app : App.t)
    (weight crateCount : number) : App.t :=
  let settings := App.settings app in
  let newEntry :=
    HarvestEntry.mk newId
      (HarvestSettings.activeTank settings)
      (HarvestSettings.shrimpCount settings)
      weight
      (HarvestSettings.crateWeight settings)
      (Some crateCount)
      (HarvestSettings.teamName settings)
      now false in
  let calls := App.dbCalls app ++ [CallSaveEntry newEntry] in
  match Db.saveEntry newEntry (App.db app) with
  | (Resolved _, db') =>
      App.mk settings (newEntry :: App.entries app) (Some weight) db' calls
             (App.alerts app)
  | (Rejected _, db') =>
      App.mk settings (App.entries app) (App.lastSaved app) db' calls
             (App.alerts app ++ ["Database error. Please restart the app."])
  end.

(** Pressing save: [handleSave] with [onSave = handleAddEntry]. *)
Definition addPath (newId now : string) (ui : CrateEntry.state) (app : App.t)
  : CrateEntry.state * App.t :=
  match handleSave ui with
  | (Some (numWeight, crateCount), ui') =>
      (ui', handleAddEntry newId now app numWeight crateCount)
  | (None, ui') => (ui', app)
  end.

(** [loadData]: a rejected read is logged and leaves the list as it is. *)
Definition loadData (app : App.t) : App.t :=
  let calls := App.dbCalls app ++ [CallGetAllEntries] in
  match Db.getAllEntries localeCompare (App.db app) with
  | Resolved allEntries =>
      App.mk (App.settings app) allEntries (App.lastSaved app) (App.db app)
             calls (App.alerts app)
  | Rejected _ =>
      App.mk (App.settings app) (App.entries app) (App.lastSaved app)
             (App.db app) calls (App.alerts app)
  end.

(** [timestamp.startsWith(date)]. *)
Definition startsWith (timestamp date : string) : bool :=
  String.prefix date timestamp.

Definition handleDeleteHistoryDate (date : string) (app : App.t) : App.t :=
  let idsToDelete :=
    map HarvestEntry.id
        (filter (fun e => startsWith (HarvestEntry.timestamp e) date = true)
                (App.entries app)) in
  if 0 <? Z.of_nat (length idsToDelete) then
    let calls := App.dbCalls app ++ [CallDeleteEntries idsToDelete] in
    match Db.deleteEntries idsToDelete (App.db app) with
    | (Resolved _, db') =>
        loadData (App.mk (App.settings app) (App.entries app)
                         (App.lastSaved app) db' calls (App.alerts app))
    | (Rejected _, db') =>
        App.mk (App.settings app) (App.entries app) (App.lastSaved app) db'
               calls (App.alerts app ++ ["Failed to delete history for " +:+ date])
    end
  else app.

(** ** Plain objects used as maps

    [groupedByDate] and the groups of the log are built in a plain object
    ([{}]).  For a key that names a member of [Object.prototype] the test
    [!groups[key]] finds the inherited member and [groups[key].push] throws;
    for every other key the object behaves as the map below.  The order in
    which [Object.entries] lists the keys (integer-like keys first) is not
    modelled: both lists are sorted right after. *)

Definition objectPrototypeMembers : list string :=
  [ "constructor"; "__defineGetter__"; "__defineSetter__"; "hasOwnProperty";
    "__lookupGetter__"; "__lookupSetter__"; "isPrototypeOf";
    "propertyIsEnumerable"; "toString"; "valueOf"; "__proto__";
    "toLocaleString" ].

(** A key that is an own property once assigned. *)
Definition own_key (k : string) : Prop := k ∉ objectPrototypeMembers.

(** ** HistoryScreen.groupedByDate

    The grouping of the date prefixes that are own keys ([own_key]). *)

Definition groupByDate (entries : list Entry) : JsMap.t (list Entry) :=
  fold_left
    (fun groups entry =>
       let date := dateOf (HarvestEntry.timestamp entry) in
       JsMap.set groups date (default [] (JsMap.get groups date) ++ [entry]))
    entries [].

Definition groupedByDate (entries : list Entry) : list (string * list Entry) :=
  js_sort (fun a b => localeCompare b.1 a.1) (groupByDate entries).
End AppHandlers.

(** ** Serial numbers: LogScreen and HistoryScreen *)

Section Serials.
(** [new Date(timestamp).getTime()]; [None] is NaN (invalid date). *)
Variable getTime : string -> option Z.

(** [x - y] as a sort comparator; a NaN result counts as [+0]. *)
Definition time_diff (x y : option Z) : Z :=
  match x, y with
  | Some a, Some b => a - b
  | _, _ => 0
  end.

Definition timeOf (e : Entry) : option Z := getTime (HarvestEntry.timestamp e).

Definition byTimeDesc (a b : Entry) : Z := time_diff (timeOf b) (timeOf a).
Definition byTimeAsc (a b : Entry) : Z := time_diff (timeOf a) (timeOf b).

(** LogScreen: the groups of [sortedGroupedEntries], each sorted descending,
    the groups ordered by their latest activity; the grouping of the tank
    names that are own keys ([own_key]). *)
Definition groupByTank (entries : list Entry) : JsMap.t (list Entry) :=
  fold_left
    (fun groups entry =>
       let tank := HarvestEntry.tank entry in
       JsMap.set groups tank (default [] (JsMap.get groups tank) ++ [entry]))
    entries [].

Definition tankLastActivity (g : string * list Entry) : option Z :=
  e ← head g.2; timeOf e.

Definition sortedGroupedEntries (entries : list Entry)
  : list (string * list Entry) :=
  js_sort
    (fun a b => time_diff (tankLastActivity b) (tankLastActivity a))
    (map (fun g => (g.1, js_sort byTimeDesc g.2)) (groupByTank entries)).

(** [const serialNumber = totalInTank - idx]. *)
Definition serialNumber (totalInTank idx : Z) : Z := totalInTank - idx.

(** The rows rendered for one tank: each entry with its serial. *)
Definition tankRows (tankEntries : list Entry) : list (Entry * Z) :=
  imap (fun idx entry =>
          (entry, serialNumber (Z.of_nat (length tankEntries)) (Z.of_nat idx)))
       tankEntries.

(** HistoryScreen: [processedEntries] sorted ascending, one counter per
    tank, the serial stored under the entry id. *)
Definition serialStep (st : gmap string Z * gmap string Z) (e : Entry)
  : gmap string Z * gmap string Z :=
  let tankEntryCounters := st.1 in
  let c := default 0 (tankEntryCounters !! HarvestEntry.tank e) + 1 in
  (<[HarvestEntry.tank e := c]> tankEntryCounters,
   <[HarvestEntry.id e := c]> st.2).

Definition serialMap (rawEntries : list Entry) : gmap string Z :=
  let processedEntries := js_sort byTimeAsc rawEntries in
  (fold_left serialStep processedEntries (∅, ∅)).2.
End Serials.

(** ** CrateEntry.tankStats

    The ticker of the entry screen; the log screen computes [patlu] and
    [singles] of each of its groups with the same two filters. *)

Module TankStats.
Record t := mk {
  patlu : Z;
  singles : Z;
  netTotal : number
}.
End TankStats.

(** [e.crateCount === n], on the stored field. *)
Definition crateCountIs (n : Z) (e : Entry) : bool :=
  match HarvestEntry.crateCount e with
  | Some c => num_eqb c (num n)
  | None => false
  end.

(** [Math.max(0, e.weight - tare)] with
    [tare = (e.crateCount || 1) * (e.crateWeight || 1.8)]. *)
Definition clampedNet (e : Entry) : number :=
  let tare := (or_num (HarvestEntry.crateCount e) (num 1)
               * or_num (HarvestEntry.crateWeight e) DEFAULT_CRATE_WEIGHT)%Qc in
  max0 (HarvestEntry.weight e - tare)%Qc.

Definition tankStats (entries : list Entry) (activeTank : string) : TankStats.t :=
  let activeTankEntries :=
    filter (fun e => HarvestEntry.tank e = activeTank) entries in
  TankStats.mk
    (Z.of_nat (length (filter (fun e => crateCountIs 2 e = true) activeTankEntries)))
    (Z.of_nat (length (filter (fun e => crateCountIs 1 e = true) activeTankEntries)))
    (fold_left (fun sum e => (sum + clampedNet e)%Qc) activeTankEntries (num 0)).

(** ** RevenueScreen *)

Module RevenueRow.
Record t := mk {
  summary : Summary;
  price : number;
  revenue : number
}.
End RevenueRow.

Section Revenue.
Variable parseFloat : string -> option number.

(** [const priceStr = prices[sum.tank] || ''; const price =
    parseFloat(priceStr) || 0]. *)
Definition revenueData (prices : gmap string string) (summaries : list Summary)
  : list RevenueRow.t :=
  map (fun sum =>
         let priceStr := default "" (prices !! TankSummary.tank sum) in
         let price := or_num (parseFloat priceStr) (num 0) in
         RevenueRow.mk sum price (TankSummary.absoluteWeight sum * price)%Qc)
      summaries.

Definition revenueTotal (revenueData : list RevenueRow.t) : number :=
  fold_left (fun acc curr => (acc + RevenueRow.revenue curr)%Qc) revenueData (num 0).
End Revenue.

(** ** HistoryScreen: the list of days and the abstract of one day *)

Module DailyStat.
Record t := mk {
  date : string;
  count : Z;
  totalGross : number;
  totalNet : number;
  totalCrates : number
}.
End DailyStat.

Definition dailyStats (groupedByDate : list (string * list Entry))
  : list DailyStat.t :=
  map (fun g =>
         let dateEntries := g.2 in
         DailyStat.mk g.1
           (Z.of_nat (length dateEntries))
           (fold_left (fun sum e => (sum + HarvestEntry.weight e)%Qc) dateEntries (num 0))
           (fold_left (fun sum e => (sum + clampedNet e)%Qc) dateEntries (num 0))
           (fold_left (fun sum e =>
                         (sum + or_num (HarvestEntry.crateCount e) (num 1))%Qc)
                      dateEntries (num 0)))
      groupedByDate.

Module DailyAbstract.
Record t := mk {
  summaries : list Summary;
  totalAbsolute : number;
  totalGross : number;
  totalCrates : number;
  totalEntries : Z;
  totalTare : number;
  netEfficiency : option number;
  totalRevenue : number;
  rawEntries : list Entry
}.
End DailyAbstract.

Section DailyAbstractOf.
Variable localeCompare : string -> string -> Z.
Variable parseFloat : string -> option number.
Variable getTime : string -> option Z.

(** [dailyAbstract]: [null] while no date is selected; the loop over
    [dateEntries] is the text of the engine. *)
Definition dailyAbstract (selectedDate : option string) (entries : list Entry)
    (prices : gmap string string) : option DailyAbstract.t :=
  match selectedDate with
  | None => None
  | Some date =>
      if String.eqb date "" then None
      else
        let dateEntries :=
          filter (fun e => startsWith (HarvestEntry.timestamp e) date = true) entries in
        let ss := summaries localeCompare dateEntries in
        Some (DailyAbstract.mk ss
                (totalAbsolute ss) (totalGross ss) (totalCrates ss)
                (Z.of_nat (length dateEntries))
                (totalTare ss) (netEfficiency ss)
                (totalRevenue parseFloat prices ss)
                (js_sort (byTimeDesc getTime) dateEntries))
  end.
End DailyAbstractOf.

(** ** SyncManager: the dates offered for the report *)

(** [dates.add(d)] on a [Set], kept in insertion order. *)
Definition setAdd (dates : list string) (d : string) : list string :=
  if decide (d ∈ dates) then dates else dates ++ [d].

Definition availableDates (localeCompare : string -> string -> Z)
    (entries : list Entry) : list string :=
  js_sort (fun a b => localeCompare b a)
          (fold_left (fun dates e => setAdd dates (dateOf (HarvestEntry.timestamp e)))
                     entries []).

(** [toggleDate], [selectAllDates] and [clearDateSelection] on the selection. *)
Definition toggleDate (selectedDates : gset string) (date : string) : gset string :=
  if decide (date ∈ selectedDates) then selectedDates ∖ {[date]}
  else selectedDates ∪ {[date]}.

Definition selectAllDates (availableDates : list string) : gset string :=
  list_to_set availableDates.

Definition clearDateSelection : gset string := ∅.

(** The newer [handleDownloadPDF] up to the summaries it prints; [None] is
    the early return on an empty selection. *)
Definition reportSummaries (localeCompare : string -> string -> Z)
    (selectedDates : gset string) (entries : list Entry) : option (list Summary) :=
  if decide (size selectedDates = 0%nat) then None
  else Some (pdfSummaries localeCompare (filteredEntries selectedDates entries)).

(** ** App: batch delete and update *)

Section AppWrites.
Variable localeCompare : string -> string -> Z.

(** [handleBatchDelete]: [deleteEntries] then [loadData]; a rejected delete
    is reported by an alert. *)
Definition handleBatchDelete (ids : list string) (app : App.t) : App.t :=
  let calls := App.dbCalls app ++ [CallDeleteEntries ids] in
  match Db.deleteEntries ids (App.db app) with
  | (Resolved _, db') =>
      loadData localeCompare
        (App.mk (App.settings app) (App.entries app) (App.lastSaved app) db'
                calls (App.alerts app))
  | (Rejected _, db') =>
      App.mk (App.settings app) (App.entries app) (App.lastSaved app) db'
             calls (App.alerts app ++ ["Batch delete failed."])
  end.

(** [handleUpdateEntry]: [saveEntry] then [loadData]. *)
Definition handleUpdateEntry (updatedEntry : Entry) (app : App.t) : App.t :=
  let calls := App.dbCalls app ++ [CallSaveEntry updatedEntry] in
  match Db.saveEntry updatedEntry (App.db app) with
  | (Resolved _, db') =>
      loadData localeCompare
        (App.mk (App.settings app) (App.entries app) (App.lastSaved app) db'
                calls (App.alerts app))
  | (Rejected _, db') =>
      App.mk (App.settings app) (App.entries app) (App.lastSaved app) db'
             calls (App.alerts app ++ ["Update failed."])
  end.

(** ** LogScreen: the selection of entries

    [selectedIds] is a [Set<string>]: a list without repetition, in
    insertion order. *)

Definition setOf (l : list string) : list string := fold_left setAdd l [].

Definition setDelete (s : list string) (x : string) : list string :=
  filter (fun y => y <> x) s.

(** [handleToggleSelect]; nothing happens while an entry is edited
    ([editingId] is a non-empty string). *)
Definition handleToggleSelect (editingId : option string) (id : string)
    (selectedIds : list string) : list string :=
  match editingId with
  | Some (String _ _) => selectedIds
  | _ => if decide (id ∈ selectedIds) then setDelete selectedIds id
         else setAdd selectedIds id
  end.

Definition handleSelectAll (selectedIds : list string) (entries : list Entry)
  : list string :=
  if decide (length selectedIds = length entries) then []
  else setOf (map HarvestEntry.id entries).

(** [handleBatchDeleteClick] with [onBatchDelete = handleBatchDelete]: the
    selection afterwards and the application. *)
Definition handleBatchDeleteClick (selectedIds : list string)
    (isBatchDeleting : bool) (app : App.t) : list string * App.t :=
  if (Z.of_nat (length selectedIds) =? 0) || isBatchDeleting
  then (selectedIds, app)
  else ([], handleBatchDelete selectedIds app).
End AppWrites.

(** ** SyncManager: pushing the unsynced entries *)

Inductive SyncMessage :=
| MsgError (message : string)
| MsgSuccess (records : Z).

(** The member [markSynced] of the DBService that a component imports:
    [None] when the class has no such member. *)
Definition MarkSynced : Type :=
  option (list string -> IndexedDB -> Promise unit * IndexedDB).

(** [await DBService.markSynced(idsToSync)] inside the [try]: a missing member
    throws, a rejected promise throws; both end in the [catch]. *)
Definition callMarkSynced (markSynced : MarkSynced) (ids : list string)
    (w : IndexedDB) : Promise unit * IndexedDB :=
  match markSynced with
  | Some f => f ids w
  | None => (Rejected "DBService.markSynced is not a function", w)
  end.

(** [handlePushToSheets]: [googleSheetUrl] is the setting read by the
    handler, [fetchOk] tells whether the promise of [fetch] resolves.  The
    result is the message shown, the store, and whether [onSyncComplete] was
    called. *)
Definition handlePushToSheetsWith (markSynced : MarkSynced)
    (googleSheetUrl : option string) (fetchOk : bool)
    (entries : list Entry) (result : option SyncMessage) (w : IndexedDB)
  : option SyncMessage * IndexedDB * bool :=
  match googleSheetUrl with
  | Some (String _ _) =>
      let unsyncedEntries :=
        filter (fun e => HarvestEntry.synced e = false) entries in
      if Z.of_nat (length unsyncedEntries) =? 0 then (result, w, false)
      else if fetchOk then
        let idsToSync := map HarvestEntry.id unsyncedEntries in
        match callMarkSynced markSynced idsToSync w with
        | (Resolved _, w') =>
            (Some (MsgSuccess (Z.of_nat (length idsToSync))), w', true)
        | (Rejected _, w') =>
            (Some (MsgError "Connection failed. Ensure URL is correct and public."),
             w', false)
        end
      else (Some (MsgError "Connection failed. Ensure URL is correct and public."),
            w, false)
  | _ => (Some (MsgError "Configure Webhook URL first."), w, false)
  end.

(** [handleManualSync] of the older SyncManager: a failure of the analytics
    call ([aiOk = false]) is caught on the spot. *)
Definition handleManualSyncWith (markSynced : MarkSynced) (aiOk : bool)
    (entries : list Entry) (result : option SyncMessage) (w : IndexedDB)
  : option SyncMessage * IndexedDB * bool :=
  let unsyncedEntries :=
    filter (fun e => HarvestEntry.synced e = false) entries in
  if Z.of_nat (length unsyncedEntries) =? 0 then (result, w, false)
  else
    let idsToSync := map HarvestEntry.id unsyncedEntries in
    match callMarkSynced markSynced idsToSync w with
    | (Resolved _, w') =>
        (Some (MsgSuccess (Z.of_nat (length idsToSync))), w', true)
    | (Rejected _, w') =>
        (Some (MsgError "Sync failed. Check connection and retry."), w', false)
    end.

(** SyncManager.tsx imports [DBService] from ['../db'], which is src/db.ts. *)
Definition handlePushToSheets := handlePushToSheetsWith Db.markSynced.

(** ** Settings: db.ts saveSettings and getSettings, and the handlers of App *)

(** [Partial<HarvestSettings>]: [None] is a field that is absent (or null). *)
Module PartialSettings.
Record t := mk {
  activeTank : option string;
  shrimpCount : option number;
  tankCounts : option (gmap string number);
  tankPrices : option (gmap string string);
  crateWeight : option number;
  teamName : option string
}.
End PartialSettings.

(** What [JSON.parse] makes of the item stored under [harvest_settings]: it
    throws, or yields a falsy value, or an object read as a partial settings
    record (a truthy value that is no object has none of the fields). *)
Inductive StoredItem :=
| Unparsable
| JsonFalsy
| JsonObject (parsed : PartialSettings.t).

(** [localStorage]: the item ([None]: no item, or the empty string) and
    whether [setItem] succeeds. *)
Record LocalStorage := mkLS {
  settingsItem : option StoredItem;
  writable : bool
}.

(** [JSON.stringify(settings)] read back by [JSON.parse]: a field that is
    undefined is left out. *)
Definition stringify (s : Settings) : StoredItem :=
  JsonObject
    (PartialSettings.mk
       (Some (HarvestSettings.activeTank s))
       (Some (HarvestSettings.shrimpCount s))
       (Some (HarvestSettings.tankCounts s))
       (Some (HarvestSettings.tankPrices s))
       (HarvestSettings.crateWeight s)
       (Some (HarvestSettings.teamName s))).

(** [x || d] on a possibly missing string. *)
Definition or_string (x : option string) (d : string) : string :=
  match x with
  | Some (String c rest) => String c rest
  | _ => d
  end.

Definition saveSettings (settings : Settings) (ls : LocalStorage) : LocalStorage :=
  if writable ls then mkLS (Some (stringify settings)) (writable ls) else ls.

Definition defaultSettings : Settings :=
  HarvestSettings.mk "Tank 1" (num 100) ∅ ∅ (Some (num 10)) "Team".

Definition getSettings (ls : LocalStorage) : Settings * LocalStorage :=
  match settingsItem ls with
  | None => (defaultSettings, saveSettings defaultSettings ls)
  | Some Unparsable => (defaultSettings, ls)
  | Some JsonFalsy => (defaultSettings, ls)
  | Some (JsonObject parsed) =>
      (HarvestSettings.mk
         (or_string (PartialSettings.activeTank parsed)
                    (HarvestSettings.activeTank defaultSettings))
         (default (HarvestSettings.shrimpCount defaultSettings)
                  (PartialSettings.shrimpCount parsed))
         (default ∅ (PartialSettings.tankCounts parsed))
         (default ∅ (PartialSettings.tankPrices parsed))
         (Some (default (num 10) (PartialSettings.crateWeight parsed)))
         (or_string (PartialSettings.teamName parsed)
                    (HarvestSettings.teamName defaultSettings)),
       ls)
  end.

(** [{ ...prev, ...updates }]. *)
Definition spread (prev : Settings) (updates : PartialSettings.t) : Settings :=
  HarvestSettings.mk
    (default (HarvestSettings.activeTank prev) (PartialSettings.activeTank updates))
    (default (HarvestSettings.shrimpCount prev) (PartialSettings.shrimpCount updates))
    (default (HarvestSettings.tankCounts prev) (PartialSettings.tankCounts updates))
    (default (HarvestSettings.tankPrices prev) (PartialSettings.tankPrices updates))
    (match PartialSettings.crateWeight updates with
     | Some v => Some v
     | None => HarvestSettings.crateWeight prev
     end)
    (default (HarvestSettings.teamName prev) (PartialSettings.teamName updates)).

Definition with_shrimpCount (s : Settings) (c : number) : Settings :=
  HarvestSettings.mk (HarvestSettings.activeTank s) c (HarvestSettings.tankCounts s)
    (HarvestSettings.tankPrices s) (HarvestSettings.crateWeight s)
    (HarvestSettings.teamName s).

Definition with_tankCounts (s : Settings) (m : gmap string number) : Settings :=
  HarvestSettings.mk (HarvestSettings.activeTank s) (HarvestSettings.shrimpCount s) m
    (HarvestSettings.tankPrices s) (HarvestSettings.crateWeight s)
    (HarvestSettings.teamName s).

Definition with_tankPrices (s : Settings) (m : gmap string string) : Settings :=
  HarvestSettings.mk (HarvestSettings.activeTank s) (HarvestSettings.shrimpCount s)
    (HarvestSettings.tankCounts s) m (HarvestSettings.crateWeight s)
    (HarvestSettings.teamName s).

(** The handlers act on the settings of the application and on the storage. *)
Definition handleSaveSettings (newSettings : Settings) (ls : LocalStorage)
  : Settings * LocalStorage :=
  let updatedTankCounts :=
    <[HarvestSettings.activeTank newSettings := HarvestSettings.shrimpCount newSettings]>
      (HarvestSettings.tankCounts newSettings) in
  let finalSettings := with_tankCounts newSettings updatedTankCounts in
  (finalSettings, saveSettings finalSettings ls).

Definition handleQuickUpdateSettings (updates : PartialSettings.t)
    (prev : Settings) (ls : LocalStorage) : Settings * LocalStorage :=
  let next := spread prev updates in
  let next :=
    match PartialSettings.activeTank updates with
    | Some (String c rest) =>
        if decide (String c rest <> HarvestSettings.activeTank prev) then
          match HarvestSettings.tankCounts next !! String c rest with
          | Some storedCount => with_shrimpCount next storedCount
          | None => next
          end
        else next
    | _ => next
    end in
  let next :=
    match PartialSettings.shrimpCount updates with
    | Some c =>
        with_tankCounts next
          (<[HarvestSettings.activeTank next := c]> (HarvestSettings.tankCounts next))
    | None => next
    end in
  (next, saveSettings next ls).

Definition handleUpdatePrice (tank price : string) (prev : Settings)
    (ls : LocalStorage) : Settings * LocalStorage :=
  let next :=
    with_tankPrices prev (<[tank := price]> (HarvestSettings.tankPrices prev)) in
  (next, saveSettings next ls).

(** CrateEntry: the two quick updates. *)

(** [handleQuickTankSelect], given the name [`Tank ${tankNum}`]. *)
Definition handleQuickTankSelect (tankName : string) (settings : Settings)
    (ls : LocalStorage) : Settings * LocalStorage :=
  handleQuickUpdateSettings
    (PartialSettings.mk (Some tankName) None None None None None) settings ls.

(** [Math.max(1, x)]. *)
Definition max1 (x : number) : number :=
  if num_ltb x (num 1) then num 1 else x.

Definition adjustShrimpCount (delta : number) (settings : Settings)
    (ls : LocalStorage) : Settings * LocalStorage :=
  handleQuickUpdateSettings
    (PartialSettings.mk None
       (Some (max1 (HarvestSettings.shrimpCount settings + delta)%Qc))
       None None None None)
    settings ls.

(** ** HistoryScreen.handleClearAll *)

Section ClearAll.
Variable localeCompare : string -> string -> Z.

(** [handleDeleteHistoryDate] as the closure that a running handler holds:
    [entries] is the list of the render that created it, the store and the
    state are the current ones. *)
Definition deleteDateWith (entries : list Entry) (date : string) (app : App.t)
  : App.t :=
  let idsToDelete :=
    map HarvestEntry.id
        (filter (fun e => startsWith (HarvestEntry.timestamp e) date = true) entries) in
  if 0 <? Z.of_nat (length idsToDelete) then
    let calls := App.dbCalls app ++ [CallDeleteEntries idsToDelete] in
    match Db.deleteEntries idsToDelete (App.db app) with
    | (Resolved _, db') =>
        loadData localeCompare
          (App.mk (App.settings app) (App.entries app) (App.lastSaved app) db'
                  calls (App.alerts app))
    | (Rejected _, db') =>
        App.mk (App.settings app) (App.entries app) (App.lastSaved app) db'
               calls (App.alerts app ++ ["Failed to delete history for " +:+ date])
    end
  else app.

(** [handleClearAll]: [confirmed] is the answer to [window.confirm]; the loop
    runs over the [dailyStats] of the render and calls the [onDeleteDate] of
    that render. *)
Definition handleClearAll (confirmed : bool) (app : App.t) : App.t :=
  if confirmed then
    fold_left
      (fun a stat => deleteDateWith (App.entries app) (DailyStat.date stat) a)
      (dailyStats (groupedByDate localeCompare (App.entries app)))
      app
  else app.
End ClearAll.

(** ** The engine on binary64 numbers

    The loop and the totals of AbstractScreen.tsx once more, with every
    [number] a double and every [+], [-], [*] the rounded operation.  Exact
    rationals and doubles agree on a statement whose two sides perform the
    same operations in the same order; where a statement regroups or
    reorders a sum, this reading decides it. *)

Module Doubles.

(** The fields of an entry that the engine reads. *)
Record Entry := mkEntry {
  tank : string;
  count : float;
  weight : float;
  crateWeight : option float;
  crateCount : option float
}.

Record Summary := mkSummary {
  s_tank : string;
  entryCount : Z;
  patluCount : Z;
  singlesCount : Z;
  s_crateCount : float;
  totalWeight : float;
  absoluteWeight : float;
  shrimpCount : float
}.

(** [ToBoolean] on a double: [+0], [-0] and NaN are falsy. *)
Definition truthy (x : float) : bool :=
  negb (PrimFloat.eqb x 0%float || PrimFloat.is_nan x).

(** [x || d]. *)
Definition or_num (x : option float) (d : float) : float :=
  match x with
  | Some v => if truthy v then v else d
  | None => d
  end.

Definition newSummary (entry : Entry) : Summary :=
  mkSummary (tank entry) 0 0 0 0%float 0%float 0%float (count entry).

Definition bump (current : Summary) (entry : Entry) : Summary :=
  let entryCrateCount := or_num (crateCount entry) 1%float in
  let effectiveCrateWeight := or_num (crateWeight entry) 1.8%float in
  mkSummary
    (s_tank current)
    (entryCount current + 1)
    (if PrimFloat.eqb entryCrateCount 2%float then patluCount current + 1
     else patluCount current)
    (if PrimFloat.eqb entryCrateCount 2%float then singlesCount current
     else if PrimFloat.eqb entryCrateCount 1%float then singlesCount current + 1
     else singlesCount current)
    (s_crateCount current + entryCrateCount)%float
    (totalWeight current + weight entry)%float
    (absoluteWeight current
     + (weight entry - entryCrateCount * effectiveCrateWeight))%float
    (count entry).

Definition accumulate (m : JsMap.t Summary) (entry : Entry) : JsMap.t Summary :=
  let current := default (newSummary entry) (JsMap.get m (tank entry)) in
  JsMap.set m (tank entry) (bump current entry).

Definition summaries (localeCompare : string -> string -> Z)
    (entries : list Entry) : list Summary :=
  js_sort (fun a b => localeCompare (s_tank a) (s_tank b))
          (JsMap.values (fold_left accumulate entries [])).

(** [summaries.reduce((acc, s) => acc + s.field, 0)]. *)
Definition reduce_sum {A} (f : A -> float) (l : list A) : float :=
  fold_left (fun acc s => (acc + f s)%float) l 0%float.

Definition totalAbsolute (ss : list Summary) : float := reduce_sum absoluteWeight ss.
Definition totalGross (ss : list Summary) : float := reduce_sum totalWeight ss.
End Doubles.

(* ===================================================================== *)
(** * Part II. The specification's vocabulary and sample data             *)
(* ===================================================================== *)

(** ** Sums *)

(** Sums written as the specification reads them: a list of terms added up
    in list order, starting from zero. *)
Definition sumQ (l : list number) : number := fold_left Qcplus l (num 0).
Definition sumZ (l : list Z) : Z := fold_left Z.add l 0.

(** ** The entries of one container *)

Definition entriesOf (tank : string) (entries : list Entry) : list Entry :=
  filter (fun e => HarvestEntry.tank e = tank) entries.

(** The entry's crateCount, zero or missing treated as 1. *)
Definition specCrateCount (e : Entry) : number :=
  match HarvestEntry.crateCount e with
  | Some c => if decide (c = 0%Qc) then 1%Qc else c
  | None => 1%Qc
  end.

(** The entry's crateWeight, zero or missing replaced by the default. *)
Definition specCrateWeight (defaultCrateWeight : number) (e : Entry) : number :=
  match HarvestEntry.crateWeight e with
  | Some w => if decide (w = 0%Qc) then defaultCrateWeight else w
  | None => defaultCrateWeight
  end.

(** weight - entryCrateCount * effectiveCrateWeight, not clamped. *)
Definition specNet (defaultCrateWeight : number) (e : Entry) : number :=
  (HarvestEntry.weight e
   - specCrateCount e * specCrateWeight defaultCrateWeight e)%Qc.

(** The sum of the terms over the entries of one container, in input order. *)
Definition specAbsoluteWeight (defaultCrateWeight : number) (tank : string)
    (entries : list Entry) : number :=
  sumQ (map (specNet defaultCrateWeight) (entriesOf tank entries)).

(** ** The accumulating loop, for any per-entry update of [current]

    [accumulate] and [accumulatePdf] are this loop with [bump] and
    [bumpPdf]. *)

Definition accumulateWith (step : Summary -> Entry -> Summary)
    (m : JsMap.t Summary) (e : Entry) : JsMap.t Summary :=
  JsMap.set m (HarvestEntry.tank e)
    (step (default (newSummary e) (JsMap.get m (HarvestEntry.tank e))) e).

(** The map holds each accumulator once, under the name of its tank. *)
Definition keyed (m : JsMap.t Summary) : Prop :=
  NoDup (JsMap.keys m) /\ Forall (fun kv => TankSummary.tank kv.2 = kv.1) m.

(** A map with its values transformed. *)
Definition mapv {V W : Type} (g : V -> W) (m : JsMap.t V) : JsMap.t W :=
  map (fun kv => (kv.1, g kv.2)) m.

(** ** The export against the engine *)

(** The fields on which the two loops never differ. *)
Definition core (s : Summary) : string * Z * Z * number * number :=
  (TankSummary.tank s, TankSummary.entryCount s, TankSummary.patluCount s,
   TankSummary.crateCount s, TankSummary.totalWeight s).

Definition core_entryCount (c : string * Z * Z * number * number) : Z := c.1.1.1.2.
Definition core_totalWeight (c : string * Z * Z * number * number) : number := c.2.

(** The conditions under which one entry is treated alike by both loops. *)
Definition one_or_two (e : Entry) : Prop :=
  specCrateCount e = num 1 \/ specCrateCount e = num 2.

Definition covers_tare (e : Entry) : Prop :=
  (0 <= specNet DEFAULT_CRATE_WEIGHT e)%Qc.

Definition one_count_per_tank (entries : list Entry) : Prop :=
  forall e e', e ∈ entries -> e' ∈ entries ->
               HarvestEntry.tank e = HarvestEntry.tank e' ->
               HarvestEntry.count e = HarvestEntry.count e'.

(** ** The entry store *)

(** The key path: a record is stored under its own [id]. *)
Definition keyed_store (s : gmap string Entry) : Prop :=
  forall k e, s !! k = Some e -> HarvestEntry.id e = k.

(** All fields but [synced] are kept, and [synced] is true. *)
Definition synced_copy (e e' : Entry) : Prop :=
  HarvestEntry.id e' = HarvestEntry.id e
  /\ HarvestEntry.tank e' = HarvestEntry.tank e
  /\ HarvestEntry.count e' = HarvestEntry.count e
  /\ HarvestEntry.weight e' = HarvestEntry.weight e
  /\ HarvestEntry.crateWeight e' = HarvestEntry.crateWeight e
  /\ HarvestEntry.crateCount e' = HarvestEntry.crateCount e
  /\ HarvestEntry.team e' = HarvestEntry.team e
  /\ HarvestEntry.timestamp e' = HarvestEntry.timestamp e
  /\ HarvestEntry.synced e' = true.

(** The callback of one [get] in [mark_all]. *)
Definition mark_step (acc : gmap string Entry) (r : option Entry)
  : gmap string Entry :=
  match r with
  | Some entry => store_put (HarvestEntry.set_synced entry) acc
  | None => acc
  end.

(** The entry list shown by the application is the content of the store. *)
Definition mirrors_store (app : App.t) : Prop :=
  keyed_store (harvest_entries (App.db app))
  /\ forall e, e ∈ App.entries app <->
               exists k, harvest_entries (App.db app) !! k = Some e.

(** ** History *)

(** One iteration of the loop of [groupByDate]. *)
Definition dateStep (groups : JsMap.t (list Entry)) (entry : Entry)
  : JsMap.t (list Entry) :=
  let date := dateOf (HarvestEntry.timestamp entry) in
  JsMap.set groups date (default [] (JsMap.get groups date) ++ [entry]).

(** The ids selected by [handleDeleteHistoryDate]. *)
Definition idsToDelete (date : string) (entries : list Entry) : list string :=
  map HarvestEntry.id
      (filter (fun e => startsWith (HarvestEntry.timestamp e) date = true) entries).

(** ** Sorting by a key *)

Definition ascending {A : Type} (key : A -> Z) (a b : A) : Z := key a - key b.
Definition descending {A : Type} (key : A -> Z) (a b : A) : Z := key b - key a.

Definition key_le {A : Type} (key : A -> Z) (a b : A) : Prop := key a <= key b.
Definition key_ge {A : Type} (key : A -> Z) (a b : A) : Prop := key b <= key a.

(** ** Serial numbers *)

(** The ascending numbering in the specification's words: sort the group
    ascending by timestamp and number it 1..N in that order. *)
Definition ascendingSerials (getTime : string -> option Z) (group : list Entry)
  : list (Entry * Z) :=
  imap (fun i e => (e, Z.of_nat i + 1)) (js_sort (byTimeAsc getTime) group).

(** The instant of an entry whose timestamp is a valid date. *)
Definition timeKey (getTime : string -> option Z) (e : Entry) : Z :=
  default 0 (timeOf getTime e).

Definition valid_times (getTime : string -> option Z) (l : list Entry) : Prop :=
  Forall (fun e => is_Some (timeOf getTime e)) l.

(** ** Sample instances of the parameters *)

(** A sample locale comparison (by character code), to evaluate the
    definitions on concrete inputs. *)
Definition codeCompare (a b : string) : Z := cmpZ (String.compare a b).

(** A sample [parseFloat]: optionally signed decimal integers. *)
Definition digitOf (c : ascii) : option Z :=
  let n := Z.of_N (N_of_ascii c) - 48 in
  if (0 <=? n) && (n <=? 9) then Some n else None.

Fixpoint digitsOf (s : string) (acc : option Z) : option Z :=
  match s with
  | EmptyString => acc
  | String c rest =>
      match digitOf c with
      | Some d => digitsOf rest (Some (10 * default 0 acc + d))
      | None => acc
      end
  end.

Definition sampleParseFloat (s : string) : option number :=
  match s with
  | String "-" rest => z ← digitsOf rest None; Some (num (- z))
  | _ => z ← digitsOf s None; Some (num z)
  end.

(** A sample clock: the instants used in the examples, in milliseconds. *)
Definition sampleGetTime (s : string) : option Z :=
  if String.eqb s "2024-01-15T10:00:00.000Z" then Some 1705312800000
  else if String.eqb s "2024-01-15T11:00:00.000Z" then Some 1705316400000
  else if String.eqb s "2024-01-16T09:30:00.000Z" then Some 1705397400000
  else None.

(** ** Sample records *)

(** 10 kg on two crates of 1.8 kg, and a later record of the same tank. *)
Definition storedEntry : Entry :=
  HarvestEntry.mk "id_1" "Tank 1" (num 40) (num 10) (Some (dec 18 10)) (Some (num 2))
                  "Team A" "2024-01-15T10:00:00.000Z" false.

Definition laterEntry : Entry :=
  HarvestEntry.mk "id_5" "Tank 1" (num 40) (num 11) (Some (dec 18 10)) (Some (num 2))
                  "Team A" "2024-01-15T11:00:00.000Z" false.

Definition otherEntry : Entry :=
  HarvestEntry.mk "id_3" "Tank 2" (num 35) (num 7) (Some (dec 18 10)) (Some (num 1))
                  "Team A" "2024-01-16T09:30:00.000Z" false.

(** An entry whose tare exceeds its weight: 1 kg on two crates of 2 kg. *)
Definition lightEntry : Entry :=
  HarvestEntry.mk "id_1" "Tank 1" (num 40) (num 1) (Some (num 2)) (Some (num 2))
                  "Team A" "2024-01-15T10:00:00.000Z" false.

(** An entry with a negative gross weight, as an edit or a recalled row can
    store it: -10 kg on one crate of 2 kg. *)
Definition negativeEntry : Entry :=
  HarvestEntry.mk "id_2" "Tank 1" (num 40) (num (-10)) (Some (num 2)) (Some (num 1))
                  "Team A" "2024-01-15T11:00:00.000Z" false.

(** A recalled record whose timestamp has a space where ISO has ['T']. *)
Definition spacedEntry : Entry :=
  HarvestEntry.mk "id_4" "Tank 1" (num 40) (num 9) (Some (dec 18 10)) (Some (num 1))
                  "Team B" "2024-01-15 18:30" true.

(** Two records of one tank stamped with the same instant. *)
Definition tieA : Entry :=
  HarvestEntry.mk "id_a" "Tank 1" (num 40) (num 10) (Some (dec 18 10)) (Some (num 2))
                  "Team A" "2024-01-15T10:00:00.000Z" true.

Definition tieB : Entry :=
  HarvestEntry.mk "id_b" "Tank 1" (num 40) (num 12) (Some (dec 18 10)) (Some (num 2))
                  "Team A" "2024-01-15T10:00:00.000Z" true.

(** The worked example of the specification: 10 kg on two crates and 5 kg on
    one crate of 1.8 kg, both in Tank 1. *)
Definition exampleEntries : list Entry :=
  [ HarvestEntry.mk "id_6" "Tank 1" (num 40) (num 10) (Some (dec 18 10)) (Some (num 2))
                    "Team A" "2024-01-15T10:00:00.000Z" false;
    HarvestEntry.mk "id_7" "Tank 1" (num 40) (num 5) (Some (dec 18 10)) (Some (num 1))
                    "Team A" "2024-01-15T11:00:00.000Z" false ].

Definition plainEntries : list Entry := [storedEntry; otherEntry].
Definition tankOneGroup : list Entry := [storedEntry; laterEntry].

Definition sampleSettings : Settings :=
  HarvestSettings.mk "Tank 1" (num 50) ∅ ∅ (Some (dec 18 10)) "Team A".

Definition sampleApp : App.t :=
  App.mk sampleSettings [] None (mkIDB true true ∅) [] [].

Definition sampleStore : gmap string Entry :=
  store_put otherEntry (store_put storedEntry ∅).

Definition sampleDb : IndexedDB := mkIDB true true sampleStore.

(** An application whose list was loaded from a store of three records. *)
Definition loadedApp : App.t :=
  loadData codeCompare
    (App.mk sampleSettings [] None
            (mkIDB true true (store_put spacedEntry sampleStore)) [] []).

(** ** The per-tank figures, read off the entries *)

(** The number of entries of a list that satisfy a test. *)
Definition countWhere (P : Entry -> Prop) `{forall e, Decision (P e)}
    (l : list Entry) : Z :=
  Z.of_nat (length (filter P l)).

(** The tare of one entry: resolved crate count times resolved crate weight. *)
Definition specTare (e : Entry) : number :=
  (specCrateCount e * specCrateWeight DEFAULT_CRATE_WEIGHT e)%Qc.

(** What goes beyond the weight when the tare exceeds it, else zero. *)
Definition overshoot (e : Entry) : number :=
  max0 (specTare e - HarvestEntry.weight e)%Qc.

(** The seven figures of a summary agree with the entries [l] of its tank. *)
Definition figures_of (l : list Entry) (s : Summary) : Prop :=
  TankSummary.entryCount s = Z.of_nat (length l)
  /\ TankSummary.patluCount s = countWhere (fun e => specCrateCount e = num 2) l
  /\ TankSummary.singlesCount s = countWhere (fun e => specCrateCount e = num 1) l
  /\ TankSummary.crateCount s = sumQ (map specCrateCount l)
  /\ TankSummary.totalWeight s = sumQ (map HarvestEntry.weight l)
  /\ TankSummary.absoluteWeight s = sumQ (map (specNet DEFAULT_CRATE_WEIGHT) l)
  /\ Some (TankSummary.shrimpCount s) = HarvestEntry.count <$> last l.

(** Two summaries of one tank with the same entry, patlu and singles
    counts. *)
Definition same_counts (s s' : Summary) : Prop :=
  TankSummary.tank s' = TankSummary.tank s
  /\ TankSummary.entryCount s' = TankSummary.entryCount s
  /\ TankSummary.patluCount s' = TankSummary.patluCount s
  /\ TankSummary.singlesCount s' = TankSummary.singlesCount s.

(** An entry whose stored crate count is zero or missing. *)
Definition unset_crateCount (e : Entry) : Prop :=
  HarvestEntry.crateCount e = None \/ HarvestEntry.crateCount e = Some 0%Qc.

Global Instance unset_crateCount_dec (e : Entry) : Decision (unset_crateCount e).
Proof. unfold unset_crateCount. apply _. Defined.

(** The entries of one date, in input order. *)
Definition entriesOn (date : string) (entries : list Entry) : list Entry :=
  filter (fun e => dateOf (HarvestEntry.timestamp e) = date) entries.

(** The entries whose timestamp starts with a date string. *)
Definition entriesFrom (date : string) (entries : list Entry) : list Entry :=
  filter (fun e => startsWith (HarvestEntry.timestamp e) date = true) entries.

(** The figures of a summary of the report agree with the entries [l] of its
    tank: singles are all entries that are not patlu, the net is clamped and
    the sizing metric is that of the first entry. *)
Definition report_figures_of (l : list Entry) (p : Summary) : Prop :=
  TankSummary.entryCount p = Z.of_nat (length l)
  /\ TankSummary.patluCount p = countWhere (fun e => specCrateCount e = num 2) l
  /\ TankSummary.singlesCount p = countWhere (fun e => specCrateCount e <> num 2) l
  /\ TankSummary.patluCount p + TankSummary.singlesCount p = TankSummary.entryCount p
  /\ TankSummary.absoluteWeight p
     = sumQ (map (fun e => max0 (specNet DEFAULT_CRATE_WEIGHT e)) l)
  /\ (0 <= TankSummary.absoluteWeight p)%Qc
  /\ Some (TankSummary.shrimpCount p) = HarvestEntry.count <$> head l.

(** ** The store, operation after operation *)

(** The world after an operation, whatever its promise settles to. *)
Definition after {A} (r : Promise A * IndexedDB) : IndexedDB := r.2.

(** Deleting the ids one by one, each in a transaction of its own. *)
Definition deleteEach (ids : list string) (w : IndexedDB) : IndexedDB :=
  fold_left (fun w id => after (Db.deleteEntry id w)) ids w.

(** The store answers: it can be opened and its transactions complete. *)
Definition responsive (w : IndexedDB) : Prop :=
  openable w = true /\ tx_commits w = true.

Definition unsynced (e : Entry) : Prop := HarvestEntry.synced e = false.

(** ** Settings *)

(** Settings as [getSettings] hands them out: a tank and a team are named and
    the crate weight is set. *)
Definition well_formed (s : Settings) : Prop :=
  HarvestSettings.activeTank s <> ""
  /\ HarvestSettings.teamName s <> ""
  /\ is_Some (HarvestSettings.crateWeight s).

(** What is read back after saving [s]. *)
Definition readBack (s : Settings) : Settings :=
  HarvestSettings.mk
    (if String.eqb (HarvestSettings.activeTank s) "" then "Tank 1"
     else HarvestSettings.activeTank s)
    (HarvestSettings.shrimpCount s)
    (HarvestSettings.tankCounts s)
    (HarvestSettings.tankPrices s)
    (Some (default (num 10) (HarvestSettings.crateWeight s)))
    (if String.eqb (HarvestSettings.teamName s) "" then "Team"
     else HarvestSettings.teamName s).

(** A count stored for the active tank is the current count. *)
Definition count_consistent (s : Settings) : Prop :=
  forall c, HarvestSettings.tankCounts s !! HarvestSettings.activeTank s = Some c ->
            c = HarvestSettings.shrimpCount s.

(** The count of the active tank is stored. *)
Definition count_recorded (s : Settings) : Prop :=
  HarvestSettings.tankCounts s !! HarvestSettings.activeTank s
  = Some (HarvestSettings.shrimpCount s).

(** ** Samples for the default crate weight and for rounding *)

(** Settings whose configured crate weight is zero, and the application
    after one crate of 12 kg was added under them. *)
Definition zeroTareSettings : Settings :=
  HarvestSettings.mk "Tank 1" (num 50) ∅ ∅ (Some (num 0)) "Team A".

Definition zeroTareApp : App.t :=
  handleAddEntry "id_9" "2024-01-15T12:00:00.000Z"
                 (App.mk zeroTareSettings [] None (mkIDB true true ∅) [] [])
                 (num 12) (num 1).

(** [sum(entry.weight)] on doubles: the weights added in input order. *)
Definition sumWeights (entries : list Doubles.Entry) : float :=
  fold_left (fun acc e => (acc + Doubles.weight e)%float) entries 0%float.

(** Three crates of 0.1, 0.1 and 1.1 kg, the second from another tank. *)
Definition roundingEntries : list Doubles.Entry :=
  [ Doubles.mkEntry "Tank 1" 40%float 0.1%float (Some 1.8%float) (Some 1%float);
    Doubles.mkEntry "Tank 2" 40%float 0.1%float (Some 1.8%float) (Some 1%float);
    Doubles.mkEntry "Tank 1" 40%float 1.1%float (Some 1.8%float) (Some 1%float) ].

(** ** Keys of plain objects *)

(** No date prefix, no tank name of the list names a member of
    [Object.prototype]. *)
Definition plain_dates (entries : list Entry) : Prop :=
  Forall (fun e => own_key (dateOf (HarvestEntry.timestamp e))) entries.

Definition plain_tanks (entries : list Entry) : Prop :=
  Forall (fun e => own_key (HarvestEntry.tank e)) entries.

(** ** ISO-8601 instants

    A pattern in which [d] stands for a decimal digit and every other
    character for itself. *)
Definition isDigit (c : ascii) : bool :=
  let n := Z.of_N (N_of_ascii c) in (48 <=? n) && (n <=? 57).

Fixpoint matchesPattern (pattern s : string) : bool :=
  match pattern, s with
  | EmptyString, EmptyString => true
  | String p pattern', String c s' =>
      (if Ascii.eqb p "d" then isDigit c else Ascii.eqb p c)
      && matchesPattern pattern' s'
  | _, _ => false
  end.

(** What [new Date().toISOString()] produces (years 0000 to 9999), and the
    date keys of such instants. *)
Definition isoInstant (timestamp : string) : bool :=
  matchesPattern "dddd-dd-ddTdd:dd:dd.dddZ" timestamp.

Definition isoDate (date : string) : bool :=
  matchesPattern "dddd-dd-dd" date.

Definition iso_timestamps (entries : list Entry) : Prop :=
  Forall (fun e => isoInstant (HarvestEntry.timestamp e) = true) entries.

(** An application whose list was loaded from a store of two records with
    ISO-8601 timestamps. *)
Definition isoApp : App.t :=
  loadData codeCompare (App.mk sampleSettings [] None sampleDb [] []).

(** A record of Tank 1 on the following day, and the log of both days. *)
Definition nextDayEntry : Entry :=
  HarvestEntry.mk "id_8" "Tank 1" (num 40) (num 9) (Some (dec 18 10)) (Some (num 2))
                  "Team A" "2024-01-16T09:30:00.000Z" false.

Definition twoDayGroup : list Entry := [storedEntry; nextDayEntry].

(* ===================================================================== *)
(** * Part III. Properties                                                *)
(* ===================================================================== *)

(** ** Numbers *)

Lemma num_eqb_eq (a b : number) : num_eqb a b = true <-> a = b.
Proof.
  unfold num_eqb. rewrite Qeq_bool_iff. split.
  - apply Qc_is_canon.
  - intros ->. reflexivity.
Qed.

Lemma num_eqb_neq (a b : number) : num_eqb a b = false <-> a <> b.
Proof.
  rewrite <- num_eqb_eq. destruct (num_eqb a b); split; congruence.
Qed.

Lemma num_ltb_lt (a b : number) : num_ltb a b = true <-> (a < b)%Qc.
Proof.
  unfold num_ltb. rewrite negb_true_iff.
  destruct (Qle_bool b a) eqn:E.
  - split; [discriminate|]. intros H. apply Qle_bool_iff in E.
    exfalso. apply (Qlt_not_le _ _ H). exact E.
  - split; [intros _|reflexivity].
    apply Qnot_le_lt. intros H. apply Qle_bool_iff in H. congruence.
Qed.

Lemma num_ltb_ge (a b : number) : num_ltb a b = false <-> (b <= a)%Qc.
Proof.
  unfold num_ltb. rewrite negb_false_iff. apply Qle_bool_iff.
Qed.

Lemma or_num_some (v d : number) : v <> num 0 -> or_num (Some v) d = v.
Proof.
  intros H. unfold or_num, truthy.
  apply num_eqb_neq in H. rewrite H. reflexivity.
Qed.

Lemma max0_nonneg (x : number) : (num 0 <= x)%Qc -> max0 x = x.
Proof.
  intros H. unfold max0. apply num_ltb_ge in H. rewrite H. reflexivity.
Qed.

Lemma num_0 : num 0 = 0%Qc.
Proof. apply Qc_is_canon. reflexivity. Qed.

Lemma fold_left_Qcplus (l : list number) (a : number) :
  fold_left Qcplus l a = (a + sumQ l)%Qc.
Proof.
  unfold sumQ. revert a. induction l as [|x l IH]; intros a; simpl.
  - rewrite num_0. ring.
  - rewrite IH. rewrite (IH (num 0 + x)%Qc). rewrite num_0. ring.
Qed.

Lemma sumQ_cons (x : number) (l : list number) : sumQ (x :: l) = (x + sumQ l)%Qc.
Proof.
  unfold sumQ at 1. simpl. rewrite fold_left_Qcplus, num_0. ring.
Qed.

Lemma sumQ_app (l1 l2 : list number) : sumQ (l1 ++ l2) = (sumQ l1 + sumQ l2)%Qc.
Proof.
  induction l1 as [|x l1 IH]; simpl.
  - unfold sumQ at 2. simpl. rewrite num_0. ring.
  - rewrite !sumQ_cons, IH. ring.
Qed.

Lemma sumQ_perm (l1 l2 : list number) : l1 ≡ₚ l2 -> sumQ l1 = sumQ l2.
Proof.
  induction 1 as [|x l1 l2 _ IH|x y l|l1 l2 l3 _ IH1 _ IH2].
  - reflexivity.
  - rewrite !sumQ_cons, IH. reflexivity.
  - rewrite !sumQ_cons. ring.
  - congruence.
Qed.

Lemma fold_left_Zplus (l : list Z) (a : Z) : fold_left Z.add l a = a + sumZ l.
Proof.
  unfold sumZ. revert a. induction l as [|x l IH]; intros a; simpl; [lia|].
  rewrite IH, (IH (0 + x)). lia.
Qed.

Lemma sumZ_cons (x : Z) (l : list Z) : sumZ (x :: l) = x + sumZ l.
Proof. unfold sumZ at 1. simpl. rewrite fold_left_Zplus. lia. Qed.

Lemma sumZ_perm (l1 l2 : list Z) : l1 ≡ₚ l2 -> sumZ l1 = sumZ l2.
Proof.
  induction 1 as [|x l1 l2 _ IH|x y l|l1 l2 l3 _ IH1 _ IH2].
  - reflexivity.
  - rewrite !sumZ_cons, IH. reflexivity.
  - rewrite !sumZ_cons. lia.
  - congruence.
Qed.

Lemma reduce_sum_sumQ {A} (f : A -> number) (l : list A) :
  reduce_sum f l = sumQ (map f l).
Proof.
  unfold reduce_sum, sumQ. generalize (num 0).
  induction l as [|x l IH]; intros a; simpl; [reflexivity|apply IH].
Qed.

Lemma reduce_count_sumZ {A} (f : A -> Z) (l : list A) :
  reduce_count f l = sumZ (map f l).
Proof.
  unfold reduce_count, sumZ. generalize 0.
  induction l as [|x l IH]; intros a; simpl; [reflexivity|apply IH].
Qed.

(** ** The sort returns a rearrangement of its argument *)

Section JsSortFacts.
Context {A : Type} (compareFn : A -> A -> Z).

Lemma sort_insert_perm (x : A) (l : list A) : sort_insert compareFn x l ≡ₚ x :: l.
Proof.
  induction l as [|y l IH]; simpl; [reflexivity|].
  destruct (compareFn x y <=? 0); [reflexivity|].
  rewrite IH. apply Permutation_swap.
Qed.

Lemma js_sort_perm (l : list A) : js_sort compareFn l ≡ₚ l.
Proof.
  induction l as [|x l IH]; simpl; [reflexivity|].
  rewrite sort_insert_perm. by rewrite IH.
Qed.

Lemma elem_of_js_sort (x : A) (l : list A) : x ∈ js_sort compareFn l <-> x ∈ l.
Proof. by rewrite js_sort_perm. Qed.

Lemma length_js_sort (l : list A) : length (js_sort compareFn l) = length l.
Proof. by rewrite js_sort_perm. Qed.
End JsSortFacts.

(** Sorting commutes with a map that the comparator cannot see through. *)
Lemma js_sort_map {A B} (f : A -> B) (cmpA : A -> A -> Z) (cmpB : B -> B -> Z)
    (l : list A) :
  (forall a b, cmpB (f a) (f b) = cmpA a b) ->
  js_sort cmpB (map f l) = map f (js_sort cmpA l).
Proof.
  intros Hc. induction l as [|x l IH]; simpl; [reflexivity|].
  rewrite IH. generalize (js_sort cmpA l) as s. clear IH.
  induction s as [|y s IHs]; simpl; [reflexivity|].
  rewrite Hc. destruct (cmpA x y <=? 0); simpl; [reflexivity|].
  by rewrite IHs.
Qed.

(** ** The insertion-ordered map *)

Section JsMapFacts.
Context {V : Type}.
Implicit Types (m : JsMap.t V) (k : string) (v : V).

Lemma get_set_eq m k v : JsMap.get (JsMap.set m k v) k = Some v.
Proof.
  induction m as [|[k' v'] m IH]; simpl.
  - by rewrite String.eqb_refl.
  - destruct (String.eqb k' k) eqn:E; simpl.
    + by rewrite String.eqb_refl.
    + by rewrite E.
Qed.

Lemma get_set_ne m k k' v :
  k <> k' -> JsMap.get (JsMap.set m k v) k' = JsMap.get m k'.
Proof.
  intros Hne. induction m as [|[k0 v0] m IH]; simpl.
  - apply String.eqb_neq in Hne. by rewrite Hne.
  - destruct (String.eqb k0 k) eqn:E; simpl.
    + apply String.eqb_eq in E. subst k0.
      apply String.eqb_neq in Hne. by rewrite Hne.
    + by rewrite IH.
Qed.

Lemma get_Some_elem m k v : JsMap.get m k = Some v -> (k, v) ∈ m.
Proof.
  induction m as [|[k' v'] m IH]; simpl; [discriminate|].
  destruct (String.eqb k' k) eqn:E.
  - apply String.eqb_eq in E. intros [= ->]. subst. left.
  - intros H. right. by apply IH.
Qed.

Lemma get_None_keys m k : JsMap.get m k = None <-> k ∉ JsMap.keys m.
Proof.
  induction m as [|[k' v'] m IH]; simpl.
  - split; [intros _; apply not_elem_of_nil|done].
  - rewrite not_elem_of_cons. destruct (String.eqb k' k) eqn:E.
    + apply String.eqb_eq in E. split; [discriminate|]. intros [? _]. congruence.
    + apply String.eqb_neq in E. rewrite IH. split; [|tauto].
      intros ?. split; [congruence|done].
Qed.

Lemma elem_get m k v : NoDup (JsMap.keys m) -> (k, v) ∈ m -> JsMap.get m k = Some v.
Proof.
  induction m as [|[k' v'] m IH]; simpl; intros Hnd Hin.
  - by apply elem_of_nil in Hin.
  - apply NoDup_cons in Hnd as [Hk Hnd].
    apply elem_of_cons in Hin as [[= -> ->]|Hin].
    + by rewrite String.eqb_refl.
    + destruct (String.eqb k' k) eqn:E.
      * apply String.eqb_eq in E. subst k'. exfalso. apply Hk.
        apply list_elem_of_fmap. by exists (k, v).
      * by apply IH.
Qed.

Lemma keys_set m k v :
  JsMap.keys (JsMap.set m k v) =
  match JsMap.get m k with
  | Some _ => JsMap.keys m
  | None => JsMap.keys m ++ [k]
  end.
Proof.
  induction m as [|[k' v'] m IH]; simpl; [done|].
  destruct (String.eqb k' k) eqn:E; simpl.
  - apply String.eqb_eq in E. by subst.
  - rewrite IH. by destruct (JsMap.get m k).
Qed.

Lemma NoDup_keys_set m k v :
  NoDup (JsMap.keys m) -> NoDup (JsMap.keys (JsMap.set m k v)).
Proof.
  intros Hnd. rewrite keys_set. destruct (JsMap.get m k) eqn:E; [done|].
  apply NoDup_app. split; [done|]. split.
  - intros x Hx Hx'. apply list_elem_of_singleton in Hx'. subst x.
    by apply get_None_keys in E.
  - apply NoDup_singleton.
Qed.

Lemma elem_of_set m k v k0 v0 :
  (k0, v0) ∈ JsMap.set m k v -> (k0, v0) = (k, v) \/ (k0, v0) ∈ m.
Proof.
  induction m as [|[k' v'] m IH]; simpl.
  - intros H. apply list_elem_of_singleton in H. by left.
  - destruct (String.eqb k' k) eqn:E.
    + intros H. apply elem_of_cons in H as [H|H]; [by left|].
      right. by right.
    + intros H. apply elem_of_cons in H as [H|H].
      * right. rewrite H. left.
      * destruct (IH H) as [?|?]; [by left|]. right. by right.
Qed.

(** Replacing or appending one binding changes a sum over the values by
    the new value minus the old one. *)
Lemma sum_values_set (f : V -> number) m k v :
  (sumQ (map f (JsMap.values (JsMap.set m k v)))
   + from_option f (num 0) (JsMap.get m k))%Qc
  = (sumQ (map f (JsMap.values m)) + f v)%Qc.
Proof.
  unfold JsMap.values.
  induction m as [|[k' v'] m IH]; simpl.
  - rewrite sumQ_cons. unfold sumQ. simpl. rewrite num_0. ring.
  - destruct (String.eqb k' k) eqn:E; simpl.
    + rewrite !sumQ_cons. ring.
    + rewrite !sumQ_cons.
      transitivity (f v' + (sumQ (map f (map snd (JsMap.set m k v)))
                            + from_option f (num 0) (JsMap.get m k)))%Qc; [ring|].
      rewrite IH. ring.
Qed.

Lemma count_values_set (f : V -> Z) m k v :
  sumZ (map f (JsMap.values (JsMap.set m k v)))
  + from_option f 0 (JsMap.get m k)
  = sumZ (map f (JsMap.values m)) + f v.
Proof.
  unfold JsMap.values.
  induction m as [|[k' v'] m IH]; simpl.
  - rewrite sumZ_cons. unfold sumZ. simpl. lia.
  - destruct (String.eqb k' k) eqn:E; simpl.
    + rewrite !sumZ_cons. lia.
    + rewrite !sumZ_cons. lia.
Qed.
End JsMapFacts.

(** ** The accumulating loop, for any per-entry update of [current] *)

Section Accumulation.
Variable step : Summary -> Entry -> Summary.
Hypothesis step_tank :
  forall s e, TankSummary.tank (step s e) = TankSummary.tank s.

(** The accumulator of a tank is the fold of the update over the entries of
    that tank, in input order, from the zeroed record of its first entry. *)
Lemma get_fold_accumulate (entries : list Entry) (k : string) :
  JsMap.get (fold_left (accumulateWith step) entries []) k =
  match entriesOf k entries with
  | [] => None
  | e0 :: _ => Some (fold_left step (entriesOf k entries) (newSummary e0))
  end.
Proof.
  induction entries as [|e entries IH] using rev_ind; [reflexivity|].
  rewrite fold_left_app. simpl. unfold accumulateWith at 1.
  unfold entriesOf in *. rewrite filter_app.
  destruct (decide (HarvestEntry.tank e = k)) as [Hk|Hk].
  - subst k. rewrite get_set_eq, IH.
    rewrite (filter_cons_True _ e []) by done. rewrite filter_nil.
    destruct (filter _ entries) as [|e0 l]; simpl; [done|].
    by rewrite fold_left_app.
  - rewrite get_set_ne by done. rewrite IH.
    rewrite (filter_cons_False _ e []) by done. rewrite filter_nil.
    by rewrite app_nil_r.
Qed.

Lemma keyed_fold_accumulate (entries : list Entry) :
  keyed (fold_left (accumulateWith step) entries []).
Proof.
  induction entries as [|e entries IH] using rev_ind.
  - split; [apply NoDup_nil_2|constructor].
  - rewrite fold_left_app. simpl. destruct IH as [Hnd Hk].
    set (m := fold_left (accumulateWith step) entries []) in *.
    split; [by apply NoDup_keys_set|].
    apply Forall_forall. intros [k0 v0] Hin.
    apply elem_of_set in Hin as [[= -> ->]|Hin]; simpl.
    + rewrite step_tank. destruct (JsMap.get m (HarvestEntry.tank e)) eqn:E; simpl; [|done].
      apply get_Some_elem in E. by apply (proj1 (Forall_forall _ _) Hk) in E.
    + by apply (proj1 (Forall_forall _ _) Hk) in Hin.
Qed.

Lemma elem_values_fold (entries : list Entry) (s : Summary) :
  s ∈ JsMap.values (fold_left (accumulateWith step) entries []) <->
  JsMap.get (fold_left (accumulateWith step) entries []) (TankSummary.tank s) = Some s.
Proof.
  destruct (keyed_fold_accumulate entries) as [Hnd Hk].
  set (m := fold_left (accumulateWith step) entries []) in *. split.
  - intros Hin. apply list_elem_of_fmap in Hin as [[k v] [-> Hin]]. simpl.
    pose proof (proj1 (Forall_forall _ _) Hk _ Hin) as Ht. simpl in Ht.
    rewrite Ht. by apply elem_get.
  - intros Hg. apply get_Some_elem in Hg.
    apply list_elem_of_fmap. by exists (TankSummary.tank s, s).
Qed.

(** What a summary in the values of the map is. *)
Lemma values_fold_inv (entries : list Entry) (s : Summary) :
  s ∈ JsMap.values (fold_left (accumulateWith step) entries []) ->
  exists e0 l, entriesOf (TankSummary.tank s) entries = e0 :: l /\
               s = fold_left step (e0 :: l) (newSummary e0).
Proof.
  rewrite elem_values_fold, get_fold_accumulate.
  destruct (entriesOf _ entries) as [|e0 l]; [discriminate|].
  intros [= <-]. by exists e0, l.
Qed.

Lemma values_fold_has (entries : list Entry) (e : Entry) :
  e ∈ entries ->
  exists s, s ∈ JsMap.values (fold_left (accumulateWith step) entries []) /\
            TankSummary.tank s = HarvestEntry.tank e.
Proof.
  intros Hin.
  pose proof (get_fold_accumulate entries (HarvestEntry.tank e)) as Hg.
  assert (He : e ∈ entriesOf (HarvestEntry.tank e) entries).
  { unfold entriesOf. by apply list_elem_of_filter. }
  destruct (entriesOf (HarvestEntry.tank e) entries) as [|e0 l] eqn:E.
  { by apply elem_of_nil in He. }
  destruct (keyed_fold_accumulate entries) as [_ Hk].
  eexists. split.
  - apply list_elem_of_fmap. eexists (_, _). split; [|by apply get_Some_elem]. done.
  - apply get_Some_elem in Hg.
    by apply (proj1 (Forall_forall _ _) Hk) in Hg.
Qed.
End Accumulation.

(** ** The engine is an instance of the accumulating loop *)

Lemma accumulate_is_accumulateWith : accumulate = accumulateWith bump.
Proof. reflexivity. Qed.

Lemma accumulatePdf_is_accumulateWith : accumulatePdf = accumulateWith bumpPdf.
Proof. reflexivity. Qed.

Lemma bump_tank (s : Summary) (e : Entry) :
  TankSummary.tank (bump s e) = TankSummary.tank s.
Proof. reflexivity. Qed.

Lemma bumpPdf_tank (s : Summary) (e : Entry) :
  TankSummary.tank (bumpPdf s e) = TankSummary.tank s.
Proof. reflexivity. Qed.

Lemma fold_bump_absoluteWeight (l : list Entry) (s : Summary) :
  TankSummary.absoluteWeight (fold_left bump l s)
  = (TankSummary.absoluteWeight s + sumQ (map entryNet l))%Qc.
Proof.
  revert s. induction l as [|e l IH]; intros s; simpl.
  - unfold sumQ. simpl. rewrite num_0. ring.
  - rewrite IH, sumQ_cons. simpl. ring.
Qed.

Lemma fold_bump_totalWeight (l : list Entry) (s : Summary) :
  TankSummary.totalWeight (fold_left bump l s)
  = (TankSummary.totalWeight s + sumQ (map HarvestEntry.weight l))%Qc.
Proof.
  revert s. induction l as [|e l IH]; intros s; simpl.
  - unfold sumQ. simpl. rewrite num_0. ring.
  - rewrite IH, sumQ_cons. simpl. ring.
Qed.

(** ** The specification's reading of the per-entry terms *)

Lemma num_1 : num 1 = 1%Qc.
Proof. apply Qc_is_canon. reflexivity. Qed.

Lemma or_num_spec (x : option number) (d : number) :
  or_num x d =
  match x with
  | Some v => if decide (v = 0%Qc) then d else v
  | None => d
  end.
Proof.
  destruct x as [v|]; simpl; [|reflexivity]. unfold truthy.
  rewrite num_0. destruct (decide (v = 0%Qc)) as [->|Hv].
  - by rewrite (proj2 (num_eqb_eq _ _) eq_refl).
  - by rewrite (proj2 (num_eqb_neq _ _) Hv).
Qed.

Lemma entryCrateCount_spec (e : Entry) : entryCrateCount e = specCrateCount e.
Proof. unfold entryCrateCount, specCrateCount. by rewrite or_num_spec, num_1. Qed.

Lemma effectiveCrateWeight_spec (e : Entry) :
  effectiveCrateWeight e = specCrateWeight DEFAULT_CRATE_WEIGHT e.
Proof. unfold effectiveCrateWeight, specCrateWeight. by rewrite or_num_spec. Qed.

Lemma entryNet_spec (e : Entry) : entryNet e = specNet DEFAULT_CRATE_WEIGHT e.
Proof.
  unfold entryNet, specNet.
  by rewrite entryCrateCount_spec, effectiveCrateWeight_spec.
Qed.

(** C1, as stated, fails on the default: the engine does not read the
    configured crate weight.  With a crate weight of zero configured, the add
    path stamps the new entry with crate weight 0; for a crate of 12 kg the
    engine then subtracts its own 1.8 and reports 10.2, where the formula
    with the configured default gives 12. *)
Lemma configured_default_not_used :
  HarvestSettings.crateWeight (App.settings zeroTareApp) = Some (num 0)
  /\ map HarvestEntry.crateWeight (App.entries zeroTareApp) = [Some (num 0)]
  /\ map TankSummary.absoluteWeight (summaries codeCompare (App.entries zeroTareApp))
     = [dec 102 10]
  /\ specAbsoluteWeight (num 0) "Tank 1" (App.entries zeroTareApp) = num 12
  /\ dec 102 10 <> num 12.
Proof.
  split_and!.
  - reflexivity.
  - reflexivity.
  - cbn. f_equal. apply Qc_is_canon. reflexivity.
  - apply Qc_is_canon. reflexivity.
  - intros H. apply (f_equal (fun q : Qc => num_eqb q (num 12))) in H.
    vm_compute in H. discriminate H.
Qed.

(** C1 (amended). For every list of entries, the absoluteWeight of every
    summary the engine emits is the sum, over the entries of that container
    in input order, of weight - entryCrateCount * effectiveCrateWeight, with
    a zero or missing crateCount read as 1 and a zero or missing crateWeight
    read as 1.8, the constant written in the engine's loop (not the crate
    weight of the settings); every container of the input has a summary; the
    terms are not clamped, and a summary with a negative absoluteWeight
    exists. *)
Theorem absoluteWeight_unclamped_sum
    (localeCompare : string -> string -> Z) (entries : list Entry) :
  Forall (fun s =>
            TankSummary.absoluteWeight s
            = specAbsoluteWeight (dec 18 10) (TankSummary.tank s) entries)
         (summaries localeCompare entries)
  /\ (forall e, e ∈ entries ->
        exists s, s ∈ summaries localeCompare entries
                  /\ TankSummary.tank s = HarvestEntry.tank e)
  /\ (exists s, s ∈ summaries localeCompare [lightEntry]
                /\ (TankSummary.absoluteWeight s < 0)%Qc).
Proof.
  change (dec 18 10) with DEFAULT_CRATE_WEIGHT.
  unfold summaries, aggregate. rewrite accumulate_is_accumulateWith.
  split; [|split].
  - apply Forall_forall. intros s Hs. apply elem_of_js_sort in Hs.
    apply (values_fold_inv bump bump_tank) in Hs as (e0 & l & Hl & Hs).
    unfold specAbsoluteWeight. rewrite Hl. rewrite Hs at 1.
    rewrite fold_bump_absoluteWeight. simpl TankSummary.absoluteWeight.
    rewrite (map_ext _ _ entryNet_spec), num_0. ring.
  - intros e He.
    destruct (values_fold_has bump bump_tank entries e He) as (s & Hs & Ht).
    exists s. split; [by apply elem_of_js_sort|done].
  - eexists. split; [simpl; left|]. reflexivity.
Qed.

(** C4. For every entry processed, with [current] the accumulator of its
    tank (zeroed if the tank is new) and the crate count resolved (zero or
    missing read as 1): a resolved value of 2 increments patluCount only, a
    value of 1 increments singlesCount only, any other value increments
    neither; in every case entryCount grows by one and crateCount grows by
    the resolved value; the accumulators of the other tanks are not
    touched. *)
Theorem accumulate_classifies (m : JsMap.t Summary) (entry : Entry) :
  let tank := HarvestEntry.tank entry in
  let current := default (newSummary entry) (JsMap.get m tank) in
  let resolved := specCrateCount entry in
  exists s,
    JsMap.get (accumulate m entry) tank = Some s
    /\ TankSummary.entryCount s = TankSummary.entryCount current + 1
    /\ TankSummary.crateCount s = (TankSummary.crateCount current + resolved)%Qc
    /\ (resolved = num 2 ->
        TankSummary.patluCount s = TankSummary.patluCount current + 1
        /\ TankSummary.singlesCount s = TankSummary.singlesCount current)
    /\ (resolved = num 1 ->
        TankSummary.patluCount s = TankSummary.patluCount current
        /\ TankSummary.singlesCount s = TankSummary.singlesCount current + 1)
    /\ (resolved <> num 2 -> resolved <> num 1 ->
        TankSummary.patluCount s = TankSummary.patluCount current
        /\ TankSummary.singlesCount s = TankSummary.singlesCount current)
    /\ (forall k, k <> tank -> JsMap.get (accumulate m entry) k = JsMap.get m k).
Proof.
  intros tank current resolved. unfold accumulate. fold tank. fold current.
  exists (bump current entry). rewrite get_set_eq.
  unfold resolved. rewrite <- entryCrateCount_spec.
  assert (H21 : num 2 <> num 1) by (intros H; discriminate H).
  split_and!; simpl; try done.
  - intros E. apply num_eqb_eq in E. by rewrite E.
  - intros E. assert (E2 : num_eqb (entryCrateCount entry) (num 2) = false).
    { apply num_eqb_neq. congruence. }
    apply num_eqb_eq in E. by rewrite E2, E.
  - intros E2 E1. apply num_eqb_neq in E2, E1. by rewrite E2, E1.
  - intros k Hk. by apply get_set_ne.
Qed.

(** ** The worked example of the specification *)

Lemma example_summary :
  map (fun s => (TankSummary.tank s, TankSummary.entryCount s,
                 TankSummary.patluCount s, TankSummary.singlesCount s))
      (summaries codeCompare exampleEntries)
  = [("Tank 1", 2, 1, 1)]
  /\ map TankSummary.crateCount (summaries codeCompare exampleEntries) = [num 3]
  /\ map TankSummary.totalWeight (summaries codeCompare exampleEntries) = [num 15]
  /\ map TankSummary.absoluteWeight (summaries codeCompare exampleEntries) = [dec 96 10].
Proof.
  split_and!; [reflexivity|..]; simpl; f_equal; by apply Qc_is_canon.
Qed.

Lemma example_revenue :
  totalRevenue sampleParseFloat {[ "Tank 1" := "50" ]}
               (summaries codeCompare exampleEntries) = num 480.
Proof. by apply Qc_is_canon. Qed.

(** ** Grand totals and net efficiency *)

Lemma checked_div_nonzero (a b : number) :
  b <> num 0 -> checked_div a b = Some (a / b)%Qc.
Proof.
  intros H. unfold checked_div. apply num_eqb_neq in H. by rewrite H.
Qed.

(** C6, as stated, fails when the gross total is negative: the code answers
    0 although totalGross is not 0, where the formula gives 120. *)
Lemma netEfficiency_negative_gross :
  let ss := summaries codeCompare [negativeEntry] in
  totalGross ss <> num 0
  /\ netEfficiency ss = Some (num 0)
  /\ netEfficiency ss <> Some (totalAbsolute ss / totalGross ss * num 100)%Qc.
Proof.
  split_and!.
  - intros H. vm_compute in H. discriminate H.
  - reflexivity.
  - intros H. vm_compute in H. discriminate H.
Qed.

(** C6 (amended). For every entry list, the grand totals are the plain sums
    of the corresponding field over the emitted summaries, and netEfficiency
    is totalAbsolute / totalGross * 100 when totalGross is positive and 0
    otherwise (zero or negative); no division by zero is performed. *)
Theorem netEfficiency_guarded
    (localeCompare : string -> string -> Z) (entries : list Entry) :
  let ss := summaries localeCompare entries in
  totalAbsolute ss = sumQ (map TankSummary.absoluteWeight ss)
  /\ totalGross ss = sumQ (map TankSummary.totalWeight ss)
  /\ totalCrates ss = sumQ (map TankSummary.crateCount ss)
  /\ totalPatlu ss = sumZ (map TankSummary.patluCount ss)
  /\ totalSingles ss = sumZ (map TankSummary.singlesCount ss)
  /\ netEfficiency ss =
     Some (if decide (0 < totalGross ss)%Qc
           then (totalAbsolute ss / totalGross ss * num 100)%Qc
           else num 0).
Proof.
  intros ss. split_and!; try apply reduce_sum_sumQ; try apply reduce_count_sumZ.
  unfold netEfficiency. rewrite <- num_0.
  destruct (num_ltb (num 0) (totalGross ss)) eqn:E.
  - apply num_ltb_lt in E. rewrite decide_True by done.
    rewrite checked_div_nonzero; [done|].
    intros H. rewrite H in E. revert E. apply Qcle_not_lt, Qcle_refl.
  - apply num_ltb_ge in E. rewrite decide_False; [done|].
    by apply Qcle_not_lt.
Qed.

(** ** The add path *)

(** C5. For every weight input that parses to NaN, to zero or to a negative
    number, the save handler does not call onSave and leaves its own state as
    it is, and the add path leaves the application as it is: the entry list,
    the store and the list of DBService calls are unchanged (saveEntry is not
    called). *)
Theorem invalid_weight_not_saved
    (parseFloat : string -> option number) (newId now : string)
    (ui : CrateEntry.state) (app : App.t) :
  (parseFloat (CrateEntry.weight ui) = None
   \/ exists w, parseFloat (CrateEntry.weight ui) = Some w /\ (w <= 0)%Qc) ->
  handleSave parseFloat ui = (None, ui)
  /\ addPath parseFloat newId now ui app = (ui, app).
Proof.
  intros H.
  assert (Hs : handleSave parseFloat ui = (None, ui)).
  { unfold handleSave. destruct H as [->|(w & -> & Hw)]; [done|].
    rewrite <- num_0 in Hw. apply num_ltb_ge in Hw. by rewrite Hw. }
  split; [exact Hs|]. unfold addPath. by rewrite Hs.
Qed.

Lemma invalid_weight_not_saved_witness :
  (sampleParseFloat "-3" = None
   \/ exists w, sampleParseFloat "-3" = Some w /\ (w <= 0)%Qc)
  /\ handleSave sampleParseFloat (CrateEntry.mk "-3" (num 2) false)
     = (None, CrateEntry.mk "-3" (num 2) false)
  /\ addPath sampleParseFloat "id_9" "2024-01-15T12:00:00.000Z"
             (CrateEntry.mk "-3" (num 2) false) sampleApp
     = (CrateEntry.mk "-3" (num 2) false, sampleApp).
Proof.
  assert (H : sampleParseFloat "-3" = None
              \/ exists w, sampleParseFloat "-3" = Some w /\ (w <= 0)%Qc).
  { right. exists (num (-3)). split; [reflexivity|]. intros E. discriminate E. }
  split; [exact H|].
  exact (invalid_weight_not_saved sampleParseFloat "id_9" "2024-01-15T12:00:00.000Z"
           (CrateEntry.mk "-3" (num 2) false) sampleApp H).
Defined.

(** A valid weight does reach the store: the add path is not inert. *)
Lemma valid_weight_saved :
  let r := addPath sampleParseFloat "id_9" "2024-01-15T12:00:00.000Z"
                   (CrateEntry.mk "12" (num 2) false) sampleApp in
  map HarvestEntry.id (App.entries r.2) = ["id_9"]
  /\ is_Some (harvest_entries (App.db r.2) !! "id_9")
  /\ length (App.dbCalls r.2) = 1%nat.
Proof.
  split_and!; [reflexivity| |reflexivity].
  simpl. unfold store_put. simpl. rewrite lookup_insert_eq. by eexists.
Qed.

(** ** The entry store *)

Lemma keyed_store_empty : keyed_store ∅.
Proof. intros k e H. by rewrite lookup_empty in H. Qed.

Lemma keyed_store_put (entry : Entry) (s : gmap string Entry) :
  keyed_store s -> keyed_store (store_put entry s).
Proof.
  intros Hk k e. unfold store_put. rewrite lookup_insert.
  case_decide as E; [by intros [= <-]|apply Hk].
Qed.

Lemma keyed_store_delete (k0 : string) (s : gmap string Entry) :
  keyed_store s -> keyed_store (delete k0 s).
Proof.
  intros Hk k e. rewrite lookup_delete.
  case_decide; [done|apply Hk].
Qed.

Lemma set_synced_copy (e : Entry) : synced_copy e (HarvestEntry.set_synced e).
Proof. by repeat split. Qed.

Lemma mark_fold_lookup (s : gmap string Entry) (ids : list string)
    (acc : gmap string Entry) (k : string) :
  keyed_store s ->
  fold_left mark_step (map (fun id => s !! id) ids) acc !! k
  = if decide (k ∈ ids /\ is_Some (s !! k))
    then HarvestEntry.set_synced <$> s !! k
    else acc !! k.
Proof.
  intros Hk. revert acc. induction ids as [|i ids IH]; intros acc; cbn [map fold_left].
  - rewrite decide_False; [done|]. intros [H _]. by apply elem_of_nil in H.
  - rewrite IH. destruct (decide (k ∈ ids /\ is_Some (s !! k))) as [[Hin Hs]|Hn].
    + rewrite decide_True; [done|]. split; [by right|done].
    + destruct (s !! i) as [e|] eqn:Ei; cbn [mark_step].
      * unfold store_put. cbn [HarvestEntry.set_synced HarvestEntry.id].
        rewrite (Hk _ _ Ei), lookup_insert.
        case_decide as Eik.
        -- subst i. rewrite decide_True; [by rewrite Ei|].
           split; [left|by rewrite Ei].
        -- rewrite decide_False; [done|]. intros [Hin Hs].
           apply elem_of_cons in Hin as [->|Hin]; [done|]. by apply Hn.
      * rewrite decide_False; [done|]. intros [Hin Hs].
        apply elem_of_cons in Hin as [->|Hin].
        -- rewrite Ei in Hs. by destruct Hs.
        -- by apply Hn.
Qed.

Lemma mark_all_lookup (s : gmap string Entry) (ids : list string) (k : string) :
  keyed_store s ->
  mark_all ids s !! k
  = if decide (k ∈ ids) then HarvestEntry.set_synced <$> s !! k else s !! k.
Proof.
  intros Hk. unfold mark_all.
  change (fun acc r => match r with
                       | Some entry => store_put (HarvestEntry.set_synced entry) acc
                       | None => acc
                       end) with mark_step.
  rewrite mark_fold_lookup by done.
  destruct (decide (k ∈ ids)) as [Hin|Hin].
  - destruct (s !! k) as [e|] eqn:E.
    + rewrite decide_True; [done|]. split; [done|by eexists].
    + rewrite decide_False; [done|]. intros [_ [? ?]]. done.
  - rewrite decide_False; [done|]. tauto.
Qed.

(** C9. With the store reachable and the transaction completing, markSynced
    resolves for every list of ids: an id that is absent from the store stays
    absent, a present id keeps its record with only [synced] set to true, and
    a record whose id is not in the list is unchanged.  markEntriesSynced of
    db.ts is the same operation. *)
Theorem markSynced_skips_absent (ids : list string) (w : IndexedDB) :
  keyed_store (harvest_entries w) ->
  openable w = true ->
  tx_commits w = true ->
  exists w',
    DbService2.markSynced ids w = (Resolved tt, w')
    /\ Db.markEntriesSynced ids w = (Resolved tt, w')
    /\ (forall id, id ∈ ids -> harvest_entries w !! id = None ->
          harvest_entries w' !! id = None)
    /\ (forall id e, id ∈ ids -> harvest_entries w !! id = Some e ->
          exists e', harvest_entries w' !! id = Some e' /\ synced_copy e e')
    /\ (forall id, id ∉ ids -> harvest_entries w' !! id = harvest_entries w !! id).
Proof.
  intros Hk Ho Ht.
  exists (with_objects w (mark_all ids (harvest_entries w))).
  unfold DbService2.markSynced, Db.markEntriesSynced, readwrite, getDB.
  rewrite Ho, Ht. split_and!; try done; simpl.
  - intros id Hin Hn. rewrite mark_all_lookup by done.
    rewrite decide_True by done. by rewrite Hn.
  - intros id e Hin He. exists (HarvestEntry.set_synced e). split.
    + rewrite mark_all_lookup by done. rewrite decide_True by done. by rewrite He.
    + apply set_synced_copy.
  - intros id Hin. rewrite mark_all_lookup by done. by rewrite decide_False.
Qed.

Lemma sampleStore_keyed : keyed_store sampleStore.
Proof. apply keyed_store_put, keyed_store_put, keyed_store_empty. Qed.

Lemma markSynced_skips_absent_witness :
  exists w',
    DbService2.markSynced ["id_0"; "id_1"] sampleDb = (Resolved tt, w')
    /\ Db.markEntriesSynced ["id_0"; "id_1"] sampleDb = (Resolved tt, w')
    /\ (forall id, id ∈ ["id_0"; "id_1"] -> harvest_entries sampleDb !! id = None ->
          harvest_entries w' !! id = None)
    /\ (forall id e, id ∈ ["id_0"; "id_1"] -> harvest_entries sampleDb !! id = Some e ->
          exists e', harvest_entries w' !! id = Some e' /\ synced_copy e e')
    /\ (forall id, id ∉ ["id_0"; "id_1"] ->
          harvest_entries w' !! id = harvest_entries sampleDb !! id).
Proof.
  exact (markSynced_skips_absent ["id_0"; "id_1"] sampleDb
           sampleStore_keyed eq_refl eq_refl).
Defined.

(** The sample run: "id_0" is absent and skipped, "id_1" is marked, "id_3"
    is untouched. *)
Lemma markSynced_sample :
  let s' := harvest_entries (DbService2.markSynced ["id_0"; "id_1"] sampleDb).2 in
  s' !! "id_0" = None
  /\ s' !! "id_1" = Some (HarvestEntry.set_synced storedEntry)
  /\ s' !! "id_3" = Some otherEntry.
Proof. by vm_compute. Qed.

(** Every operation of db.ts rejects when the database cannot be opened, and
    leaves the store as it was. *)
Lemma db_rejects_when_unopenable
    (localeCompare : string -> string -> Z) (w : IndexedDB)
    (entry : Entry) (id : string) (ids : list string) :
  openable w = false ->
  Db.saveEntry entry w = (Rejected "Database connection failed", w)
  /\ Db.getAllEntries localeCompare w = Rejected "Database connection failed"
  /\ Db.getCount w = Rejected "Database connection failed"
  /\ Db.deleteEntry id w = (Rejected "Database connection failed", w)
  /\ Db.deleteEntries ids w = (Rejected "Database connection failed", w)
  /\ Db.getUnsyncedEntries localeCompare w = Rejected "Database connection failed"
  /\ Db.markEntriesSynced ids w = (Rejected "Database connection failed", w).
Proof.
  intros Ho.
  unfold Db.saveEntry, Db.getAllEntries, Db.getCount, Db.deleteEntry,
    Db.deleteEntries, Db.getUnsyncedEntries, Db.markEntriesSynced,
    Db.getAllEntries, readwrite, getDB.
  by rewrite Ho.
Qed.

(** ... and when the transaction or the request fires its error event. *)
Lemma db_rejects_on_error_event
    (localeCompare : string -> string -> Z) (w : IndexedDB)
    (entry : Entry) (id : string) (ids : list string) :
  openable w = true -> tx_commits w = false ->
  Db.saveEntry entry w = (Rejected "tx.error", w)
  /\ Db.getAllEntries localeCompare w = Rejected "request.error"
  /\ Db.getCount w = Rejected "request.error"
  /\ Db.deleteEntry id w = (Rejected "tx.error", w)
  /\ Db.deleteEntries ids w = (Rejected "tx.error", w)
  /\ Db.getUnsyncedEntries localeCompare w = Rejected "request.error"
  /\ Db.markEntriesSynced ids w = (Rejected "tx.error", w).
Proof.
  intros Ho Ht.
  unfold Db.saveEntry, Db.getAllEntries, Db.getCount, Db.deleteEntry,
    Db.deleteEntries, Db.getUnsyncedEntries, Db.markEntriesSynced,
    Db.getAllEntries, readwrite, getDB.
  by rewrite Ho, Ht.
Qed.

(** C10. The getAllEntries of the second DBService does not surface a failed
    open: whatever the store holds, it resolves with the empty list, where
    getAllEntries of db.ts rejects with the connection error. *)
Theorem getAllEntries_swallows_open_failure
    (localeCompare : string -> string -> Z)
    (tx : bool) (s : gmap string Entry) :
  DbService2.getAllEntries (mkIDB false tx s) = Resolved []
  /\ Db.getAllEntries localeCompare (mkIDB false tx s)
     = Rejected "Database connection failed".
Proof. split; reflexivity. Qed.

(** ** Deleting a date *)

Lemma elem_of_store_getAll (s : gmap string Entry) (e : Entry) :
  e ∈ store_getAll s <-> exists k, s !! k = Some e.
Proof.
  unfold store_getAll. rewrite list_elem_of_fmap. split.
  - intros ([k e'] & -> & Hin). apply elem_of_js_sort in Hin.
    apply elem_of_map_to_list in Hin. by exists k.
  - intros (k & Hk). exists (k, e). split; [done|].
    apply elem_of_js_sort. by apply elem_of_map_to_list.
Qed.

Lemma lookup_delete_all (ids : list string) (s : gmap string Entry) (k : string) :
  fold_left (fun acc id => delete id acc) ids s !! k
  = if decide (k ∈ ids) then None else s !! k.
Proof.
  revert s. induction ids as [|i ids IH]; intros s; cbn [fold_left].
  - rewrite decide_False; [done|]. apply not_elem_of_nil.
  - rewrite IH. destruct (decide (k ∈ ids)) as [Hin|Hin].
    + rewrite decide_True; [done|]. by right.
    + rewrite lookup_delete. case_decide as E.
      * subst i. rewrite decide_True; [done|]. left.
      * rewrite decide_False; [done|]. intros H.
        apply elem_of_cons in H as [->|H]; done.
Qed.

Lemma prefix_dateOf (timestamp : string) :
  String.prefix (dateOf timestamp) timestamp = true.
Proof.
  induction timestamp as [|c rest IH]; simpl; [done|].
  destruct (Ascii.eqb c "T"); simpl; [done|].
  by destruct (Ascii.ascii_dec c c).
Qed.

(** An entry of the date is always matched by [startsWith]. *)
Lemma startsWith_dateOf (e : Entry) (date : string) :
  dateOf (HarvestEntry.timestamp e) = date ->
  startsWith (HarvestEntry.timestamp e) date = true.
Proof. intros <-. apply prefix_dateOf. Qed.

(** Two prefixes of one string that have the same length are equal. *)
Lemma prefix_same_length (a b s : string) :
  String.prefix a s = true -> String.prefix b s = true ->
  String.length a = String.length b -> a = b.
Proof.
  revert a b. induction s as [|c s IH]; intros a b Ha Hb Hl.
  - destruct a, b; simpl in *; congruence.
  - destruct a as [|ca a], b as [|cb b]; simpl in *; try congruence.
    destruct (Ascii.ascii_dec ca c) as [->|]; [|discriminate].
    destruct (Ascii.ascii_dec cb c) as [->|]; [|discriminate].
    f_equal. apply IH; [done..|]. congruence.
Qed.

(** When the date prefix of a timestamp has the length of the key (ten
    characters for ISO instants and a YYYY-MM-DD key), [startsWith] selects
    by date. *)
Lemma startsWith_same_length (e : Entry) (date : string) :
  String.length (dateOf (HarvestEntry.timestamp e)) = String.length date ->
  startsWith (HarvestEntry.timestamp e) date = true ->
  dateOf (HarvestEntry.timestamp e) = date.
Proof.
  intros Hl Hs. apply (prefix_same_length _ _ (HarvestEntry.timestamp e)); [|done..].
  apply prefix_dateOf.
Qed.

Section GroupByDate.
Variable localeCompare : string -> string -> Z.

Lemma keys_dateStep_fold (entries : list Entry) (groups : JsMap.t (list Entry))
    (d : string) :
  d ∈ JsMap.keys (fold_left dateStep entries groups) <->
  d ∈ JsMap.keys groups
  \/ exists e, e ∈ entries /\ dateOf (HarvestEntry.timestamp e) = d.
Proof.
  revert groups. induction entries as [|e entries IH]; intros groups; cbn [fold_left].
  - split; [by left|]. intros [H|(e & H & _)]; [done|]. by apply elem_of_nil in H.
  - rewrite IH. unfold dateStep. rewrite keys_set.
    set (d0 := dateOf (HarvestEntry.timestamp e)).
    assert (Hk : d ∈ (match JsMap.get groups d0 with
                      | Some _ => JsMap.keys groups
                      | None => JsMap.keys groups ++ [d0]
                      end)
                 <-> d ∈ JsMap.keys groups \/ d = d0).
    { destruct (JsMap.get groups d0) eqn:E.
      - split; [by left|]. intros [H| ->]; [done|].
        apply get_Some_elem in E. apply list_elem_of_fmap. by exists (d0, l).
      - rewrite elem_of_app, list_elem_of_singleton. done. }
    rewrite Hk. split.
    + intros [[H| ->]|(e' & Hin & He')].
      * by left.
      * right. exists e. split; [left|done].
      * right. exists e'. split; [by right|done].
    + intros [H|(e' & Hin & He')]; [by left; left|].
      apply elem_of_cons in Hin as [->|Hin].
      * left. by right.
      * right. by exists e'.
Qed.

(** The buckets of the history are the dates of the entries. *)
Lemma groupedByDate_keys (entries : list Entry) (d : string) :
  d ∈ map fst (groupedByDate localeCompare entries) <->
  exists e, e ∈ entries /\ dateOf (HarvestEntry.timestamp e) = d.
Proof.
  unfold groupedByDate.
  assert (Hp : map fst (js_sort (fun a b : string * list Entry => localeCompare b.1 a.1)
                          (groupByDate entries))
               ≡ₚ JsMap.keys (groupByDate entries)).
  { unfold JsMap.keys. apply Permutation_map, js_sort_perm. }
  rewrite Hp. unfold groupByDate.
  change (fun groups entry =>
            let date := dateOf (HarvestEntry.timestamp entry) in
            JsMap.set groups date (default [] (JsMap.get groups date) ++ [entry]))
    with dateStep.
  rewrite keys_dateStep_fold. split; [|by right].
  intros [H|H]; [|done]. by apply elem_of_nil in H.
Qed.
End GroupByDate.

Lemma loadData_entries (localeCompare : string -> string -> Z) (app : App.t) (e : Entry) :
  openable (App.db app) = true -> tx_commits (App.db app) = true ->
  e ∈ App.entries (loadData localeCompare app) <->
  exists k, harvest_entries (App.db app) !! k = Some e.
Proof.
  intros Ho Ht. unfold loadData, Db.getAllEntries, getDB. rewrite Ho, Ht.
  cbn [App.entries]. by rewrite elem_of_js_sort, elem_of_store_getAll.
Qed.

Lemma loadData_mirrors (localeCompare : string -> string -> Z) (app : App.t) :
  keyed_store (harvest_entries (App.db app)) ->
  openable (App.db app) = true -> tx_commits (App.db app) = true ->
  mirrors_store (loadData localeCompare app).
Proof.
  intros Hk Ho Ht.
  assert (Hdb : App.db (loadData localeCompare app) = App.db app).
  { unfold loadData. by destruct (Db.getAllEntries _ _). }
  split; rewrite Hdb; [done|].
  intros e. by apply loadData_entries.
Qed.

Lemma elem_of_idsToDelete (date : string) (entries : list Entry) (k : string) :
  k ∈ idsToDelete date entries <->
  exists e, e ∈ entries /\ HarvestEntry.id e = k
            /\ startsWith (HarvestEntry.timestamp e) date = true.
Proof.
  unfold idsToDelete. rewrite list_elem_of_fmap. split.
  - intros (e & -> & He). apply list_elem_of_filter in He as [? ?]. by exists e.
  - intros (e & ? & <- & ?). exists e. split; [done|]. by apply list_elem_of_filter.
Qed.

Lemma handleDeleteHistoryDate_entries
    (localeCompare : string -> string -> Z) (date : string) (app : App.t) (e : Entry) :
  mirrors_store app ->
  openable (App.db app) = true -> tx_commits (App.db app) = true ->
  e ∈ App.entries (handleDeleteHistoryDate localeCompare date app) <->
  e ∈ App.entries app /\ startsWith (HarvestEntry.timestamp e) date = false.
Proof.
  intros [Hk Hm] Ho Ht. unfold handleDeleteHistoryDate.
  fold (idsToDelete date (App.entries app)).
  destruct (0 <? Z.of_nat (length (idsToDelete date (App.entries app)))) eqn:El.
  - unfold Db.deleteEntries, readwrite, getDB. rewrite Ho, Ht.
    rewrite loadData_entries by done. cbn [App.db with_objects harvest_entries].
    split.
    + intros (k & Hl). rewrite lookup_delete_all in Hl.
      case_decide as Hin; [done|].
      assert (He : e ∈ App.entries app) by (apply Hm; by exists k).
      split; [done|]. apply not_true_is_false. intros Hs. apply Hin.
      apply elem_of_idsToDelete. exists e. split_and!; [done| |done].
      by apply Hk.
    + intros [He Hs]. apply Hm in He as (k & Hl). exists k.
      rewrite lookup_delete_all, decide_False; [done|].
      intros Hin. apply elem_of_idsToDelete in Hin as (e' & He' & Hid & Hs').
      apply Hm in He' as (k' & Hl').
      assert (k' = k) by (by rewrite <- (Hk _ _ Hl'), Hid). subst k'.
      assert (e' = e) by congruence. subst e'. congruence.
  - split; [|tauto]. intros He. split; [done|].
    apply not_true_is_false. intros Hs.
    assert (Hin : HarvestEntry.id e ∈ idsToDelete date (App.entries app)).
    { apply elem_of_idsToDelete. by exists e. }
    destruct (idsToDelete date (App.entries app)); [by apply elem_of_nil in Hin|].
    apply Z.ltb_ge in El. cbn [length] in El. lia.
Qed.

(** Deleting a date, for any timestamps: what is removed are the entries
    whose timestamp starts with the date string. *)
Lemma delete_date_removes_prefix
    (localeCompare : string -> string -> Z) (date : string) (app : App.t) :
  mirrors_store app ->
  openable (App.db app) = true ->
  tx_commits (App.db app) = true ->
  let app' := handleDeleteHistoryDate localeCompare date app in
  (forall e, e ∈ App.entries app' <->
             e ∈ App.entries app /\ startsWith (HarvestEntry.timestamp e) date = false)
  /\ (forall e, dateOf (HarvestEntry.timestamp e) = date -> e ∉ App.entries app')
  /\ ((forall e, e ∈ App.entries app ->
                 startsWith (HarvestEntry.timestamp e) date = true ->
                 dateOf (HarvestEntry.timestamp e) = date) ->
      forall e, e ∈ App.entries app' <->
                e ∈ App.entries app /\ dateOf (HarvestEntry.timestamp e) <> date)
  /\ ((forall e, e ∈ App.entries app ->
                 String.length (dateOf (HarvestEntry.timestamp e))
                 = String.length date) ->
      forall e, e ∈ App.entries app' <->
                e ∈ App.entries app /\ dateOf (HarvestEntry.timestamp e) <> date)
  /\ date ∉ map fst (groupedByDate localeCompare (App.entries app')).
Proof.
  intros Hm Ho Ht app'.
  assert (H1 : forall e, e ∈ App.entries app' <->
             e ∈ App.entries app /\ startsWith (HarvestEntry.timestamp e) date = false).
  { intros e. by apply handleDeleteHistoryDate_entries. }
  assert (H2 : forall e, dateOf (HarvestEntry.timestamp e) = date -> e ∉ App.entries app').
  { intros e Hd Hin. apply H1 in Hin as [_ Hs].
    apply startsWith_dateOf in Hd. congruence. }
  assert (H3 : (forall e, e ∈ App.entries app ->
                 startsWith (HarvestEntry.timestamp e) date = true ->
                 dateOf (HarvestEntry.timestamp e) = date) ->
      forall e, e ∈ App.entries app' <->
                e ∈ App.entries app /\ dateOf (HarvestEntry.timestamp e) <> date).
  { intros Hiso e. rewrite H1. split; intros [He Hs]; (split; [done|]).
    + intros Hd. apply startsWith_dateOf in Hd. congruence.
    + apply not_true_is_false. intros Hp. apply Hs. by apply Hiso. }
  split_and!; [exact H1|exact H2|exact H3| |].
  - intros Hlen. apply H3. intros e He Hs.
    apply startsWith_same_length; [by apply Hlen|done].
  - intros Hin. apply groupedByDate_keys in Hin as (e & He & Hd).
    by apply (H2 e).
Qed.

(** *** ISO-8601 instants *)

Lemma matchesPattern_length (pattern s : string) :
  matchesPattern pattern s = true -> String.length s = String.length pattern.
Proof.
  revert s. induction pattern as [|p pattern IH]; intros [|c s] H; try done.
  cbn in H. apply andb_prop in H as [_ H]. cbn. f_equal. by apply IH.
Qed.

Lemma isDigit_not_T (c : ascii) : isDigit c = true -> Ascii.eqb c "T" = false.
Proof.
  intros H. destruct (Ascii.eqb_spec c "T") as [->|]; [|done].
  vm_compute in H. discriminate H.
Qed.

(** The date prefix of a string that matches [p ++ "T" ++ q], [p] without a
    ['T'], is as long as [p]. *)
Lemma dateOf_pattern (p q s : string) :
  dateOf p = p -> matchesPattern (p +:+ String "T" q) s = true ->
  String.length (dateOf s) = String.length p.
Proof.
  revert s. induction p as [|a p IH]; intros [|c s] Hp H; try done.
  - cbn in H. apply andb_prop in H as [H _]. apply Ascii.eqb_eq in H. subst c.
    reflexivity.
  - cbn in Hp. destruct (Ascii.eqb a "T") eqn:Ea; [discriminate|].
    injection Hp as Hp. cbn in H. apply andb_prop in H as [Hc H].
    assert (Hct : Ascii.eqb c "T" = false).
    { destruct (Ascii.eqb a "d"); [by apply isDigit_not_T|].
      apply Ascii.eqb_eq in Hc. by subst c. }
    cbn. rewrite Hct. cbn. f_equal. by apply IH.
Qed.

Lemma isoInstant_dateOf_length (timestamp : string) :
  isoInstant timestamp = true -> String.length (dateOf timestamp) = 10%nat.
Proof.
  intros H. exact (dateOf_pattern "dddd-dd-dd" "dd:dd:dd.dddZ" timestamp eq_refl H).
Qed.

Lemma isoDate_length (date : string) :
  isoDate date = true -> String.length date = 10%nat.
Proof. intros H. exact (matchesPattern_length _ _ H). Qed.

(** No member of [Object.prototype] has the length of a date key. *)
Lemma iso_plain_dates (entries : list Entry) :
  iso_timestamps entries -> plain_dates entries.
Proof.
  intros Hiso. eapply Forall_impl; [exact Hiso|]. intros e He Hin. cbv beta in He.
  apply isoInstant_dateOf_length in He.
  apply (list_elem_of_fmap_2 String.length) in Hin. rewrite He in Hin.
  revert Hin. apply (bool_decide_unpack _). by vm_compute.
Qed.


Lemma isoApp_mirrors : mirrors_store isoApp.
Proof. apply loadData_mirrors; [apply sampleStore_keyed|reflexivity..]. Qed.

Lemma isoApp_entries : App.entries isoApp = [otherEntry; storedEntry].
Proof. by vm_compute. Qed.


(** ** The PDF export against the engine *)

Section MapValues.
Context {V W : Type} (g : V -> W).

Lemma get_mapv (m : JsMap.t V) (k : string) :
  JsMap.get (mapv g m) k = g <$> JsMap.get m k.
Proof.
  induction m as [|[k' v] m IH]; simpl; [done|].
  by destruct (String.eqb k' k).
Qed.

Lemma set_mapv (m : JsMap.t V) (k : string) (v : V) :
  mapv g (JsMap.set m k v) = JsMap.set (mapv g m) k (g v).
Proof.
  induction m as [|[k' v'] m IH]; simpl; [done|].
  destruct (String.eqb k' k); simpl; [done|]. by rewrite IH.
Qed.

Lemma values_mapv (m : JsMap.t V) : JsMap.values (mapv g m) = map g (JsMap.values m).
Proof.
  unfold JsMap.values, mapv. rewrite !map_map. reflexivity.
Qed.
End MapValues.

Lemma core_bump (cur cur' : Summary) (e : Entry) :
  core cur = core cur' -> core (bump cur e) = core (bumpPdf cur' e).
Proof.
  unfold core. intros [= Ht Hn Hp Hc Hw]. simpl.
  fold (entryCrateCount e). by rewrite Ht, Hn, Hp, Hc, Hw.
Qed.

Lemma core_accumulate (m m' : JsMap.t Summary) (e : Entry) :
  mapv core m = mapv core m' ->
  mapv core (accumulate m e) = mapv core (accumulatePdf m' e).
Proof.
  intros H. unfold accumulate, accumulatePdf. rewrite !set_mapv, H. f_equal.
  apply core_bump.
  pose proof (get_mapv core m (HarvestEntry.tank e)) as H1.
  pose proof (get_mapv core m' (HarvestEntry.tank e)) as H2.
  rewrite H in H1. rewrite H1 in H2.
  destruct (JsMap.get m (HarvestEntry.tank e)), (JsMap.get m' (HarvestEntry.tank e));
    simpl in *; congruence.
Qed.

Lemma core_fold (entries : list Entry) (m m' : JsMap.t Summary) :
  mapv core m = mapv core m' ->
  mapv core (fold_left accumulate entries m)
  = mapv core (fold_left accumulatePdf entries m').
Proof.
  revert m m'. induction entries as [|e entries IH]; intros m m' H; simpl; [done|].
  apply IH. by apply core_accumulate.
Qed.

Lemma core_summaries (localeCompare : string -> string -> Z) (entries : list Entry) :
  map core (pdfSummaries localeCompare entries)
  = map core (summaries localeCompare entries).
Proof.
  unfold pdfSummaries, summaries, aggregate.
  set (cmp := fun a b : string * Z * Z * number * number =>
                localeCompare a.1.1.1.1 b.1.1.1.1).
  rewrite <- !(js_sort_map core (byTank localeCompare) cmp) by done.
  rewrite <- !values_mapv. f_equal. f_equal. symmetry. by apply core_fold.
Qed.

(** The number of units is the number of entries. *)
Lemma sum_entryCount_fold (entries : list Entry) (m : JsMap.t Summary) :
  sumZ (map TankSummary.entryCount (JsMap.values (fold_left accumulate entries m)))
  = sumZ (map TankSummary.entryCount (JsMap.values m)) + Z.of_nat (length entries).
Proof.
  revert m. induction entries as [|e entries IH]; intros m; cbn [fold_left length].
  - simpl. lia.
  - rewrite IH. unfold accumulate.
    pose proof (count_values_set TankSummary.entryCount m (HarvestEntry.tank e)
                  (bump (default (newSummary e) (JsMap.get m (HarvestEntry.tank e))) e)) as H.
    destruct (JsMap.get m (HarvestEntry.tank e)); simpl in H |- *; lia.
Qed.

Lemma pdf_units_gross (localeCompare : string -> string -> Z) (entries : list Entry) :
  pdfUnits (pdfSummaries localeCompare entries) = Z.of_nat (length entries)
  /\ pdfTotalGross (pdfSummaries localeCompare entries)
     = totalGross (summaries localeCompare entries).
Proof.
  pose proof (core_summaries localeCompare entries) as Hc. split.
  - unfold pdfUnits. rewrite reduce_count_sumZ.
    change (map TankSummary.entryCount (pdfSummaries localeCompare entries))
      with (map (fun s => core_entryCount (core s)) (pdfSummaries localeCompare entries)).
    rewrite <- (map_map core core_entryCount), Hc, map_map.
    change (fun x => core_entryCount (core x)) with TankSummary.entryCount.
    unfold summaries, aggregate.
    rewrite (sumZ_perm _ (map TankSummary.entryCount
                            (JsMap.values (fold_left accumulate entries [])))).
    + rewrite sum_entryCount_fold. simpl. unfold sumZ. simpl. lia.
    + apply Permutation_map, js_sort_perm.
  - unfold pdfTotalGross, totalGross. rewrite !reduce_sum_sumQ.
    change (map TankSummary.totalWeight (pdfSummaries localeCompare entries))
      with (map (fun s => core_totalWeight (core s)) (pdfSummaries localeCompare entries)).
    rewrite <- (map_map core core_totalWeight), Hc, map_map. reflexivity.
Qed.

Lemma fold_bump_shrimpCount (l : list Entry) (s : Summary) :
  TankSummary.shrimpCount (fold_left bump l s)
  = from_option HarvestEntry.count (TankSummary.shrimpCount s) (last l).
Proof.
  revert s. induction l as [|e l IH]; intros s; [done|].
  cbn [fold_left]. rewrite IH. destruct l as [|e' l]; [done|].
  change (last (e :: e' :: l)) with (last (e' :: l)).
  destruct (last (e' :: l)) eqn:E; [done|]. by apply last_None in E.
Qed.

Lemma fold_bumpPdf_absoluteWeight (l : list Entry) (s : Summary) :
  TankSummary.absoluteWeight (fold_left bumpPdf l s)
  = (TankSummary.absoluteWeight s
     + sumQ (map (fun e => max0 (specNet DEFAULT_CRATE_WEIGHT e)) l))%Qc.
Proof.
  revert s. induction l as [|e l IH]; intros s; cbn [fold_left map].
  - unfold sumQ. simpl. rewrite num_0. ring.
  - rewrite IH, sumQ_cons. cbn [bumpPdf TankSummary.absoluteWeight].
    rewrite <- entryNet_spec. unfold entryNet, entryCrateCount, effectiveCrateWeight.
    ring.
Qed.

Lemma bumpPdf_eq_bump (cur : Summary) (e : Entry) :
  one_or_two e -> covers_tare e ->
  TankSummary.shrimpCount cur = HarvestEntry.count e ->
  bumpPdf cur e = bump cur e.
Proof.
  unfold one_or_two, covers_tare. rewrite <- entryCrateCount_spec, <- entryNet_spec.
  intros H12 Hnet Hc. unfold bumpPdf, bump.
  fold (entryCrateCount e). fold (effectiveCrateWeight e). fold (entryNet e).
  rewrite <- num_0 in Hnet. rewrite (max0_nonneg _ Hnet), Hc. f_equal.
  destruct H12 as [H|H]; rewrite H; reflexivity.
Qed.

Lemma pdf_fold_eq (entries : list Entry) :
  Forall one_or_two entries -> Forall covers_tare entries ->
  one_count_per_tank entries ->
  fold_left accumulatePdf entries [] = fold_left accumulate entries [].
Proof.
  induction entries as [|e entries IH] using rev_ind; [done|].
  intros H12 Hnet Hcnt. rewrite !fold_left_app. cbn [fold_left].
  apply Forall_app in H12 as [H12 H12e]. apply Forall_app in Hnet as [Hnet Hnete].
  apply Forall_cons in H12e as [H12e _]. apply Forall_cons in Hnete as [Hnete _].
  rewrite IH; [|done..|].
  2:{ intros a b Ha Hb. apply Hcnt; apply elem_of_app; by left. }
  unfold accumulatePdf, accumulate. f_equal.
  apply bumpPdf_eq_bump; [done..|].
  change (fold_left accumulate entries []) with (fold_left (accumulateWith bump) entries []).
  rewrite (get_fold_accumulate bump).
  destruct (entriesOf (HarvestEntry.tank e) entries) as [|e0 l] eqn:El; [done|].
  cbn [from_option id]. rewrite fold_bump_shrimpCount.
  destruct (last (e0 :: l)) as [el|] eqn:Elast.
  - cbn [from_option].
    assert (Hel : el ∈ entriesOf (HarvestEntry.tank e) entries).
    { rewrite El. apply last_Some in Elast as [l' ->]. apply elem_of_app. right. left. }
    apply list_elem_of_filter in Hel as [Ht Hin].
    apply Hcnt; [apply elem_of_app; by left| |done].
    apply elem_of_app. right. left.
  - by apply last_None in Elast.
Qed.

Lemma pdfRate_priceOf (parseFloat : string -> option number)
    (prices : gmap string string) (tank : string) :
  parseFloat "" = None -> parseFloat "0" = Some (num 0) ->
  pdfRate parseFloat prices tank = priceOf parseFloat prices tank.
Proof.
  intros He H0. unfold pdfRate, priceOf.
  destruct (prices !! tank) as [s|]; simpl.
  - destruct (String.eqb s "") eqn:E; [|done].
    apply String.eqb_eq in E. subst s. by rewrite He, H0.
  - by rewrite H0.
Qed.

Lemma fold_left_pointwise {A B} (f g : A -> B -> A) (l : list B) (a : A) :
  (forall a b, f a b = g a b) -> fold_left f l a = fold_left g l a.
Proof.
  intros H. revert a. induction l as [|x l IH]; intros a; simpl; [done|].
  by rewrite H, IH.
Qed.

(** C2, as stated, fails: on an entry whose tare exceeds its weight the
    export prints a net of 0 kg where the engine has -3 kg. *)
Lemma pdf_export_differs :
  map TankSummary.absoluteWeight (summaries codeCompare [lightEntry]) = [num (-3)]
  /\ map TankSummary.absoluteWeight (pdfSummaries codeCompare [lightEntry]) = [num 0]
  /\ pdfSummaries codeCompare [lightEntry] <> summaries codeCompare [lightEntry].
Proof.
  split_and!.
  - simpl. f_equal; try by apply Qc_is_canon.
  - simpl. f_equal; try by apply Qc_is_canon.
  - intros H. apply (f_equal (map TankSummary.absoluteWeight)) in H.
    vm_compute in H. discriminate H.
Qed.

(** C2 (amended). The export computes its summaries from the entries with
    its own loop.  For every entry list and price map: tank, entryCount,
    patluCount, crateCount and totalWeight of its summaries, the gross total
    and the unit count are those of the engine; its per-tank net is the sum
    of the per-entry nets clamped at zero.  When every entry has a resolved
    crate count of 1 or 2 and a tare not above its weight, and the entries of
    a tank carry one sizing metric, the export's summaries, net total and
    revenue are the engine's, and so is the efficiency when the gross total
    is positive. *)
Theorem pdf_export_vs_engine
    (localeCompare : string -> string -> Z) (parseFloat : string -> option number)
    (prices : gmap string string) (entries : list Entry) :
  let ss := summaries localeCompare entries in
  let ps := pdfSummaries localeCompare entries in
  map core ps = map core ss
  /\ pdfTotalGross ps = totalGross ss
  /\ pdfUnits ps = Z.of_nat (length entries)
  /\ Forall (fun p =>
               TankSummary.absoluteWeight p
               = sumQ (map (fun e => max0 (specNet DEFAULT_CRATE_WEIGHT e))
                           (entriesOf (TankSummary.tank p) entries))) ps
  /\ (Forall one_or_two entries -> Forall covers_tare entries ->
      one_count_per_tank entries ->
      ps = ss
      /\ pdfTotalNet ps = totalAbsolute ss
      /\ (parseFloat "" = None -> parseFloat "0" = Some (num 0) ->
          pdfTotalRevenue parseFloat prices ps = totalRevenue parseFloat prices ss)
      /\ ((0 < totalGross ss)%Qc -> pdfEfficiency ps = netEfficiency ss)).
Proof.
  intros ss ps. split_and!.
  - apply core_summaries.
  - apply pdf_units_gross.
  - apply pdf_units_gross.
  - apply Forall_forall. intros p Hp. unfold ps, pdfSummaries in Hp.
    apply elem_of_js_sort in Hp. rewrite accumulatePdf_is_accumulateWith in Hp.
    apply (values_fold_inv bumpPdf bumpPdf_tank) in Hp as (e0 & l & Hl & Hp).
    rewrite Hl. rewrite Hp at 1. rewrite fold_bumpPdf_absoluteWeight.
    cbn [newSummary TankSummary.absoluteWeight]. rewrite num_0. ring.
  - intros H12 Hnet Hcnt.
    assert (Heq : ps = ss).
    { unfold ps, ss, pdfSummaries, summaries, aggregate. by rewrite pdf_fold_eq. }
    rewrite Heq. split_and!; [done|done| |].
    + intros He H0. unfold pdfTotalRevenue, totalRevenue.
      apply fold_left_pointwise. intros a x. by rewrite pdfRate_priceOf.
    + intros Hpos. unfold pdfEfficiency, netEfficiency, pdfTotalNet, pdfTotalGross.
      unfold totalGross in Hpos |- *. unfold totalAbsolute.
      rewrite <- num_0 in Hpos. apply num_ltb_lt in Hpos. by rewrite Hpos.
Qed.

Lemma pdf_export_vs_engine_witness :
  Forall one_or_two plainEntries
  /\ Forall covers_tare plainEntries
  /\ one_count_per_tank plainEntries
  /\ pdfSummaries codeCompare plainEntries = summaries codeCompare plainEntries
  /\ pdfTotalNet (pdfSummaries codeCompare plainEntries)
     = totalAbsolute (summaries codeCompare plainEntries).
Proof.
  assert (H12 : Forall one_or_two plainEntries).
  { apply Forall_cons_2; [|apply Forall_cons_2; [|apply Forall_nil_2]];
      unfold one_or_two; rewrite <- entryCrateCount_spec; [right|left]; reflexivity. }
  assert (Hnet : Forall covers_tare plainEntries).
  { apply Forall_cons_2; [|apply Forall_cons_2; [|apply Forall_nil_2]];
      unfold covers_tare; rewrite <- entryNet_spec; intros E; discriminate E. }
  assert (Hcnt : one_count_per_tank plainEntries).
  { intros e e' He He' Ht.
    repeat (apply elem_of_cons in He as [->|He]); [| |by apply elem_of_nil in He];
      repeat (apply elem_of_cons in He' as [->|He']);
      try (by apply elem_of_nil in He'); first [discriminate Ht|reflexivity]. }
  destruct (pdf_export_vs_engine codeCompare sampleParseFloat ∅ plainEntries)
    as (_ & _ & _ & _ & H).
  destruct (H H12 Hnet Hcnt) as (H1 & H2 & _).
  split; [exact H12|]. split; [exact Hnet|]. split; [exact Hcnt|].
  split; [exact H1|exact H2].
Defined.

(** ** Sorting by a key *)

Lemma js_sort_ext_in {A} (cmp cmp' : A -> A -> Z) (l : list A) :
  (forall a b, a ∈ l -> b ∈ l -> cmp a b = cmp' a b) ->
  js_sort cmp l = js_sort cmp' l.
Proof.
  induction l as [|x l IH]; intros H; simpl; [done|].
  rewrite <- IH by (intros a b Ha Hb; apply H; by right).
  assert (Hs : forall b, b ∈ js_sort cmp l -> cmp x b = cmp' x b).
  { intros b Hb. apply elem_of_js_sort in Hb. apply H; [left|by right]. }
  revert Hs. generalize (js_sort cmp l) as s.
  induction s as [|y s IHs]; intros Hs; simpl; [done|].
  rewrite <- (Hs y) by left. destruct (cmp x y <=? 0); [done|].
  f_equal. apply IHs. intros b Hb. apply Hs. by right.
Qed.

Section SortByKey.
Context {A : Type} (key : A -> Z).

Lemma sort_insert_ascending (x : A) (l : list A) :
  StronglySorted (key_le key) l -> StronglySorted (key_le key) (sort_insert (ascending key) x l).
Proof.
  induction 1 as [|y l Hl IH Hy]; simpl.
  - constructor; [constructor|constructor].
  - unfold ascending at 1. destruct (key x - key y <=? 0) eqn:E.
    + apply Z.leb_le in E. constructor; [by constructor|].
      constructor; [unfold key_le; lia|].
      eapply Forall_impl; [exact Hy|]. unfold key_le. intros b Hb. simpl in *. lia.
    + apply Z.leb_gt in E. constructor; [exact IH|].
      apply Forall_forall. intros b Hb.
      apply (elem_of_Permutation_proper _ _ _ (sort_insert_perm (ascending key) x l)) in Hb.
      apply elem_of_cons in Hb as [->|Hb]; [unfold key_le; lia|].
      by apply (proj1 (Forall_forall _ _) Hy).
Qed.

Lemma js_sort_ascending (l : list A) : StronglySorted (key_le key) (js_sort (ascending key) l).
Proof.
  induction l as [|x l IH]; simpl; [constructor|]. by apply sort_insert_ascending.
Qed.

Lemma sort_insert_descending (x : A) (l : list A) :
  StronglySorted (key_ge key) l -> StronglySorted (key_ge key) (sort_insert (descending key) x l).
Proof.
  induction 1 as [|y l Hl IH Hy]; simpl.
  - constructor; [constructor|constructor].
  - unfold descending at 1. destruct (key y - key x <=? 0) eqn:E.
    + apply Z.leb_le in E. constructor; [by constructor|].
      constructor; [unfold key_ge; lia|].
      eapply Forall_impl; [exact Hy|]. unfold key_ge. intros b Hb. simpl in *. lia.
    + apply Z.leb_gt in E. constructor; [exact IH|].
      apply Forall_forall. intros b Hb.
      apply (elem_of_Permutation_proper _ _ _ (sort_insert_perm (descending key) x l)) in Hb.
      apply elem_of_cons in Hb as [->|Hb]; [unfold key_ge; lia|].
      by apply (proj1 (Forall_forall _ _) Hy).
Qed.

Lemma js_sort_descending (l : list A) : StronglySorted (key_ge key) (js_sort (descending key) l).
Proof.
  induction l as [|x l IH]; simpl; [constructor|]. by apply sort_insert_descending.
Qed.

Lemma StronglySorted_snoc (R : A -> A -> Prop) (l : list A) (x : A) :
  StronglySorted R l -> Forall (fun b => R b x) l -> StronglySorted R (l ++ [x]).
Proof.
  induction 1 as [|y l Hl IH Hy]; intros Hx; simpl.
  - constructor; constructor.
  - apply Forall_cons in Hx as [Hyx Hx]. constructor; [by apply IH|].
    apply Forall_app. split; [done|]. by constructor.
Qed.

Lemma rev_descending_sorted (l : list A) :
  StronglySorted (key_ge key) l -> StronglySorted (key_le key) (reverse l).
Proof.
  induction 1 as [|y l Hl IH Hy]; [constructor|].
  rewrite reverse_cons. apply StronglySorted_snoc; [done|].
  apply Forall_forall. intros b Hb. rewrite elem_of_reverse in Hb.
  exact (proj1 (Forall_forall _ _) Hy _ Hb).
Qed.

(** With pairwise distinct keys there is one ascending arrangement. *)
Lemma ascending_unique (l1 l2 : list A) :
  StronglySorted (key_le key) l1 -> StronglySorted (key_le key) l2 ->
  l1 ≡ₚ l2 -> NoDup (map key l1) -> l1 = l2.
Proof.
  intros H1. revert l2. induction H1 as [|a l1 Hl1 IH Ha]; intros l2 H2 Hp Hnd.
  - by apply Permutation_nil_l in Hp.
  - destruct H2 as [|b l2 Hl2 Hb].
    { by apply Permutation_nil_r in Hp. }
    cbn [map] in Hnd. apply NoDup_cons in Hnd as [Hka Hnd].
    assert (Hab : a = b).
    { assert (Ha2 : a ∈ b :: l2) by (rewrite <- Hp; left).
      assert (Hb1 : b ∈ a :: l1) by (rewrite Hp; left).
      apply elem_of_cons in Ha2 as [?|Ha2]; [done|].
      apply elem_of_cons in Hb1 as [?|Hb1]; [done|].
      pose proof (proj1 (Forall_forall _ _) Hb _ Ha2) as Hle1.
      pose proof (proj1 (Forall_forall _ _) Ha _ Hb1) as Hle2.
      unfold key_le in *. exfalso. apply Hka.
      assert (key a = key b) as -> by lia.
      apply list_elem_of_fmap. by exists b. }
    subst b. f_equal. apply IH; [done| |done].
    by apply Permutation_cons_inv in Hp.
Qed.

(** The descending display, read backwards, is the ascending sort of any
    arrangement of the same elements. *)
Lemma rev_sort_descending (l1 l2 : list A) :
  l1 ≡ₚ l2 -> NoDup (map key l1) ->
  reverse (js_sort (descending key) l1) = js_sort (ascending key) l2.
Proof.
  intros Hp Hnd. apply ascending_unique.
  - apply rev_descending_sorted, js_sort_descending.
  - apply js_sort_ascending.
  - by rewrite reverse_Permutation, !js_sort_perm.
  - assert (Hq : map key (reverse (js_sort (descending key) l1)) ≡ₚ map key l1).
    { apply Permutation_map. by rewrite reverse_Permutation, js_sort_perm. }
    by rewrite Hq.
Qed.
End SortByKey.

(** ** Serial numbers *)

Section SerialFacts.
Variable getTime : string -> option Z.

Lemma byTimeDesc_key (l : list Entry) :
  valid_times getTime l ->
  js_sort (byTimeDesc getTime) l = js_sort (descending (timeKey getTime)) l.
Proof.
  intros Hv. apply js_sort_ext_in. intros a b Ha Hb.
  destruct (proj1 (Forall_forall _ _) Hv _ Ha) as [ta Ea].
  destruct (proj1 (Forall_forall _ _) Hv _ Hb) as [tb Eb].
  unfold byTimeDesc, descending, timeKey. by rewrite Ea, Eb.
Qed.

Lemma byTimeAsc_key (l : list Entry) :
  valid_times getTime l ->
  js_sort (byTimeAsc getTime) l = js_sort (ascending (timeKey getTime)) l.
Proof.
  intros Hv. apply js_sort_ext_in. intros a b Ha Hb.
  destruct (proj1 (Forall_forall _ _) Hv _ Ha) as [ta Ea].
  destruct (proj1 (Forall_forall _ _) Hv _ Hb) as [tb Eb].
  unfold byTimeAsc, ascending, timeKey. by rewrite Ea, Eb.
Qed.

Lemma NoDup_timeKey (l : list Entry) :
  valid_times getTime l -> NoDup (map (timeOf getTime) l) -> NoDup (map (timeKey getTime) l).
Proof.
  induction l as [|e l IH]; intros Hv Hnd; cbn [map]; [constructor|].
  apply Forall_cons in Hv as [[t Et] Hv]. cbn [map] in Hnd.
  apply NoDup_cons in Hnd as [Hn Hnd]. apply NoDup_cons. split; [|by apply IH].
  intros Hin. apply Hn. apply list_elem_of_fmap in Hin as (e' & Hk & He').
  apply list_elem_of_fmap. exists e'. split; [|done].
  destruct (proj1 (Forall_forall _ _) Hv _ He') as [t' Et'].
  unfold timeKey in Hk. rewrite Et, Et' in Hk. simpl in Hk. congruence.
Qed.

(** The descending display, read backwards, is the ascending list. *)
Lemma reverse_display (display group : list Entry) :
  valid_times getTime group -> NoDup (map (timeOf getTime) group) -> display ≡ₚ group ->
  reverse (js_sort (byTimeDesc getTime) display) = js_sort (byTimeAsc getTime) group.
Proof.
  intros Hv Hnd Hp.
  assert (Hv' : valid_times getTime display) by (unfold valid_times; by rewrite Hp).
  rewrite byTimeDesc_key, byTimeAsc_key by done.
  apply rev_sort_descending; [done|].
  assert (Hq : map (timeKey getTime) display ≡ₚ map (timeKey getTime) group) by (by apply Permutation_map).
  rewrite Hq. by apply NoDup_timeKey.
Qed.

Lemma elem_of_tankRows (l : list Entry) (row : Entry * Z) :
  row ∈ tankRows l <->
  exists i e, l !! i = Some e /\ row = (e, Z.of_nat (length l) - Z.of_nat i).
Proof.
  unfold tankRows, serialNumber. rewrite elem_of_lookup_imap. split.
  - intros (i & e & -> & Hl). by exists i, e.
  - intros (i & e & Hl & ->). by exists i, e.
Qed.

Lemma elem_of_ascendingSerials (group : list Entry) (row : Entry * Z) :
  row ∈ ascendingSerials getTime group <->
  exists i e, js_sort (byTimeAsc getTime) group !! i = Some e
              /\ row = (e, Z.of_nat i + 1).
Proof.
  unfold ascendingSerials. rewrite elem_of_lookup_imap. split.
  - intros (i & e & -> & Hl). by exists i, e.
  - intros (i & e & Hl & ->). by exists i, e.
Qed.

Lemma rows_of_reverse (l : list Entry) (row : Entry * Z) :
  row ∈ tankRows l <->
  exists i e, reverse l !! i = Some e /\ row = (e, Z.of_nat i + 1).
Proof.
  rewrite elem_of_tankRows. split.
  - intros (i & e & Hl & ->). pose proof (lookup_lt_Some _ _ _ Hl) as Hlt.
    exists (length l - S i)%nat, e. split.
    + rewrite reverse_lookup by lia. rewrite <- Hl. f_equal. lia.
    + f_equal. lia.
  - intros (i & e & Hl & ->). pose proof (lookup_lt_Some _ _ _ Hl) as Hlt.
    rewrite length_reverse in Hlt. rewrite reverse_lookup in Hl by done.
    exists (length l - S i)%nat, e. split; [done|]. f_equal. lia.
Qed.

(** The history counters on the entries of one tank. *)
Lemma serial_fold_frame (l : list Entry) (st : gmap string Z * gmap string Z)
    (k : string) :
  k ∉ map HarvestEntry.id l -> (fold_left serialStep l st).2 !! k = st.2 !! k.
Proof.
  revert st. induction l as [|e l IH]; intros st Hk; cbn [fold_left]; [done|].
  cbn [map] in Hk. apply not_elem_of_cons in Hk as [Hne Hk].
  rewrite IH by done. unfold serialStep. cbn [snd]. by rewrite lookup_insert_ne.
Qed.

(** The groups of the log view are the entries of each tank, in input order,
    sorted descending. *)
Lemma groupByTank_get (entries : list Entry) (k : string) :
  JsMap.get (groupByTank entries) k =
  match entriesOf k entries with
  | [] => None
  | l => Some l
  end.
Proof.
  unfold groupByTank.
  induction entries as [|e entries IH] using rev_ind; [reflexivity|].
  rewrite fold_left_app. cbn [fold_left].
  unfold entriesOf in *. rewrite filter_app.
  destruct (decide (HarvestEntry.tank e = k)) as [Hk|Hk].
  - subst k. rewrite get_set_eq, IH.
    rewrite (filter_cons_True _ e []) by done. rewrite filter_nil.
    by destruct (filter _ entries).
  - rewrite get_set_ne by done. rewrite IH.
    rewrite (filter_cons_False _ e []) by done. rewrite filter_nil.
    by rewrite app_nil_r.
Qed.

Lemma groupByTank_NoDup (entries : list Entry) :
  NoDup (JsMap.keys (groupByTank entries)).
Proof.
  unfold groupByTank.
  induction entries as [|e entries IH] using rev_ind; [apply NoDup_nil_2|].
  rewrite fold_left_app. cbn [fold_left]. by apply NoDup_keys_set.
Qed.

Lemma sortedGroupedEntries_group (entries : list Entry) (k : string) (l : list Entry) :
  (k, l) ∈ sortedGroupedEntries getTime entries ->
  l = js_sort (byTimeDesc getTime) (entriesOf k entries).
Proof.
  unfold sortedGroupedEntries. rewrite elem_of_js_sort, list_elem_of_fmap.
  intros ([k' l'] & [= -> ->] & Hin). cbn [fst snd].
  apply (elem_get _ _ _ (groupByTank_NoDup entries)) in Hin.
  rewrite groupByTank_get in Hin.
  destruct (entriesOf k' entries); [discriminate|]. by injection Hin as <-.
Qed.
End SerialFacts.


(** The history counters on the entries of a day: the serial stored for an
    entry is its place among the entries of its tank, in the order in which
    the list is processed. *)
Lemma serial_fold_lookup_day (tankName : string) (l : list Entry)
    (st : gmap string Z * gmap string Z) (i : nat) (e : Entry) :
  NoDup (map HarvestEntry.id l) ->
  entriesOf tankName l !! i = Some e ->
  (fold_left serialStep l st).2 !! HarvestEntry.id e
  = Some (default 0 (st.1 !! tankName) + Z.of_nat i + 1).
Proof.
  revert st i. induction l as [|e0 l IH]; intros st i Hnd Hl; [done|].
  cbn [map] in Hnd. apply NoDup_cons in Hnd as [Hn0 Hnd]. cbn [fold_left].
  unfold entriesOf in Hl.
  destruct (decide (HarvestEntry.tank e0 = tankName)) as [Ht|Ht].
  - rewrite filter_cons_True in Hl by done. destruct i as [|i]; cbn in Hl.
    + injection Hl as ->. rewrite serial_fold_frame by done.
      unfold serialStep. cbn [snd fst]. rewrite lookup_insert_eq, Ht. f_equal. lia.
    + rewrite (IH _ i) by done. unfold serialStep at 1. cbn [fst].
      rewrite Ht, lookup_insert_eq. cbn [default from_option id]. f_equal. lia.
  - rewrite filter_cons_False in Hl by done.
    rewrite (IH _ i) by done. unfold serialStep at 1. cbn [fst].
    by rewrite lookup_insert_ne.
Qed.

Lemma StronglySorted_filter {A} (R : A -> A -> Prop) (P : A -> Prop)
    `{forall x, Decision (P x)} (l : list A) :
  StronglySorted R l -> StronglySorted R (filter P l).
Proof.
  induction 1 as [|x l Hl IH Hx]; [constructor|].
  destruct (decide (P x)).
  - rewrite filter_cons_True by done. constructor; [done|].
    apply Forall_forall. intros y Hy. apply list_elem_of_filter in Hy as [_ Hy].
    exact (proj1 (Forall_forall _ _) Hx y Hy).
  - by rewrite filter_cons_False.
Qed.

(** In the processed list of a day, the entries of a tank stand in the
    ascending order of the tank's group. *)
Lemma day_entries_of_tank (getTime : string -> option Z) (tankName : string)
    (group day : list Entry) :
  valid_times getTime group -> NoDup (map (timeOf getTime) group) ->
  valid_times getTime day ->
  entriesOf tankName day ≡ₚ group ->
  entriesOf tankName (js_sort (byTimeAsc getTime) day)
  = js_sort (byTimeAsc getTime) group.
Proof.
  intros Hv Hnd Hvd Hp.
  rewrite !byTimeAsc_key by done.
  assert (Hq : entriesOf tankName (js_sort (ascending (timeKey getTime)) day) ≡ₚ group).
  { rewrite <- Hp. unfold entriesOf. by rewrite js_sort_perm. }
  apply (ascending_unique (timeKey getTime)).
  - apply StronglySorted_filter, js_sort_ascending.
  - apply js_sort_ascending.
  - by rewrite Hq, js_sort_perm.
  - assert (Hk : map (timeKey getTime)
                     (entriesOf tankName (js_sort (ascending (timeKey getTime)) day))
                 ≡ₚ map (timeKey getTime) group) by (by apply Permutation_map).
    rewrite Hk. by apply NoDup_timeKey.
Qed.



(** The history numbers within the selected day: a container with one
    record on each of two days has the serials 1 and 2 in the log, and the
    record of the second day is stored as number 1 in the history of that
    day. *)
Lemma history_serials_within_day :
  tankRows (js_sort (byTimeDesc sampleGetTime) twoDayGroup)
  = [(nextDayEntry, 2); (storedEntry, 1)]
  /\ entriesFrom "2024-01-16" twoDayGroup = [nextDayEntry]
  /\ serialMap sampleGetTime (entriesFrom "2024-01-16" twoDayGroup) !! "id_8" = Some 1.
Proof. split_and!; by vm_compute. Qed.

(** The sample group: the later record is shown first and is number 2. *)
Lemma log_serials_sample :
  tankRows (js_sort (byTimeDesc sampleGetTime) tankOneGroup)
  = [(laterEntry, 2); (storedEntry, 1)]
  /\ serialMap sampleGetTime tankOneGroup !! "id_5" = Some 2
  /\ serialMap sampleGetTime tankOneGroup !! "id_1" = Some 1.
Proof. split_and!; by vm_compute. Qed.

(* ===================================================================== *)
(** * Part IV. Further properties of the code                             *)
(* ===================================================================== *)

(** ** The summaries, field by field *)

Lemma sumQ_nil : sumQ [] = 0%Qc.
Proof. unfold sumQ. simpl. apply num_0. Qed.

Lemma sumQ_snoc (l : list number) (x : number) : sumQ (l ++ [x]) = (sumQ l + x)%Qc.
Proof. rewrite sumQ_app, sumQ_cons, sumQ_nil. ring. Qed.

Lemma countWhere_app (P : Entry -> Prop) `{forall e, Decision (P e)} (l1 l2 : list Entry) :
  countWhere P (l1 ++ l2) = countWhere P l1 + countWhere P l2.
Proof. unfold countWhere. rewrite filter_app, length_app. lia. Qed.

Lemma countWhere_cons (P : Entry -> Prop) `{forall e, Decision (P e)} (e : Entry)
    (l : list Entry) :
  countWhere P (e :: l) = (if decide (P e) then 1 else 0) + countWhere P l.
Proof.
  unfold countWhere. destruct (decide (P e)).
  - rewrite filter_cons_True by done. cbn [length]. lia.
  - rewrite filter_cons_False by done. lia.
Qed.

Lemma countWhere_perm (P : Entry -> Prop) `{forall e, Decision (P e)} (l1 l2 : list Entry) :
  l1 ≡ₚ l2 -> countWhere P l1 = countWhere P l2.
Proof. intros Hp. unfold countWhere. by rewrite Hp. Qed.

Lemma countWhere_bounds (P : Entry -> Prop) `{forall e, Decision (P e)} (l : list Entry) :
  0 <= countWhere P l <= Z.of_nat (length l).
Proof.
  unfold countWhere. pose proof (length_filter P l). lia.
Qed.

Lemma fold_bump_entryCount (l : list Entry) (s : Summary) :
  TankSummary.entryCount (fold_left bump l s)
  = TankSummary.entryCount s + Z.of_nat (length l).
Proof.
  revert s. induction l as [|e l IH]; intros s; cbn [fold_left length]; [lia|].
  rewrite IH. cbn [bump TankSummary.entryCount]. lia.
Qed.

Lemma bump_patluCount (s : Summary) (e : Entry) :
  TankSummary.patluCount (bump s e)
  = TankSummary.patluCount s + (if decide (specCrateCount e = num 2) then 1 else 0).
Proof.
  cbn [bump TankSummary.patluCount]. rewrite entryCrateCount_spec.
  destruct (decide (specCrateCount e = num 2)) as [E|E].
  - apply num_eqb_eq in E. by rewrite E.
  - apply num_eqb_neq in E. rewrite E. lia.
Qed.

Lemma bump_singlesCount (s : Summary) (e : Entry) :
  TankSummary.singlesCount (bump s e)
  = TankSummary.singlesCount s + (if decide (specCrateCount e = num 1) then 1 else 0).
Proof.
  cbn [bump TankSummary.singlesCount]. rewrite entryCrateCount_spec.
  destruct (decide (specCrateCount e = num 1)) as [E|E].
  - rewrite E. by replace (num_eqb (num 1) (num 2)) with false by reflexivity.
  - apply num_eqb_neq in E. rewrite E.
    destruct (num_eqb (specCrateCount e) (num 2)); lia.
Qed.

Lemma fold_bump_patluCount (l : list Entry) (s : Summary) :
  TankSummary.patluCount (fold_left bump l s)
  = TankSummary.patluCount s + countWhere (fun e => specCrateCount e = num 2) l.
Proof.
  revert s. induction l as [|e l IH]; intros s; cbn [fold_left].
  - unfold countWhere. simpl. lia.
  - rewrite IH, bump_patluCount, countWhere_cons. lia.
Qed.

Lemma fold_bump_singlesCount (l : list Entry) (s : Summary) :
  TankSummary.singlesCount (fold_left bump l s)
  = TankSummary.singlesCount s + countWhere (fun e => specCrateCount e = num 1) l.
Proof.
  revert s. induction l as [|e l IH]; intros s; cbn [fold_left].
  - unfold countWhere. simpl. lia.
  - rewrite IH, bump_singlesCount, countWhere_cons. lia.
Qed.

Lemma fold_bump_crateCount (l : list Entry) (s : Summary) :
  TankSummary.crateCount (fold_left bump l s)
  = (TankSummary.crateCount s + sumQ (map specCrateCount l))%Qc.
Proof.
  revert s. induction l as [|e l IH]; intros s; cbn [fold_left map].
  - rewrite sumQ_nil. ring.
  - rewrite IH, sumQ_cons. cbn [bump TankSummary.crateCount].
    rewrite entryCrateCount_spec. ring.
Qed.

Lemma fold_bump_tank (l : list Entry) (s : Summary) :
  TankSummary.tank (fold_left bump l s) = TankSummary.tank s.
Proof. revert s. induction l as [|e l IH]; intros s; simpl; [done|]. by rewrite IH. Qed.

(** The fold that builds the accumulator of a tank, against the figures. *)
Lemma fold_bump_figures (e0 : Entry) (l : list Entry) :
  figures_of (e0 :: l) (fold_left bump (e0 :: l) (newSummary e0)).
Proof.
  unfold figures_of.
  rewrite fold_bump_entryCount, fold_bump_patluCount, fold_bump_singlesCount,
    fold_bump_crateCount, fold_bump_totalWeight, fold_bump_absoluteWeight,
    fold_bump_shrimpCount.
  cbn [newSummary TankSummary.entryCount TankSummary.patluCount
       TankSummary.singlesCount TankSummary.crateCount TankSummary.totalWeight
       TankSummary.absoluteWeight TankSummary.shrimpCount].
  rewrite (map_ext _ _ entryNet_spec), num_0.
  split_and!; try lia; try ring.
  destruct (last (e0 :: l)) eqn:E; [done|]. by apply last_None in E.
Qed.

Lemma summaries_inv (localeCompare : string -> string -> Z) (entries : list Entry)
    (s : Summary) :
  s ∈ summaries localeCompare entries <->
  exists e0 l, entriesOf (TankSummary.tank s) entries = e0 :: l
               /\ s = fold_left bump (e0 :: l) (newSummary e0).
Proof.
  unfold summaries, aggregate. rewrite accumulate_is_accumulateWith, elem_of_js_sort.
  split; [apply (values_fold_inv bump bump_tank)|].
  intros (e0 & l & Hl & Hs). apply (elem_values_fold bump bump_tank).
  rewrite get_fold_accumulate, Hl. by rewrite Hs.
Qed.

Lemma figures_of_summary (localeCompare : string -> string -> Z)
    (entries : list Entry) (s : Summary) :
  s ∈ summaries localeCompare entries ->
  figures_of (entriesOf (TankSummary.tank s) entries) s.
Proof.
  intros Hs. apply summaries_inv in Hs as (e0 & l & Hl & Hs).
  rewrite Hl, Hs. apply fold_bump_figures.
Qed.

(** X1. Every summary carries the figures of the entries of its tank, taken
    in input order: the number of entries, the number of entries whose
    resolved crate count is 2 and is 1, the sum of the resolved crate
    counts, the gross sum, the unclamped net sum, and the sizing metric of
    the tank's last entry. *)
Theorem summary_figures
    (localeCompare : string -> string -> Z) (entries : list Entry) :
  Forall (fun s => figures_of (entriesOf (TankSummary.tank s) entries) s)
         (summaries localeCompare entries).
Proof.
  apply Forall_forall. intros s Hs.
  apply summaries_inv in Hs as (e0 & l & Hl & Hs).
  rewrite Hl, Hs. apply fold_bump_figures.
Qed.

(** ** Grand totals against the entries *)

Lemma sumZ_field_fold (f : Summary -> Z) (d : Entry -> Z)
    (entries : list Entry) (m : JsMap.t Summary) :
  (forall cur e, f (bump cur e) = f cur + d e) ->
  (forall e, f (newSummary e) = 0) ->
  sumZ (map f (JsMap.values (fold_left accumulate entries m)))
  = sumZ (map f (JsMap.values m)) + sumZ (map d entries).
Proof.
  intros Hb H0. revert m. induction entries as [|e entries IH]; intros m; cbn [fold_left map].
  - unfold sumZ at 3. simpl. lia.
  - rewrite IH, sumZ_cons. unfold accumulate.
    pose proof (count_values_set f m (HarvestEntry.tank e)
                  (bump (default (newSummary e) (JsMap.get m (HarvestEntry.tank e))) e)) as H.
    rewrite Hb in H.
    destruct (JsMap.get m (HarvestEntry.tank e)); cbn [from_option id] in H |- *;
      rewrite ?H0 in H; lia.
Qed.

Lemma sumZ_summaries (localeCompare : string -> string -> Z) (f : Summary -> Z)
    (d : Entry -> Z) (entries : list Entry) :
  (forall cur e, f (bump cur e) = f cur + d e) ->
  (forall e, f (newSummary e) = 0) ->
  sumZ (map f (summaries localeCompare entries)) = sumZ (map d entries).
Proof.
  intros Hb H0. unfold summaries, aggregate.
  rewrite (sumZ_perm _ (map f (JsMap.values (fold_left accumulate entries [])))).
  - rewrite (sumZ_field_fold f d) by done. cbn [JsMap.values map].
    unfold sumZ at 1. simpl. lia.
  - apply Permutation_map, js_sort_perm.
Qed.

Lemma sumZ_indicator (P : Entry -> Prop) `{forall e, Decision (P e)} (l : list Entry) :
  sumZ (map (fun e => if decide (P e) then 1 else 0) l) = countWhere P l.
Proof.
  induction l as [|e l IH]; cbn [map].
  - unfold countWhere, sumZ. simpl. lia.
  - rewrite sumZ_cons, IH, countWhere_cons. lia.
Qed.

Lemma patlu_singles_disjoint (l : list Entry) :
  countWhere (fun e => specCrateCount e = num 2) l
  + countWhere (fun e => specCrateCount e = num 1) l <= Z.of_nat (length l).
Proof.
  induction l as [|e l IH].
  - unfold countWhere. simpl. lia.
  - rewrite !countWhere_cons. cbn [length].
    destruct (decide (specCrateCount e = num 2)) as [E2|E2];
      destruct (decide (specCrateCount e = num 1)) as [E1|E1]; try lia.
    rewrite E2 in E1. discriminate E1.
Qed.

(** X2. The grand totals of the abstract screen against the log: the net
    and crate totals are the sums, over the tanks in the order of the
    summaries, of each tank's sum over its entries in input order (net
    weight - crates * crate weight with the defaults 1 and 1.8, not clamped);
    the tare total is the gross total less the net total; the patlu and
    singles totals count the entries of the log whose resolved crate count is
    2 and is 1, and together never exceed the number of entries. *)
Theorem grand_totals_reconcile
    (localeCompare : string -> string -> Z) (entries : list Entry) :
  let ss := summaries localeCompare entries in
  totalAbsolute ss
  = sumQ (map (fun s => sumQ (map (specNet (dec 18 10))
                                  (entriesOf (TankSummary.tank s) entries))) ss)
  /\ totalCrates ss
     = sumQ (map (fun s => sumQ (map specCrateCount
                                     (entriesOf (TankSummary.tank s) entries))) ss)
  /\ totalTare ss = (totalGross ss - totalAbsolute ss)%Qc
  /\ totalPatlu ss = countWhere (fun e => specCrateCount e = num 2) entries
  /\ totalSingles ss = countWhere (fun e => specCrateCount e = num 1) entries
  /\ totalPatlu ss + totalSingles ss <= Z.of_nat (length entries).
Proof.
  cbv zeta. change (dec 18 10) with DEFAULT_CRATE_WEIGHT.
  assert (Hp : totalPatlu (summaries localeCompare entries) = countWhere (fun e => specCrateCount e = num 2) entries).
  { unfold totalPatlu. rewrite reduce_count_sumZ.
    rewrite (sumZ_summaries _ _ (fun e => if decide (specCrateCount e = num 2) then 1 else 0));
      [apply sumZ_indicator|apply bump_patluCount|done]. }
  assert (Hs : totalSingles (summaries localeCompare entries) = countWhere (fun e => specCrateCount e = num 1) entries).
  { unfold totalSingles. rewrite reduce_count_sumZ.
    rewrite (sumZ_summaries _ _ (fun e => if decide (specCrateCount e = num 1) then 1 else 0));
      [apply sumZ_indicator|apply bump_singlesCount|done]. }
  split; [|split; [|split; [done|split; [exact Hp|split; [exact Hs|]]]]].
  - unfold totalAbsolute. rewrite reduce_sum_sumQ. f_equal.
    apply map_ext_in. intros s Hin. apply list_elem_of_In in Hin.
    by destruct (figures_of_summary localeCompare entries s Hin)
      as (_ & _ & _ & _ & _ & H & _).
  - unfold totalCrates. rewrite reduce_sum_sumQ. f_equal.
    apply map_ext_in. intros s Hin. apply list_elem_of_In in Hin.
    by destruct (figures_of_summary localeCompare entries s Hin)
      as (_ & _ & _ & H & _).
  - rewrite Hp, Hs. apply patlu_singles_disjoint.
Qed.

(** ** One summary per tank *)

Lemma tanks_of_keyed (m : JsMap.t Summary) :
  keyed m -> map TankSummary.tank (JsMap.values m) = JsMap.keys m.
Proof.
  intros [_ Hk]. unfold JsMap.values, JsMap.keys. rewrite map_map.
  induction Hk as [|[k v] m Hkv _ IH]; [done|]. cbn [map fst snd]. simpl in Hkv.
  by rewrite Hkv, IH.
Qed.

(** X3. The summaries hold each tank of the log exactly once, and no other
    tank; their entry counts add up to the number of entries. *)
Theorem summaries_tanks
    (localeCompare : string -> string -> Z) (entries : list Entry) :
  let ss := summaries localeCompare entries in
  NoDup (map TankSummary.tank ss)
  /\ (forall k, k ∈ map TankSummary.tank ss <->
                exists e, e ∈ entries /\ HarvestEntry.tank e = k)
  /\ reduce_count TankSummary.entryCount ss = Z.of_nat (length entries).
Proof.
  cbv zeta.
  assert (Hp : map TankSummary.tank (summaries localeCompare entries)
               ≡ₚ JsMap.keys (aggregate entries)).
  { unfold summaries. rewrite <- tanks_of_keyed.
    - apply Permutation_map, js_sort_perm.
    - unfold aggregate. rewrite accumulate_is_accumulateWith.
      apply (keyed_fold_accumulate bump bump_tank). }
  split_and!.
  - rewrite Hp. unfold aggregate. rewrite accumulate_is_accumulateWith.
    apply (keyed_fold_accumulate bump bump_tank).
  - intros k. rewrite list_elem_of_fmap. split.
    + intros (s & -> & Hs). apply summaries_inv in Hs as (e0 & l & Hl & _).
      exists e0.
      assert (He : e0 ∈ entriesOf (TankSummary.tank s) entries) by (rewrite Hl; left).
      apply list_elem_of_filter in He as [? ?]. done.
    + intros (e & He & <-).
      destruct (values_fold_has bump bump_tank entries e He) as (s & Hs & Ht).
      exists s. split; [done|]. unfold summaries, aggregate.
      rewrite accumulate_is_accumulateWith. by apply elem_of_js_sort.
  - rewrite reduce_count_sumZ.
    rewrite (sumZ_summaries _ _ (fun _ => 1)); [|done|done].
    clear Hp. induction entries as [|e l IH]; [done|].
    cbn [map length]. rewrite sumZ_cons. lia.
Qed.

(** ** Gross reconciliation *)

(** C3, as stated, fails on doubles: the engine adds the weights tank by
    tank and then the tank sums, the claim adds them in input order.  For
    crates of 0.1 (Tank 1), 0.1 (Tank 2) and 1.1 (Tank 1) the summaries add
    up to 1.3000000000000003 and the entries to 1.3. *)
Lemma gross_differs_on_doubles :
  map Doubles.totalWeight (Doubles.summaries codeCompare roundingEntries)
  = [1.2000000000000002%float; 0.1%float]
  /\ Doubles.totalGross (Doubles.summaries codeCompare roundingEntries)
     = 1.3000000000000003%float
  /\ sumWeights roundingEntries = 1.3%float
  /\ Doubles.totalGross (Doubles.summaries codeCompare roundingEntries)
     <> sumWeights roundingEntries.
Proof.
  split_and!; [by vm_compute..|].
  intros H. apply (f_equal (fun x => PrimFloat.eqb x 1.3%float)) in H.
  vm_compute in H. discriminate H.
Qed.

Lemma filter_all {A} (P : A -> Prop) `{forall x, Decision (P x)} (l : list A) :
  Forall P l -> filter P l = l.
Proof.
  induction 1 as [|x l Hx _ IH]; [done|].
  rewrite filter_cons_True by done. by rewrite IH.
Qed.

Lemma filter_none {A} (P : A -> Prop) `{forall x, Decision (P x)} (l : list A) :
  Forall (fun x => ~ P x) l -> filter P l = [].
Proof.
  induction 1 as [|x l Hx _ IH]; [done|].
  by rewrite filter_cons_False.
Qed.

Lemma summaries_NoDup (localeCompare : string -> string -> Z) (entries : list Entry) :
  NoDup (map TankSummary.tank (summaries localeCompare entries)).
Proof.
  assert (Hk : keyed (aggregate entries)).
  { unfold aggregate. rewrite accumulate_is_accumulateWith.
    apply (keyed_fold_accumulate bump bump_tank). }
  assert (Hp : map TankSummary.tank (summaries localeCompare entries)
               ≡ₚ JsMap.keys (aggregate entries)).
  { unfold summaries. rewrite <- tanks_of_keyed by done.
    apply Permutation_map, js_sort_perm. }
  rewrite Hp. apply Hk.
Qed.

Lemma summaries_cover (localeCompare : string -> string -> Z) (entries : list Entry)
    (e : Entry) :
  e ∈ entries ->
  exists s, s ∈ summaries localeCompare entries
            /\ TankSummary.tank s = HarvestEntry.tank e.
Proof.
  intros He.
  destruct (values_fold_has bump bump_tank entries e He) as (s & Hs & Ht).
  exists s. split; [|done]. unfold summaries, aggregate.
  rewrite accumulate_is_accumulateWith. by apply elem_of_js_sort.
Qed.

Lemma sumQ_single (x : number) : sumQ [x] = x.
Proof. rewrite sumQ_cons, sumQ_nil. ring. Qed.

(** C3 (amended). Each entry contributes its gross weight to exactly one
    container accumulator: the summaries carry pairwise distinct containers,
    every entry's container has a summary, and the totalWeight of a summary
    is the sum of the weights of that container's entries in input order.
    The sum of totalWeight over the emitted summaries (the engine's
    totalGross) is therefore the sum, over the containers in the order of the
    summaries, of these per-container sums; when all entries belong to one
    container it is the sum of weight over the input entries. *)
Theorem gross_reconciliation
    (localeCompare : string -> string -> Z) (entries : list Entry) :
  let ss := summaries localeCompare entries in
  NoDup (map TankSummary.tank ss)
  /\ Forall (fun e => exists s, s ∈ ss /\ TankSummary.tank s = HarvestEntry.tank e)
            entries
  /\ Forall (fun s =>
       TankSummary.totalWeight s
       = sumQ (map HarvestEntry.weight (entriesOf (TankSummary.tank s) entries))) ss
  /\ totalGross ss
     = sumQ (map (fun s =>
                    sumQ (map HarvestEntry.weight
                              (entriesOf (TankSummary.tank s) entries))) ss)
  /\ totalGross ss = sumQ (map TankSummary.totalWeight ss)
  /\ (Forall (fun e => forall e', e' ∈ entries ->
                                  HarvestEntry.tank e' = HarvestEntry.tank e) entries ->
      totalGross ss = sumQ (map HarvestEntry.weight entries)).
Proof.
  cbv zeta.
  assert (Hfig : forall s, s ∈ summaries localeCompare entries ->
             TankSummary.totalWeight s
             = sumQ (map HarvestEntry.weight (entriesOf (TankSummary.tank s) entries))).
  { intros s Hs. apply summaries_inv in Hs as (e0 & l & Hl & Hs).
    rewrite Hl. rewrite Hs at 1. rewrite fold_bump_totalWeight.
    cbn [newSummary TankSummary.totalWeight]. rewrite num_0. ring. }
  assert (Hg : totalGross (summaries localeCompare entries)
               = sumQ (map TankSummary.totalWeight (summaries localeCompare entries))).
  { unfold totalGross. apply reduce_sum_sumQ. }
  split; [apply summaries_NoDup|].
  split; [apply Forall_forall; intros e He; by apply summaries_cover|].
  split; [by apply Forall_forall|].
  split; [|split; [exact Hg|]].
  - rewrite Hg. f_equal. apply map_ext_in. intros s Hs.
    by apply Hfig, list_elem_of_In.
  - intros Hone. rewrite Hg.
    destruct entries as [|e0 es] eqn:Ee; [done|]. rewrite <- Ee in *.
    assert (He0 : e0 ∈ entries) by (rewrite Ee; left).
    assert (Hall : forall e, e ∈ entries -> HarvestEntry.tank e = HarvestEntry.tank e0).
    { intros e He. by apply (proj1 (Forall_forall _ _) Hone e0). }
    assert (Hof : entriesOf (HarvestEntry.tank e0) entries = entries).
    { unfold entriesOf. apply filter_all, Forall_forall. exact Hall. }
    pose proof (summaries_NoDup localeCompare entries) as Hnd.
    destruct (summaries_cover localeCompare entries e0 He0) as (s0 & Hs0 & Ht0).
    assert (Htanks : forall s, s ∈ summaries localeCompare entries ->
                               TankSummary.tank s = HarvestEntry.tank e0).
    { intros s Hs. apply summaries_inv in Hs as (e1 & l & Hl & _).
      assert (He1 : e1 ∈ entriesOf (TankSummary.tank s) entries) by (rewrite Hl; left).
      apply list_elem_of_filter in He1 as [Ht He1]. rewrite <- Ht. by apply Hall. }
    destruct (summaries localeCompare entries) as [|s1 [|s2 ss]] eqn:Es.
    + by apply elem_of_nil in Hs0.
    + cbn [map]. rewrite sumQ_single, Hfig by left.
      rewrite (Htanks s1) by left. by rewrite Hof.
    + exfalso. cbn [map] in Hnd. apply NoDup_cons in Hnd as [Hn _].
      apply Hn. rewrite (Htanks s1) by left.
      rewrite <- (Htanks s2) by (right; left). left.
Qed.


Lemma figures_of_perm (l l' : list Entry) (s s' : Summary) :
  l ≡ₚ l' -> figures_of l s -> figures_of l' s' ->
  TankSummary.entryCount s' = TankSummary.entryCount s
  /\ TankSummary.patluCount s' = TankSummary.patluCount s
  /\ TankSummary.singlesCount s' = TankSummary.singlesCount s.
Proof.
  intros Hp (H1 & H2 & H3 & _) (H1' & H2' & H3' & _).
  rewrite H1, H2, H3, H1', H2', H3'.
  split_and!.
  - by rewrite Hp.
  - by apply countWhere_perm.
  - by apply countWhere_perm.
Qed.

Lemma summary_of_tank (localeCompare : string -> string -> Z) (entries : list Entry)
    (k : string) (e0 : Entry) (l : list Entry) :
  entriesOf k entries = e0 :: l ->
  fold_left bump (e0 :: l) (newSummary e0) ∈ summaries localeCompare entries
  /\ TankSummary.tank (fold_left bump (e0 :: l) (newSummary e0)) = k.
Proof.
  intros Hl.
  assert (Ht : TankSummary.tank (fold_left bump (e0 :: l) (newSummary e0)) = k).
  { rewrite fold_bump_tank. cbn [newSummary TankSummary.tank].
    assert (He : e0 ∈ entriesOf k entries) by (rewrite Hl; left).
    by apply list_elem_of_filter in He as [? _]. }
  split; [|done]. apply summaries_inv. exists e0, l. by rewrite Ht.
Qed.

(** X4. The counts of the summaries do not depend on the order of the log:
    for a rearranged log (and whatever the comparison used to sort the
    output) every summary has a counterpart for the same tank with the same
    entry, patlu and singles counts. *)
Theorem summaries_order_independent
    (localeCompare localeCompare' : string -> string -> Z)
    (entries entries' : list Entry) :
  entries ≡ₚ entries' ->
  Forall (fun s => exists s', s' ∈ summaries localeCompare' entries'
                              /\ same_counts s s')
         (summaries localeCompare entries).
Proof.
  intros Hp. apply Forall_forall. intros s Hs.
  pose proof (figures_of_summary localeCompare entries s Hs) as Hf.
  apply summaries_inv in Hs as (e0 & l & Hl & Hs).
  assert (Hq : entriesOf (TankSummary.tank s) entries
               ≡ₚ entriesOf (TankSummary.tank s) entries').
  { unfold entriesOf. by rewrite Hp. }
  destruct (entriesOf (TankSummary.tank s) entries') as [|e0' l'] eqn:Hl'.
  { rewrite Hl in Hq. by apply Permutation_nil_r in Hq. }
  destruct (summary_of_tank localeCompare' entries' _ _ _ Hl') as [Hin Ht].
  exists (fold_left bump (e0' :: l') (newSummary e0')). split; [done|].
  unfold same_counts. split; [done|].
  apply (figures_of_perm (entriesOf (TankSummary.tank s) entries) (e0' :: l'));
    [done|done|apply fold_bump_figures].
Qed.

Lemma summaries_order_independent_witness :
  [storedEntry; laterEntry; otherEntry] ≡ₚ [otherEntry; laterEntry; storedEntry]
  /\ Forall (fun s => exists s',
                s' ∈ summaries codeCompare [otherEntry; laterEntry; storedEntry]
                /\ same_counts s s')
            (summaries codeCompare [storedEntry; laterEntry; otherEntry]).
Proof.
  assert (Hp : [storedEntry; laterEntry; otherEntry]
               ≡ₚ [otherEntry; laterEntry; storedEntry]).
  { rewrite (Permutation_swap laterEntry storedEntry [otherEntry]).
    rewrite (perm_skip laterEntry (Permutation_swap otherEntry storedEntry [])).
    apply Permutation_swap. }
  split; [exact Hp|].
  exact (summaries_order_independent codeCompare codeCompare
           [storedEntry; laterEntry; otherEntry] [otherEntry; laterEntry; storedEntry] Hp).
Defined.

(** X5. Aggregation continues over concatenation (two date ranges, two
    pulls): for a tank summarised in both parts, the summary of the whole is
    the summary of the first part carried on through the second part's
    entries of that tank, in order; its entry, patlu and singles counts are
    the sums of the two parts' counts and its sizing metric is that of the
    second part.  A tank that occurs in one part only keeps that part's
    summary. *)
Theorem summaries_concat
    (localeCompare : string -> string -> Z) (entries1 entries2 : list Entry) :
  let whole := summaries localeCompare (entries1 ++ entries2) in
  Forall (fun s1 =>
    Forall (fun s2 =>
      TankSummary.tank s1 = TankSummary.tank s2 ->
      exists s, s ∈ whole
        /\ s = fold_left bump (entriesOf (TankSummary.tank s2) entries2) s1
        /\ TankSummary.tank s = TankSummary.tank s1
        /\ TankSummary.entryCount s
           = TankSummary.entryCount s1 + TankSummary.entryCount s2
        /\ TankSummary.patluCount s
           = TankSummary.patluCount s1 + TankSummary.patluCount s2
        /\ TankSummary.singlesCount s
           = TankSummary.singlesCount s1 + TankSummary.singlesCount s2
        /\ TankSummary.shrimpCount s = TankSummary.shrimpCount s2)
      (summaries localeCompare entries2))
    (summaries localeCompare entries1)
  /\ Forall (fun s1 =>
       entriesOf (TankSummary.tank s1) entries2 = [] -> s1 ∈ whole)
     (summaries localeCompare entries1)
  /\ Forall (fun s2 =>
       entriesOf (TankSummary.tank s2) entries1 = [] -> s2 ∈ whole)
     (summaries localeCompare entries2).
Proof.
  cbv zeta. split; [|split].
  - apply Forall_forall. intros s1 Hs1. apply Forall_forall. intros s2 Hs2 Ht.
    pose proof (figures_of_summary localeCompare entries1 s1 Hs1) as A.
    pose proof (figures_of_summary localeCompare entries2 s2 Hs2) as B.
    apply summaries_inv in Hs1 as (e1 & l1 & Hl1 & Hs1).
    apply summaries_inv in Hs2 as (e2 & l2 & Hl2 & _).
    rewrite Hl1 in A. rewrite Hl2 in B.
    destruct A as (A1 & A2 & A3 & _).
    destruct B as (B1 & B2 & B3 & _ & _ & _ & B7).
    assert (Hl : entriesOf (TankSummary.tank s1) (entries1 ++ entries2)
                 = e1 :: (l1 ++ e2 :: l2)).
    { unfold entriesOf in *. by rewrite filter_app, Hl1, Ht, Hl2. }
    destruct (summary_of_tank localeCompare _ _ _ _ Hl) as [Hin Htk].
    pose proof (fold_bump_figures e1 (l1 ++ e2 :: l2)) as (C1 & C2 & C3 & _ & _ & _ & C7).
    eexists. split; [exact Hin|]. split.
    { rewrite Hl2. rewrite Hs1 at 1.
      change (e1 :: l1 ++ e2 :: l2) with ((e1 :: l1) ++ (e2 :: l2)).
      by rewrite fold_left_app. }
    split; [exact Htk|].
    rewrite C1, C2, C3, A1, A2, A3, B1, B2, B3.
    change (e1 :: l1 ++ e2 :: l2) with ((e1 :: l1) ++ (e2 :: l2)) in *.
    rewrite !countWhere_app, length_app.
    split_and!; try lia.
    rewrite last_app_cons in C7. rewrite <- B7 in C7. by injection C7.
  - apply Forall_forall. intros s1 Hs1 Hnil.
    apply summaries_inv in Hs1 as (e1 & l1 & Hl1 & Hs1).
    apply summaries_inv. exists e1, l1. split; [|done].
    unfold entriesOf in *. by rewrite filter_app, Hl1, Hnil, app_nil_r.
  - apply Forall_forall. intros s2 Hs2 Hnil.
    apply summaries_inv in Hs2 as (e2 & l2 & Hl2 & Hs2).
    apply summaries_inv. exists e2, l2. split; [|done].
    unfold entriesOf in *. by rewrite filter_app, Hl2, Hnil.
Qed.

(** ** The ticker of the entry screen against the engine *)

Lemma max0_split (x : number) : max0 x = (x + max0 (- x))%Qc.
Proof.
  assert (Hz : (- 0)%Qc = 0%Qc) by ring.
  unfold max0. rewrite num_0. destruct (num_ltb x 0%Qc) eqn:E.
  - apply num_ltb_lt, Qclt_le_weak, Qcopp_le_compat in E. rewrite Hz in E.
    apply num_ltb_ge in E. rewrite E. ring.
  - apply num_ltb_ge in E.
    destruct (num_ltb (- x) 0%Qc) eqn:E'; [ring|].
    apply num_ltb_ge, Qcopp_le_compat in E'. rewrite Hz, Qcopp_involutive in E'.
    assert (x = 0%Qc) as -> by (by apply Qcle_antisym). ring.
Qed.

Lemma max0_nonneg_result (x : number) : (0 <= max0 x)%Qc.
Proof.
  unfold max0. rewrite num_0. destruct (num_ltb x 0%Qc) eqn:E.
  - apply Qcle_refl.
  - by apply num_ltb_ge in E.
Qed.

Lemma sumQ_nonneg (l : list number) :
  Forall (fun x => (0 <= x)%Qc) l -> (0 <= sumQ l)%Qc.
Proof.
  induction 1 as [|x l Hx _ IH].
  - rewrite sumQ_nil. apply Qcle_refl.
  - rewrite sumQ_cons. by apply Qcplus_nonneg_nonneg.
Qed.

Lemma clampedNet_spec (e : Entry) :
  clampedNet e = (specNet DEFAULT_CRATE_WEIGHT e + overshoot e)%Qc.
Proof.
  unfold clampedNet, overshoot, specTare. cbv zeta.
  fold (entryCrateCount e). fold (effectiveCrateWeight e).
  rewrite entryCrateCount_spec, effectiveCrateWeight_spec.
  fold (specNet DEFAULT_CRATE_WEIGHT e). rewrite max0_split. f_equal. f_equal.
  unfold specNet. ring.
Qed.

Lemma netTotal_sum (entries : list Entry) (k : string) :
  TankStats.netTotal (tankStats entries k) = sumQ (map clampedNet (entriesOf k entries)).
Proof.
  unfold tankStats, entriesOf. cbn [TankStats.netTotal].
  generalize (filter (fun e => HarvestEntry.tank e = k) entries) as l.
  intros l. unfold sumQ. generalize (num 0).
  induction l as [|e l IH]; intros a; simpl; [done|]. apply IH.
Qed.

Lemma sumQ_plus (f g : Entry -> number) (l : list Entry) :
  sumQ (map (fun e => (f e + g e)%Qc) l) = (sumQ (map f l) + sumQ (map g l))%Qc.
Proof.
  induction l as [|e l IH]; cbn [map].
  - rewrite sumQ_nil. ring.
  - rewrite !sumQ_cons, IH. ring.
Qed.


(** ** The patlu and singles of the ticker and of the log groups *)

Lemma crateCountIs_2 (e : Entry) :
  crateCountIs 2 e = true <-> specCrateCount e = num 2.
Proof.
  unfold crateCountIs, specCrateCount.
  destruct (HarvestEntry.crateCount e) as [c|].
  - rewrite num_eqb_eq. destruct (decide (c = 0%Qc)) as [->|Hc]; [|done].
    split; intros H; discriminate H.
  - split; intros H; discriminate H.
Qed.

Lemma crateCountIs_1 (e : Entry) :
  specCrateCount e = num 1 <-> crateCountIs 1 e = true \/ unset_crateCount e.
Proof.
  unfold crateCountIs, specCrateCount, unset_crateCount.
  destruct (HarvestEntry.crateCount e) as [c|].
  - rewrite num_eqb_eq. destruct (decide (c = 0%Qc)) as [->|Hc].
    + split; [intros _; right; by right|intros _; symmetry; apply num_1].
    + split; [by left|]. intros [?|[?|[= ?]]]; done.
  - split; [intros _; right; by left|intros _; symmetry; apply num_1].
Qed.

Lemma length_filter_iff (P Q : Entry -> Prop) `{forall e, Decision (P e)}
    `{forall e, Decision (Q e)} (l : list Entry) :
  (forall e, P e <-> Q e) -> length (filter P l) = length (filter Q l).
Proof.
  intros Hpq. induction l as [|e l IH]; [done|].
  destruct (decide (P e)) as [Hp|Hp].
  - rewrite filter_cons_True by done. rewrite (filter_cons_True Q) by (by apply Hpq).
    cbn [length]. by rewrite IH.
  - rewrite filter_cons_False by done.
    rewrite (filter_cons_False Q) by (by rewrite <- Hpq). done.
Qed.

(** X7. For every tank of the log, the patlu count shown by the ticker (and
    by the log screen, which filters the same way) is the engine's
    patluCount; the singles count shown, which tests the stored crate count
    against 1, is the engine's singlesCount less the entries whose crate
    count is zero or missing. *)
Theorem ticker_counts_vs_engine
    (localeCompare : string -> string -> Z) (entries : list Entry) :
  Forall (fun s =>
    let st := tankStats entries (TankSummary.tank s) in
    TankStats.patlu st = TankSummary.patluCount s
    /\ TankStats.singles st
       + countWhere unset_crateCount (entriesOf (TankSummary.tank s) entries)
       = TankSummary.singlesCount s
    /\ TankStats.singles st <= TankSummary.singlesCount s)
    (summaries localeCompare entries).
Proof.
  apply Forall_forall. intros s Hs. cbv zeta.
  pose proof (figures_of_summary localeCompare entries s Hs)
    as (_ & Hp & Hsg & _).
  set (l := entriesOf (TankSummary.tank s) entries) in *.
  assert (H1 : TankStats.singles (tankStats entries (TankSummary.tank s))
               + countWhere unset_crateCount l = TankSummary.singlesCount s).
  { rewrite Hsg. unfold tankStats. cbn [TankStats.singles]. fold (entriesOf (TankSummary.tank s) entries).
    fold l. unfold countWhere. clearbody l. clear.
    induction l as [|e l IH]; [done|].
    destruct (decide (specCrateCount e = num 1)) as [E|E].
    - rewrite (filter_cons_True (fun e => specCrateCount e = num 1)) by done.
      cbn [length]. apply crateCountIs_1 in E as E'.
      destruct (decide (crateCountIs 1 e = true)) as [A|A];
        destruct (decide (unset_crateCount e)) as [B|B].
      + exfalso. unfold crateCountIs, unset_crateCount in *.
        destruct (HarvestEntry.crateCount e) as [c|]; [|done].
        destruct B as [?|[= ->]]; [done|]. discriminate A.
      + rewrite filter_cons_True by done. rewrite (filter_cons_False unset_crateCount) by done.
        cbn [length]. lia.
      + rewrite filter_cons_False by done. rewrite (filter_cons_True unset_crateCount) by done.
        cbn [length]. lia.
      + tauto.
    - rewrite (filter_cons_False (fun e => specCrateCount e = num 1)) by done.
      rewrite filter_cons_False by (intros A; apply E, crateCountIs_1; by left).
      rewrite (filter_cons_False unset_crateCount)
        by (intros B; apply E, crateCountIs_1; by right).
      done. }
  split_and!; [|exact H1|].
  - rewrite Hp. unfold tankStats, countWhere. cbn [TankStats.patlu].
    f_equal. apply length_filter_iff. intros e. apply crateCountIs_2.
  - pose proof (countWhere_bounds unset_crateCount l). lia.
Qed.


(** ** The revenue screen against the abstract screen *)

Lemma revenue_price (parseFloat : string -> option number)
    (prices : gmap string string) (tank : string) :
  parseFloat "" = None -> parseFloat "0" = Some (num 0) ->
  or_num (parseFloat (default "" (prices !! tank))) (num 0)
  = priceOf parseFloat prices tank.
Proof.
  intros He H0. unfold priceOf. destruct (prices !! tank) as [s|]; simpl.
  - destruct (String.eqb s "") eqn:E; [|done].
    apply String.eqb_eq in E. subst s. by rewrite He, H0.
  - by rewrite He, H0.
Qed.

Lemma fold_left_fmap {A B C} (f : A -> C -> A) (g : B -> C) (l : list B) (a : A) :
  fold_left f (map g l) a = fold_left (fun a x => f a (g x)) l a.
Proof. revert a. induction l as [|x l IH]; intros a; simpl; [done|]. apply IH. Qed.




(** ** The buckets of the history *)

Lemma groupByDate_fold : groupByDate = fun entries => fold_left dateStep entries [].
Proof. reflexivity. Qed.

Lemma groupByDate_get (entries : list Entry) (d : string) :
  JsMap.get (groupByDate entries) d =
  match entriesOn d entries with
  | [] => None
  | l => Some l
  end.
Proof.
  rewrite groupByDate_fold.
  induction entries as [|e entries IH] using rev_ind; [reflexivity|].
  rewrite fold_left_app. cbn [fold_left]. unfold dateStep at 1.
  unfold entriesOn in *. rewrite filter_app.
  destruct (decide (dateOf (HarvestEntry.timestamp e) = d)) as [Hd|Hd].
  - subst d. rewrite get_set_eq, IH.
    rewrite (filter_cons_True _ e []) by done. rewrite filter_nil.
    by destruct (filter _ entries).
  - rewrite get_set_ne by done. rewrite IH.
    rewrite (filter_cons_False _ e []) by done. rewrite filter_nil.
    by rewrite app_nil_r.
Qed.

Lemma groupByDate_NoDup (entries : list Entry) :
  NoDup (JsMap.keys (groupByDate entries)).
Proof.
  rewrite groupByDate_fold.
  induction entries as [|e entries IH] using rev_ind; [apply NoDup_nil_2|].
  rewrite fold_left_app. cbn [fold_left]. by apply NoDup_keys_set.
Qed.

Lemma groupedByDate_bucket (localeCompare : string -> string -> Z)
    (entries : list Entry) (d : string) (l : list Entry) :
  (d, l) ∈ groupedByDate localeCompare entries <->
  l = entriesOn d entries /\ l <> [].
Proof.
  unfold groupedByDate. rewrite elem_of_js_sort. split.
  - intros Hin. apply (elem_get _ _ _ (groupByDate_NoDup entries)) in Hin.
    rewrite groupByDate_get in Hin.
    destruct (entriesOn d entries); [discriminate|]. by injection Hin as <-.
  - intros [-> Hne]. apply get_Some_elem. rewrite groupByDate_get.
    by destruct (entriesOn d entries).
Qed.

(** X9. For a log whose date prefixes are own keys of a plain object, the
    history groups it by date without loss or overlap: the bucket keys are
    pairwise distinct, the bucket of a date holds exactly the
    entries whose date prefix is that date, in input order, and is never
    empty, and every entry lies in the bucket of its date. *)
Theorem history_buckets
    (localeCompare : string -> string -> Z) (entries : list Entry) :
  plain_dates entries ->
  let buckets := groupedByDate localeCompare entries in
  NoDup (map fst buckets)
  /\ Forall (fun g => g.2 = entriesOn g.1 entries /\ g.2 <> []) buckets
  /\ Forall (fun e =>
       exists g, g ∈ buckets /\ g.1 = dateOf (HarvestEntry.timestamp e) /\ e ∈ g.2)
     entries.
Proof.
  intros _. cbv zeta. split_and!.
  - assert (Hp : map fst (groupedByDate localeCompare entries)
                 ≡ₚ JsMap.keys (groupByDate entries)).
    { unfold groupedByDate, JsMap.keys. apply Permutation_map, js_sort_perm. }
    rewrite Hp. apply groupByDate_NoDup.
  - apply Forall_forall. intros [d l] Hin. by apply groupedByDate_bucket in Hin.
  - apply Forall_forall. intros e He.
    assert (Hin : e ∈ entriesOn (dateOf (HarvestEntry.timestamp e)) entries).
    { unfold entriesOn. by apply list_elem_of_filter. }
    exists (dateOf (HarvestEntry.timestamp e),
            entriesOn (dateOf (HarvestEntry.timestamp e)) entries).
    split_and!; [|done|done].
    apply groupedByDate_bucket. split; [done|].
    intros Hn. rewrite Hn in Hin. by apply elem_of_nil in Hin.
Qed.

Lemma exampleEntries_plain_dates : plain_dates exampleEntries.
Proof.
  unfold plain_dates, own_key. apply (bool_decide_unpack _). by vm_compute.
Qed.

Lemma history_buckets_witness :
  NoDup (map fst (groupedByDate codeCompare exampleEntries)).
Proof.
  destruct (history_buckets codeCompare exampleEntries exampleEntries_plain_dates)
    as (H & _).
  exact H.
Defined.

Lemma sumZ_groups_fold (entries : list Entry) (m : JsMap.t (list Entry)) :
  sumZ (map (fun l => Z.of_nat (length l)) (JsMap.values (fold_left dateStep entries m)))
  = sumZ (map (fun l => Z.of_nat (length l)) (JsMap.values m)) + Z.of_nat (length entries).
Proof.
  revert m. induction entries as [|e entries IH]; intros m; cbn [fold_left length].
  - lia.
  - rewrite IH. unfold dateStep.
    set (d := dateOf (HarvestEntry.timestamp e)).
    pose proof (count_values_set (fun l : list Entry => Z.of_nat (length l)) m d
                  (default [] (JsMap.get m d) ++ [e])) as H.
    cbv beta in H. rewrite length_app in H. cbn [length] in H.
    destruct (JsMap.get m d); cbn [from_option default id length] in H |- *; lia.
Qed.

Lemma fold_sum_sumQ {A} (f : A -> number) (l : list A) :
  fold_left (fun sum e => (sum + f e)%Qc) l (num 0) = sumQ (map f l).
Proof. exact (reduce_sum_sumQ f l). Qed.



(** ** The abstract of one day *)

Lemma filter_ext_in {A} (P Q : A -> Prop) `{forall x, Decision (P x)}
    `{forall x, Decision (Q x)} (l : list A) :
  Forall (fun x => P x <-> Q x) l -> filter P l = filter Q l.
Proof.
  induction 1 as [|x l Hx _ IH]; [done|].
  destruct (decide (P x)) as [Hp|Hp].
  - rewrite filter_cons_True by done.
    rewrite (filter_cons_True Q) by (by apply Hx). by rewrite IH.
  - rewrite filter_cons_False by done.
    rewrite (filter_cons_False Q) by (by rewrite <- Hx). done.
Qed.

Lemma entriesOn_entriesFrom (date : string) (entries : list Entry) :
  entriesOn date entries ⊆ entriesFrom date entries.
Proof.
  intros e He. unfold entriesOn, entriesFrom in *.
  apply list_elem_of_filter in He as [Hd Hin].
  apply list_elem_of_filter. split; [by apply startsWith_dateOf|done].
Qed.

Lemma entriesFrom_same_length (date : string) (entries : list Entry) :
  Forall (fun e => String.length (dateOf (HarvestEntry.timestamp e)) = String.length date)
         entries ->
  entriesFrom date entries = entriesOn date entries.
Proof.
  intros Hl. unfold entriesFrom, entriesOn. apply filter_ext_in.
  eapply Forall_impl; [exact Hl|]. intros e He. cbv beta. split.
  - by apply startsWith_same_length.
  - apply startsWith_dateOf.
Qed.

Lemma entryCount_summaries (localeCompare : string -> string -> Z)
    (entries : list Entry) :
  reduce_count TankSummary.entryCount (summaries localeCompare entries)
  = Z.of_nat (length entries).
Proof.
  rewrite reduce_count_sumZ.
  rewrite (sumZ_summaries _ _ (fun _ => 1)); [|done|done].
  induction entries as [|e entries IH]; [done|].
  cbn [map length]. rewrite sumZ_cons, IH. lia.
Qed.

(** X11. For a selected date (a non-empty string) the abstract of the day is
    built from the entries whose timestamp starts with that string: its
    summaries are the engine's summaries of those entries, its detail list is
    a rearrangement of them, and its entry count equals the sum of the
    entry counts of its summaries.
    Every entry of the day's bucket is in the detail list; when all date
    prefixes in the log have the length of the selected date, the detail list
    is a rearrangement of exactly that bucket. *)
Theorem daily_abstract_of_date
    (localeCompare : string -> string -> Z) (parseFloat : string -> option number)
    (getTime : string -> option Z) (date : string) (entries : list Entry)
    (prices : gmap string string) :
  date <> "" ->
  exists r,
    dailyAbstract localeCompare parseFloat getTime (Some date) entries prices = Some r
    /\ DailyAbstract.summaries r = summaries localeCompare (entriesFrom date entries)
    /\ DailyAbstract.rawEntries r ≡ₚ entriesFrom date entries
    /\ DailyAbstract.totalEntries r
       = reduce_count TankSummary.entryCount (DailyAbstract.summaries r)
    /\ entriesOn date entries ⊆ DailyAbstract.rawEntries r
    /\ (Forall (fun e => String.length (dateOf (HarvestEntry.timestamp e))
                         = String.length date) entries ->
        DailyAbstract.rawEntries r ≡ₚ entriesOn date entries).
Proof.
  intros Hne. unfold dailyAbstract.
  destruct (String.eqb_spec date "") as [->|_]; [done|].
  eexists. split; [reflexivity|].
  cbn [DailyAbstract.summaries DailyAbstract.rawEntries DailyAbstract.totalEntries].
  fold (entriesFrom date entries).
  split_and!.
  - done.
  - apply js_sort_perm.
  - by rewrite entryCount_summaries.
  - intros e He. apply elem_of_js_sort. by apply entriesOn_entriesFrom.
  - intros Hl. rewrite js_sort_perm. by rewrite entriesFrom_same_length.
Qed.

Lemma daily_abstract_of_date_witness :
  exists r,
    dailyAbstract codeCompare sampleParseFloat sampleGetTime (Some "2024-01-15")
                  exampleEntries ∅ = Some r
    /\ DailyAbstract.totalEntries r
       = reduce_count TankSummary.entryCount (DailyAbstract.summaries r).
Proof.
  destruct (daily_abstract_of_date codeCompare sampleParseFloat sampleGetTime
              "2024-01-15" exampleEntries ∅) as (r & Hr & _ & _ & Hc & _);
    [discriminate|].
  exists r. split; [exact Hr|exact Hc].
Defined.

(** ** The dates offered for the report *)

Lemma keys_dateStep (m : JsMap.t (list Entry)) (e : Entry) :
  JsMap.keys (dateStep m e) = setAdd (JsMap.keys m) (dateOf (HarvestEntry.timestamp e)).
Proof.
  unfold dateStep. rewrite keys_set. unfold setAdd.
  set (d := dateOf (HarvestEntry.timestamp e)).
  destruct (JsMap.get m d) as [l|] eqn:Hg.
  - rewrite decide_True; [done|].
    apply get_Some_elem in Hg. unfold JsMap.keys.
    apply list_elem_of_fmap. by exists (d, l).
  - rewrite decide_False; [done|]. by apply get_None_keys.
Qed.

Lemma setAdd_keys (entries : list Entry) :
  fold_left (fun dates e => setAdd dates (dateOf (HarvestEntry.timestamp e))) entries []
  = JsMap.keys (groupByDate entries).
Proof.
  rewrite groupByDate_fold.
  induction entries as [|e entries IH] using rev_ind; [done|].
  rewrite !fold_left_app. cbn [fold_left]. by rewrite IH, keys_dateStep.
Qed.


Lemma availableDates_elem (localeCompare : string -> string -> Z)
    (entries : list Entry) (d : string) :
  d ∈ availableDates localeCompare entries <->
  exists e, e ∈ entries /\ dateOf (HarvestEntry.timestamp e) = d.
Proof.
  unfold availableDates. rewrite elem_of_js_sort, setAdd_keys.
  pose proof (get_None_keys (groupByDate entries) d) as Hn.
  rewrite groupByDate_get in Hn. split.
  - intros Hin. destruct (entriesOn d entries) as [|e l] eqn:El.
    + by apply Hn in Hin.
    + exists e. assert (He : e ∈ entriesOn d entries) by (rewrite El; left).
      unfold entriesOn in He. apply list_elem_of_filter in He. tauto.
  - intros (e & He & Hd).
    assert (Hin : e ∈ entriesOn d entries)
      by (unfold entriesOn; by apply list_elem_of_filter).
    destruct (entriesOn d entries) as [|e' l] eqn:El; [by apply elem_of_nil in Hin|].
    destruct (decide (d ∈ JsMap.keys (groupByDate entries))) as [|Hk]; [done|].
    by apply Hn in Hk.
Qed.

(** X12. For a log whose date prefixes are own keys of a plain object, the
    dates offered for the report are the dates of the history: the list has
    no repetition, it is a rearrangement of the keys of the
    history's buckets, and a date is offered exactly when some entry has it
    as date prefix. *)
Theorem report_dates_are_history_dates
    (localeCompare localeCompare' : string -> string -> Z) (entries : list Entry) :
  plain_dates entries ->
  NoDup (availableDates localeCompare entries)
  /\ availableDates localeCompare entries
     ≡ₚ map fst (groupedByDate localeCompare' entries)
  /\ (forall d, d ∈ availableDates localeCompare entries <->
                exists e, e ∈ entries /\ dateOf (HarvestEntry.timestamp e) = d).
Proof.
  intros _.
  assert (Hp : availableDates localeCompare entries ≡ₚ JsMap.keys (groupByDate entries)).
  { unfold availableDates. by rewrite js_sort_perm, setAdd_keys. }
  split_and!.
  - rewrite Hp. apply groupByDate_NoDup.
  - rewrite Hp. unfold groupedByDate, JsMap.keys.
    apply Permutation_map. symmetry. apply js_sort_perm.
  - apply availableDates_elem.
Qed.

Lemma report_dates_are_history_dates_witness :
  availableDates codeCompare exampleEntries
  ≡ₚ map fst (groupedByDate codeCompare exampleEntries).
Proof.
  destruct (report_dates_are_history_dates codeCompare codeCompare exampleEntries
              exampleEntries_plain_dates) as (_ & H & _).
  exact H.
Defined.

(** ** The selection of dates and the report *)

(** X13. Selecting every offered date makes the report range over the whole
    log, and with a non-empty log its summaries are then those of all
    entries; with an empty selection nothing is generated; for a non-empty
    selection the summaries are computed and their unit count is the number
    of entries of the selected dates (none when no entry has a selected
    date); toggling a date twice restores the selection. *)
Theorem date_selection
    (localeCompare : string -> string -> Z) (entries : list Entry)
    (selectedDates : gset string) (date : string) :
  filteredEntries (selectAllDates (availableDates localeCompare entries)) entries
  = entries
  /\ (entries <> [] ->
      reportSummaries localeCompare
        (selectAllDates (availableDates localeCompare entries)) entries
      = Some (pdfSummaries localeCompare entries))
  /\ reportSummaries localeCompare clearDateSelection entries = None
  /\ (selectedDates <> ∅ ->
      exists ps, reportSummaries localeCompare selectedDates entries = Some ps
                 /\ pdfUnits ps
                    = Z.of_nat (length (filteredEntries selectedDates entries)))
  /\ ((forall e, e ∈ entries -> dateOf (HarvestEntry.timestamp e) ∉ selectedDates) ->
      filteredEntries selectedDates entries = [])
  /\ toggleDate (toggleDate selectedDates date) date = selectedDates
  /\ (date ∈ toggleDate selectedDates date <-> date ∉ selectedDates).
Proof.
  assert (Hall : filteredEntries (selectAllDates (availableDates localeCompare entries))
                   entries = entries).
  { unfold filteredEntries, selectAllDates. apply filter_all, Forall_forall.
    intros e He. apply elem_of_list_to_set, availableDates_elem. by exists e. }
  split_and!.
  - exact Hall.
  - intros Hne. unfold reportSummaries. rewrite Hall.
    rewrite decide_False; [done|].
    intros Hs. apply size_empty_inv in Hs.
    destruct entries as [|e entries]; [done|].
    assert (Hin : dateOf (HarvestEntry.timestamp e)
                  ∈ selectAllDates (availableDates localeCompare (e :: entries))).
    { apply elem_of_list_to_set, availableDates_elem. exists e. split; [left|done]. }
    by apply Hs in Hin.
  - done.
  - intros Hne. unfold reportSummaries. rewrite decide_False.
    + eexists. split; [reflexivity|]. apply pdf_units_gross.
    + intros Hs. apply size_empty_inv in Hs. by apply leibniz_equiv in Hs.
  - intros Hn. unfold filteredEntries. apply filter_none, Forall_forall. exact Hn.
  - unfold toggleDate. destruct (decide (date ∈ selectedDates)) as [Hin|Hin].
    + rewrite decide_False
        by (rewrite elem_of_difference, elem_of_singleton; tauto).
      apply set_eq. intros x.
      rewrite elem_of_union, elem_of_difference, elem_of_singleton.
      destruct (decide (x = date)) as [->|]; tauto.
    + rewrite decide_True
        by (rewrite elem_of_union, elem_of_singleton; tauto).
      apply set_eq. intros x.
      rewrite elem_of_difference, elem_of_union, elem_of_singleton.
      destruct (decide (x = date)) as [->|]; tauto.
  - unfold toggleDate. destruct (decide (date ∈ selectedDates)) as [Hin|Hin].
    + rewrite elem_of_difference, elem_of_singleton. tauto.
    + rewrite elem_of_union, elem_of_singleton. tauto.
Qed.

(** ** The figures of the report *)

Lemma fold_bumpPdf_counts (l : list Entry) (s : Summary) :
  TankSummary.entryCount (fold_left bumpPdf l s)
  = TankSummary.entryCount s + Z.of_nat (length l)
  /\ TankSummary.patluCount (fold_left bumpPdf l s)
     = TankSummary.patluCount s + countWhere (fun e => specCrateCount e = num 2) l
  /\ TankSummary.singlesCount (fold_left bumpPdf l s)
     = TankSummary.singlesCount s + countWhere (fun e => specCrateCount e <> num 2) l
  /\ TankSummary.shrimpCount (fold_left bumpPdf l s) = TankSummary.shrimpCount s.
Proof.
  revert s. induction l as [|e l IH]; intros s.
  - cbn [fold_left length]. unfold countWhere. rewrite !filter_nil.
    cbn [length]. split_and!; lia || done.
  - cbn [fold_left]. destruct (IH (bumpPdf s e)) as (H1 & H2 & H3 & H4).
    rewrite H1, H2, H3, H4. rewrite !countWhere_cons.
    cbn [bumpPdf TankSummary.entryCount TankSummary.patluCount
         TankSummary.singlesCount TankSummary.shrimpCount length].
    fold (entryCrateCount e). rewrite entryCrateCount_spec.
    destruct (decide (specCrateCount e = num 2)) as [E|E].
    + rewrite decide_False by tauto.
      apply num_eqb_eq in E. rewrite E. split_and!; lia || done.
    + rewrite decide_True by done.
      destruct (num_eqb (specCrateCount e) (num 2)) eqn:E'.
      * by apply num_eqb_eq in E'.
      * split_and!; lia || done.
Qed.

Lemma countWhere_split (P : Entry -> Prop) `{forall e, Decision (P e)} (l : list Entry) :
  countWhere P l + countWhere (fun e => ~ P e) l = Z.of_nat (length l).
Proof.
  induction l as [|e l IH]; [done|].
  rewrite !countWhere_cons. cbn [length].
  destruct (decide (P e)).
  - rewrite decide_False by tauto. lia.
  - rewrite decide_True by done. lia.
Qed.



(** ** The entry store: listing, saving, deleting, marking *)

Lemma store_getAll_perm (s : gmap string Entry) :
  store_getAll s ≡ₚ map snd (map_to_list s).
Proof. unfold store_getAll. apply Permutation_map, js_sort_perm. Qed.

Lemma length_store_getAll (s : gmap string Entry) :
  length (store_getAll s) = size s.
Proof. by rewrite store_getAll_perm, length_map, length_map_to_list. Qed.

Lemma keyed_lookup (s : gmap string Entry) (e : Entry) :
  keyed_store s -> (exists k, s !! k = Some e) <-> s !! HarvestEntry.id e = Some e.
Proof.
  intros Hk. split; [|by eexists].
  intros (k & Hl). by rewrite (Hk _ _ Hl).
Qed.

Lemma NoDup_ids_store_getAll (s : gmap string Entry) :
  keyed_store s -> NoDup (map HarvestEntry.id (store_getAll s)).
Proof.
  intros Hk. rewrite store_getAll_perm, map_map.
  rewrite (map_ext_in _ fst).
  - apply (NoDup_fst_map_to_list s).
  - intros [k e] Hin. apply list_elem_of_In, elem_of_map_to_list in Hin.
    cbn [fst snd]. by apply Hk.
Qed.

Lemma with_objects_same (w : IndexedDB) : with_objects w (harvest_entries w) = w.
Proof. by destruct w. Qed.

(** X15. With the store answering, the list of all entries, the count and
    the unsynced list are views of one store: the count is the length of the
    list, no two listed entries share an id, an entry is listed exactly when
    the store holds it under its id, the unsynced list is the list filtered
    on the flag, and the unsorted listing of the second service is a
    rearrangement of the sorted one. *)
Theorem store_views_agree
    (localeCompare : string -> string -> Z) (w : IndexedDB) :
  keyed_store (harvest_entries w) ->
  responsive w ->
  exists l,
    Db.getAllEntries localeCompare w = Resolved l
    /\ Db.getCount w = Resolved (Z.of_nat (length l))
    /\ NoDup (map HarvestEntry.id l)
    /\ (forall e, e ∈ l <-> harvest_entries w !! HarvestEntry.id e = Some e)
    /\ Db.getUnsyncedEntries localeCompare w = Resolved (filter unsynced l)
    /\ exists l2, DbService2.getAllEntries w = Resolved l2 /\ l2 ≡ₚ l.
Proof.
  intros Hk [Ho Ht].
  unfold Db.getUnsyncedEntries, Db.getAllEntries, Db.getCount,
    DbService2.getAllEntries, getDB.
  rewrite Ho, Ht. eexists. split; [reflexivity|]. split_and!.
  - by rewrite js_sort_perm, length_store_getAll.
  - rewrite (Permutation_map _ (js_sort_perm _ _)). by apply NoDup_ids_store_getAll.
  - intros e. rewrite elem_of_js_sort, elem_of_store_getAll. by apply keyed_lookup.
  - done.
  - eexists. split; [reflexivity|]. symmetry. apply js_sort_perm.
Qed.

Lemma store_views_agree_witness :
  exists l,
    Db.getAllEntries codeCompare sampleDb = Resolved l
    /\ Db.getCount sampleDb = Resolved (Z.of_nat (length l)).
Proof.
  destruct (store_views_agree codeCompare sampleDb sampleStore_keyed)
    as (l & Hl & Hc & _); [by split|].
  exists l. split; [exact Hl|exact Hc].
Defined.

(** X16. Saving is an upsert by id: with the store answering, the saved
    record is what the store then holds under its id, every other key is
    untouched, the count grows by one for a new id and stays for a known
    one, saving the same record again changes nothing, and deleting a
    freshly added id brings the store back. *)
Theorem saveEntry_upsert (entry : Entry) (w : IndexedDB) :
  keyed_store (harvest_entries w) ->
  responsive w ->
  exists w',
    Db.saveEntry entry w = (Resolved tt, w')
    /\ keyed_store (harvest_entries w')
    /\ harvest_entries w' !! HarvestEntry.id entry = Some entry
    /\ (forall k, k <> HarvestEntry.id entry ->
                  harvest_entries w' !! k = harvest_entries w !! k)
    /\ Db.getCount w'
       = Resolved (Z.of_nat (size (harvest_entries w))
                   + match harvest_entries w !! HarvestEntry.id entry with
                     | Some _ => 0
                     | None => 1
                     end)
    /\ Db.saveEntry entry w' = (Resolved tt, w')
    /\ (harvest_entries w !! HarvestEntry.id entry = None ->
        Db.deleteEntry (HarvestEntry.id entry) w' = (Resolved true, w)).
Proof.
  intros Hk [Ho Ht].
  unfold Db.saveEntry, Db.deleteEntry, Db.getCount, readwrite, getDB.
  rewrite Ho, Ht. eexists. split; [reflexivity|].
  cbn [with_objects harvest_entries openable tx_commits]. rewrite Ho, Ht.
  unfold store_put. split_and!.
  - by apply keyed_store_put.
  - by rewrite lookup_insert, decide_True.
  - intros k Hne. by rewrite lookup_insert, decide_False.
  - rewrite map_size_insert.
    destruct (harvest_entries w !! HarvestEntry.id entry); f_equal; cbn [id]; lia.
  - unfold with_objects. cbn [openable tx_commits]. by rewrite insert_insert_eq.
  - intros Hn. unfold with_objects. cbn [openable tx_commits].
    rewrite delete_insert_id by done. by destruct w.
Qed.

Lemma saveEntry_upsert_witness :
  exists w',
    Db.saveEntry laterEntry sampleDb = (Resolved tt, w')
    /\ harvest_entries w' !! "id_5" = Some laterEntry.
Proof.
  destruct (saveEntry_upsert laterEntry sampleDb sampleStore_keyed)
    as (w' & Hs & _ & Hl & _); [by split|].
  exists w'. split; [exact Hs|exact Hl].
Defined.

Lemma lookup_delete_nonempty (ids : list string) (s : gmap string Entry) (k : string) :
  fold_left (fun acc id => if String.eqb id "" then acc else delete id acc) ids s !! k
  = if decide (k ∈ ids /\ k <> "") then None else s !! k.
Proof.
  revert s. induction ids as [|i ids IH]; intros s; cbn [fold_left].
  - rewrite decide_False; [done|]. intros [H _]. by apply elem_of_nil in H.
  - rewrite IH. destruct (decide (k ∈ ids /\ k <> "")) as [[Hin Hne]|Hn].
    + rewrite decide_True; [done|]. split; [by right|done].
    + destruct (String.eqb_spec i "") as [->|Hi].
      * destruct (decide (k ∈ "" :: ids /\ k <> "")) as [[Hin Hne]|_]; [|done].
        apply elem_of_cons in Hin as [->|Hin]; [done|]. tauto.
      * rewrite lookup_delete. case_decide as E.
        -- subst i. rewrite decide_True; [done|]. split; [left|done].
        -- rewrite decide_False; [done|]. intros [Hin Hne].
           apply elem_of_cons in Hin as [->|Hin]; [done|]. tauto.
Qed.

Lemma deleteEach_objects (ids : list string) (w : IndexedDB) :
  responsive w ->
  deleteEach ids w
  = with_objects w (fold_left (fun acc id => delete id acc) ids (harvest_entries w)).
Proof.
  intros [Ho Ht]. unfold deleteEach. revert w Ho Ht.
  induction ids as [|i ids IH]; intros w Ho Ht; cbn [fold_left].
  - by rewrite with_objects_same.
  - unfold Db.deleteEntry at 2, readwrite, getDB, after. rewrite Ho, Ht. cbn [snd].
    rewrite IH by done. done.
Qed.

(** X17. Deleting a batch: with the store answering, exactly the listed ids
    disappear and every other key is untouched; the result is the store
    reached by deleting the ids one by one; ids that are not in the store do
    no harm; the second service does the same except that it skips an empty
    id, so the two agree whenever no record is stored under the empty id. *)
Theorem deleteEntries_batch (ids : list string) (w : IndexedDB) :
  responsive w ->
  exists w' w2,
    Db.deleteEntries ids w = (Resolved true, w')
    /\ DbService2.deleteEntries ids w = (Resolved tt, w2)
    /\ (forall k, harvest_entries w' !! k
                  = if decide (k ∈ ids) then None else harvest_entries w !! k)
    /\ (forall k, harvest_entries w2 !! k
                  = if decide (k ∈ ids /\ k <> "") then None
                    else harvest_entries w !! k)
    /\ deleteEach ids w = w'
    /\ (Forall (fun k => harvest_entries w !! k = None) ids -> w' = w)
    /\ (harvest_entries w !! "" = None -> w2 = w').
Proof.
  intros [Ho Ht].
  unfold Db.deleteEntries, DbService2.deleteEntries, readwrite, getDB.
  rewrite Ho, Ht. do 2 eexists. split; [reflexivity|]. split; [reflexivity|].
  cbn [with_objects harvest_entries]. split_and!.
  - intros k. apply lookup_delete_all.
  - intros k. apply lookup_delete_nonempty.
  - by rewrite deleteEach_objects.
  - intros Hn. destruct w as [o t s].
    cbn [with_objects harvest_entries openable tx_commits] in *. f_equal.
    apply map_eq. intros k. rewrite lookup_delete_all.
    case_decide as Hin; [|done].
    rewrite Forall_forall in Hn. symmetry. by apply Hn.
  - intros Hn. unfold with_objects. f_equal. apply map_eq. intros k.
    rewrite lookup_delete_all, lookup_delete_nonempty.
    destruct (decide (k ∈ ids)) as [Hin|Hin].
    + destruct (decide (k = "")) as [->|Hne].
      * rewrite decide_False by tauto. done.
      * by rewrite decide_True.
    + rewrite decide_False by tauto. done.
Qed.

Lemma deleteEntries_batch_witness :
  exists w',
    Db.deleteEntries ["id_1"; "id_0"] sampleDb = (Resolved true, w')
    /\ deleteEach ["id_1"; "id_0"] sampleDb = w'.
Proof.
  destruct (deleteEntries_batch ["id_1"; "id_0"] sampleDb)
    as (w' & w2 & Hd & _ & _ & _ & He & _); [by split|].
  exists w'. split; [exact Hd|exact He].
Defined.

Lemma keyed_store_mark_all (ids : list string) (s : gmap string Entry) :
  keyed_store s -> keyed_store (mark_all ids s).
Proof.
  intros Hk k e. rewrite mark_all_lookup by done.
  case_decide; [|apply Hk].
  destruct (s !! k) as [e0|] eqn:E; [|done].
  simpl. intros [= <-]. exact (Hk _ _ E).
Qed.

Lemma size_mark_all (ids : list string) (s : gmap string Entry) :
  keyed_store s -> size (mark_all ids s) = size s.
Proof.
  intros Hk. rewrite <- !size_dom. f_equal. apply set_eq. intros k.
  rewrite !elem_of_dom, mark_all_lookup by done.
  case_decide; [|done]. by rewrite fmap_is_Some.
Qed.

(** X18. Marking and the unsynced list: with the store answering, after
    marking a list of ids the unsynced entries are those that were unsynced
    before and are not in the list; the count is unchanged; marking the ids
    of every unsynced entry leaves none; marking again changes nothing. *)
Theorem marked_entries_leave_unsynced
    (localeCompare : string -> string -> Z) (ids : list string) (w : IndexedDB) :
  keyed_store (harvest_entries w) ->
  responsive w ->
  exists w' u u',
    Db.markEntriesSynced ids w = (Resolved tt, w')
    /\ Db.getUnsyncedEntries localeCompare w = Resolved u
    /\ Db.getUnsyncedEntries localeCompare w' = Resolved u'
    /\ (forall e, e ∈ u' <-> e ∈ u /\ HarvestEntry.id e ∉ ids)
    /\ (map HarvestEntry.id u ⊆ ids -> u' = [])
    /\ Db.getCount w' = Db.getCount w
    /\ Db.markEntriesSynced ids w' = (Resolved tt, w').
Proof.
  intros Hk [Ho Ht].
  unfold Db.markEntriesSynced, Db.getUnsyncedEntries, Db.getAllEntries, Db.getCount,
    readwrite, getDB.
  rewrite Ho, Ht. do 3 eexists.
  split; [reflexivity|]. split; [reflexivity|].
  cbn [with_objects harvest_entries openable tx_commits]. rewrite Ho, Ht.
  split; [reflexivity|].
  assert (Hmem : forall e,
    e ∈ filter (fun e => HarvestEntry.synced e = false)
          (js_sort (fun a b => localeCompare (HarvestEntry.timestamp b)
                                             (HarvestEntry.timestamp a))
                   (store_getAll (mark_all ids (harvest_entries w))))
    <-> e ∈ filter (fun e => HarvestEntry.synced e = false)
          (js_sort (fun a b => localeCompare (HarvestEntry.timestamp b)
                                             (HarvestEntry.timestamp a))
                   (store_getAll (harvest_entries w)))
        /\ HarvestEntry.id e ∉ ids).
  { intros e. rewrite !list_elem_of_filter, !elem_of_js_sort, !elem_of_store_getAll.
    split.
    - intros (Hs & k & Hl). rewrite mark_all_lookup in Hl by done.
      case_decide as Hin.
      + destruct (harvest_entries w !! k) as [e0|]; [|done].
        injection Hl as <-. done.
      + rewrite (Hk _ _ Hl). split; [|done]. split; [done|by exists k].
    - intros ((Hs & k & Hl) & Hin). split; [done|]. exists k.
      rewrite mark_all_lookup by done. rewrite decide_False; [done|].
      by rewrite <- (Hk _ _ Hl). }
  split_and!.
  - exact Hmem.
  - intros Hsub.
    destruct (filter _ (js_sort _ (store_getAll (mark_all ids (harvest_entries w)))))
      as [|e l] eqn:El; [done|].
    destruct (proj1 (Hmem e)) as [He Hn]; [left|].
    exfalso. apply Hn, Hsub. apply list_elem_of_fmap. by exists e.
  - by rewrite size_mark_all.
  - unfold with_objects. cbn [openable tx_commits]. f_equal. f_equal.
    apply map_eq. intros k.
    rewrite (mark_all_lookup (mark_all ids (harvest_entries w)))
      by (by apply keyed_store_mark_all).
    rewrite mark_all_lookup by done.
    case_decide; [|done].
    by destruct (harvest_entries w !! k).
Qed.

Lemma marked_entries_leave_unsynced_witness :
  exists w' u',
    Db.markEntriesSynced ["id_0"; "id_1"] sampleDb = (Resolved tt, w')
    /\ Db.getUnsyncedEntries codeCompare w' = Resolved u'.
Proof.
  destruct (marked_entries_leave_unsynced codeCompare ["id_0"; "id_1"] sampleDb
              sampleStore_keyed)
    as (w' & u & u' & Hm & _ & Hu & _); [by split|].
  exists w', u'. split; [exact Hm|exact Hu].
Defined.


(** ** The application and the store *)

Lemma sampleApp_mirrors : mirrors_store sampleApp.
Proof.
  split; [apply keyed_store_empty|].
  intros e. split.
  - intros H. by apply elem_of_nil in H.
  - intros (k & Hk). cbn in Hk. by rewrite lookup_empty in Hk.
Qed.

Lemma loadedApp_mirrors : mirrors_store loadedApp.
Proof.
  apply loadData_mirrors; [|reflexivity..].
  apply keyed_store_put, sampleStore_keyed.
Qed.

Lemma loadedApp_responsive : responsive (App.db loadedApp).
Proof. by split. Qed.

(** X19. A valid weight is saved: when the input parses to a positive number,
    the store answers and the new id is not in use, pressing save empties the
    input and flags success, puts one record into the store, built from the
    weight, the crate count of the form and the current settings and not yet
    synced, and puts the same record at the head of the list; no alert is
    raised and the list still mirrors the store. *)
Theorem valid_weight_is_saved
    (parseFloat : string -> option number) (newId now : string)
    (ui : CrateEntry.state) (app : App.t) (numWeight : number) :
  parseFloat (CrateEntry.weight ui) = Some numWeight ->
  (0 < numWeight)%Qc ->
  mirrors_store app ->
  responsive (App.db app) ->
  harvest_entries (App.db app) !! newId = None ->
  let newEntry :=
    HarvestEntry.mk newId
      (HarvestSettings.activeTank (App.settings app))
      (HarvestSettings.shrimpCount (App.settings app))
      numWeight
      (HarvestSettings.crateWeight (App.settings app))
      (Some (CrateEntry.crateCount ui))
      (HarvestSettings.teamName (App.settings app))
      now false in
  exists app',
    addPath parseFloat newId now ui app
    = (CrateEntry.mk "" (CrateEntry.crateCount ui) true, app')
    /\ App.entries app' = newEntry :: App.entries app
    /\ harvest_entries (App.db app')
       = <[newId := newEntry]> (harvest_entries (App.db app))
    /\ App.lastSaved app' = Some numWeight
    /\ App.alerts app' = App.alerts app
    /\ App.settings app' = App.settings app
    /\ App.dbCalls app' = App.dbCalls app ++ [CallSaveEntry newEntry]
    /\ mirrors_store app'.
Proof.
  intros Hp Hpos [Hk Hm] [Ho Ht] Hfresh newEntry.
  unfold addPath, handleSave. rewrite Hp.
  rewrite <- num_0 in Hpos. apply num_ltb_lt in Hpos. rewrite Hpos.
  unfold handleAddEntry, Db.saveEntry, readwrite, getDB. rewrite Ho, Ht.
  fold newEntry. eexists. split; [reflexivity|].
  cbn [App.entries App.db App.lastSaved App.alerts App.settings App.dbCalls
       with_objects harvest_entries].
  split_and!; try done.
  split; cbn [App.entries App.db with_objects harvest_entries].
  - by apply keyed_store_put.
  - intros e. unfold store_put. cbn [HarvestEntry.id newEntry].
    rewrite elem_of_cons, Hm. split.
    + intros [->|(k & Hl)].
      * exists newId. by rewrite lookup_insert, decide_True.
      * exists k. rewrite lookup_insert, decide_False; [done|].
        intros <-. by rewrite Hfresh in Hl.
    + intros (k & Hl). rewrite lookup_insert in Hl. case_decide as E.
      * left. by injection Hl.
      * right. by exists k.
Qed.

Lemma valid_weight_is_saved_witness :
  exists app',
    addPath sampleParseFloat "id_9" "2024-01-15T12:00:00.000Z"
            (CrateEntry.mk "12" (num 2) false) sampleApp
    = (CrateEntry.mk "" (num 2) true, app')
    /\ App.lastSaved app' = Some (num 12).
Proof.
  assert (Hpos : (0 < num 12)%Qc) by reflexivity.
  destruct (valid_weight_is_saved sampleParseFloat "id_9" "2024-01-15T12:00:00.000Z"
              (CrateEntry.mk "12" (num 2) false) sampleApp (num 12)
              eq_refl Hpos sampleApp_mirrors (conj eq_refl eq_refl) eq_refl)
    as (app' & Ha & _ & _ & Hl & _).
  exists app'. split; [exact Ha|exact Hl].
Defined.

(** X20. Batch delete and update keep the list in step with the store: with
    the list mirroring the store and the store answering, after a batch
    delete the list holds exactly the former entries whose id was not
    listed, after an update it holds the updated record in place of any
    record of the same id; in both cases the list again mirrors the store
    and no alert is raised. *)
Theorem batch_delete_and_update
    (localeCompare : string -> string -> Z) (ids : list string)
    (updatedEntry : Entry) (app : App.t) :
  mirrors_store app ->
  responsive (App.db app) ->
  let deleted := handleBatchDelete localeCompare ids app in
  let updated := handleUpdateEntry localeCompare updatedEntry app in
  (forall e, e ∈ App.entries deleted <->
             e ∈ App.entries app /\ HarvestEntry.id e ∉ ids)
  /\ mirrors_store deleted
  /\ App.alerts deleted = App.alerts app
  /\ (forall e, e ∈ App.entries updated <->
                e = updatedEntry
                \/ (e ∈ App.entries app
                    /\ HarvestEntry.id e <> HarvestEntry.id updatedEntry))
  /\ mirrors_store updated
  /\ App.alerts updated = App.alerts app.
Proof.
  intros [Hk Hm] [Ho Ht]. cbv zeta.
  unfold handleBatchDelete, handleUpdateEntry, Db.deleteEntries, Db.saveEntry,
    readwrite, getDB.
  rewrite Ho, Ht. split_and!.
  - intros e. rewrite loadData_entries by done.
    cbn [App.db with_objects harvest_entries]. rewrite Hm. split.
    + intros (k & Hl). rewrite lookup_delete_all in Hl.
      case_decide as Hin; [done|]. split; [by exists k|]. by rewrite (Hk _ _ Hl).
    + intros ((k & Hl) & Hn). exists k. rewrite lookup_delete_all.
      rewrite decide_False; [done|]. by rewrite <- (Hk _ _ Hl).
  - apply loadData_mirrors; cbn [App.db with_objects harvest_entries openable
                                 tx_commits]; [|done..].
    intros k e. rewrite lookup_delete_all. case_decide; [done|]. apply Hk.
  - unfold loadData. by destruct (Db.getAllEntries _ _).
  - intros e. rewrite loadData_entries by done.
    cbn [App.db with_objects harvest_entries]. rewrite Hm. unfold store_put. split.
    + intros (k & Hl). rewrite lookup_insert in Hl. case_decide as E.
      * left. by injection Hl.
      * right. split; [by exists k|]. by rewrite (Hk _ _ Hl).
    + intros [->|((k & Hl) & Hn)].
      * exists (HarvestEntry.id updatedEntry). by rewrite lookup_insert, decide_True.
      * exists k. rewrite lookup_insert, decide_False; [done|].
        by rewrite <- (Hk _ _ Hl).
  - apply loadData_mirrors; cbn [App.db with_objects harvest_entries openable
                                 tx_commits]; [|done..].
    by apply keyed_store_put.
  - unfold loadData. by destruct (Db.getAllEntries _ _).
Qed.

Lemma batch_delete_and_update_witness :
  mirrors_store (handleBatchDelete codeCompare ["id_3"] loadedApp)
  /\ mirrors_store (handleUpdateEntry codeCompare laterEntry loadedApp).
Proof.
  destruct (batch_delete_and_update codeCompare ["id_3"] laterEntry loadedApp
              loadedApp_mirrors loadedApp_responsive)
    as (_ & Hd & _ & _ & Hu & _).
  split; [exact Hd|exact Hu].
Defined.

(** Rewrites the write of the goal with its rejection. *)
Ltac rejected_write Hrw :=
  match goal with
  | |- context [readwrite ?w ?v ?b] =>
      let r := fresh "r" in
      let E := fresh "E" in
      destruct (Hrw _ v b) as (r & E); rewrite E; clear E
  end.

(** X21. A write to a store that cannot be opened is reported and changes
    nothing: adding, batch deleting, updating and deleting a date leave the
    list and the store as they are and raise exactly one alert (deleting a
    date with no matching entry raises none). *)
Theorem failed_write_is_reported
    (localeCompare : string -> string -> Z) (newId now date : string)
    (weight crateCount : number) (ids : list string) (updatedEntry : Entry)
    (app : App.t) :
  openable (App.db app) = false ->
  let unchanged (app' : App.t) (message : string) :=
    App.entries app' = App.entries app
    /\ App.db app' = App.db app
    /\ App.lastSaved app' = App.lastSaved app
    /\ App.alerts app' = App.alerts app ++ [message] in
  unchanged (handleAddEntry newId now app weight crateCount)
            "Database error. Please restart the app."
  /\ unchanged (handleBatchDelete localeCompare ids app) "Batch delete failed."
  /\ unchanged (handleUpdateEntry localeCompare updatedEntry app) "Update failed."
  /\ (idsToDelete date (App.entries app) <> [] ->
      unchanged (handleDeleteHistoryDate localeCompare date app)
                ("Failed to delete history for " +:+ date))
  /\ (idsToDelete date (App.entries app) = [] ->
      handleDeleteHistoryDate localeCompare date app = app).
Proof.
  intros Hn. cbv zeta.
  assert (Hrw : forall A (v : A) body,
             exists r, readwrite (App.db app) v body = (Rejected r, App.db app)).
  { intros A v body. unfold readwrite, getDB. rewrite Hn. by eexists. }
  split; [|split; [|split; [|split]]].
  - unfold handleAddEntry, Db.saveEntry. rejected_write Hrw. done.
  - unfold handleBatchDelete, Db.deleteEntries. rejected_write Hrw. done.
  - unfold handleUpdateEntry, Db.saveEntry. rejected_write Hrw. done.
  - intros Hne. unfold handleDeleteHistoryDate.
    fold (idsToDelete date (App.entries app)).
    destruct (idsToDelete date (App.entries app)) as [|i l] eqn:E; [done|].
    cbn [length]. replace (0 <? Z.of_nat (S (length l))) with true
      by (symmetry; apply Z.ltb_lt; lia).
    unfold Db.deleteEntries. rejected_write Hrw. done.
  - intros He. unfold handleDeleteHistoryDate.
    fold (idsToDelete date (App.entries app)). by rewrite He.
Qed.

Lemma failed_write_is_reported_witness :
  App.alerts (handleBatchDelete codeCompare ["id_1"]
                (App.mk sampleSettings [storedEntry] None
                        (mkIDB false true sampleStore) [] []))
  = ["Batch delete failed."].
Proof.
  destruct (failed_write_is_reported codeCompare "id_9" "now" "2024-01-15"
              (num 1) (num 1) ["id_1"] storedEntry
              (App.mk sampleSettings [storedEntry] None
                      (mkIDB false true sampleStore) [] []) eq_refl)
    as (_ & (_ & _ & _ & Ha) & _).
  exact Ha.
Defined.


(** ** The selection of the log *)

Lemma fold_setAdd_elem (l acc : list string) (x : string) :
  x ∈ fold_left setAdd l acc <-> x ∈ acc \/ x ∈ l.
Proof.
  revert acc. induction l as [|y l IH]; intros acc; cbn [fold_left].
  - split; [by left|]. intros [H|H]; [done|by apply elem_of_nil in H].
  - rewrite IH. unfold setAdd. rewrite elem_of_cons. case_decide as E.
    + split; [intros [H|H]; tauto|]. intros [H|[->|H]]; tauto.
    + rewrite elem_of_app, list_elem_of_singleton. tauto.
Qed.

Lemma fold_setAdd_NoDup (l acc : list string) :
  NoDup acc -> NoDup (fold_left setAdd l acc).
Proof.
  revert acc. induction l as [|y l IH]; intros acc Hn; cbn [fold_left]; [done|].
  apply IH. unfold setAdd. case_decide as E; [done|].
  apply NoDup_app. split_and!; [done| |apply NoDup_singleton].
  intros x Hx Hy. apply list_elem_of_singleton in Hy. by subst.
Qed.

Lemma fold_setAdd_fresh (l acc : list string) :
  NoDup l -> (forall x, x ∈ l -> x ∉ acc) -> fold_left setAdd l acc = acc ++ l.
Proof.
  revert acc. induction l as [|y l IH]; intros acc Hn Hd; cbn [fold_left].
  - by rewrite app_nil_r.
  - apply NoDup_cons in Hn as [Hy Hn]. unfold setAdd.
    rewrite decide_False by (apply Hd; left).
    rewrite IH; [by rewrite <- app_assoc|done|].
    intros x Hx Hin. apply elem_of_app in Hin as [Hin|Hin].
    + apply (Hd x); [by right|done].
    + apply list_elem_of_singleton in Hin. by subst.
Qed.

Lemma setOf_NoDup_id (l : list string) : NoDup l -> setOf l = l.
Proof.
  intros Hn. unfold setOf. rewrite fold_setAdd_fresh; [done|done|].
  intros x _ H. by apply elem_of_nil in H.
Qed.

Lemma handleBatchDelete_entries
    (localeCompare : string -> string -> Z) (ids : list string) (app : App.t)
    (e : Entry) :
  mirrors_store app -> responsive (App.db app) ->
  e ∈ App.entries (handleBatchDelete localeCompare ids app) <->
  e ∈ App.entries app /\ HarvestEntry.id e ∉ ids.
Proof.
  intros [Hk Hm] [Ho Ht].
  unfold handleBatchDelete, Db.deleteEntries, readwrite, getDB. rewrite Ho, Ht.
  rewrite loadData_entries by done.
  cbn [App.db with_objects harvest_entries]. rewrite Hm. split.
  - intros (k & Hl). rewrite lookup_delete_all in Hl.
    case_decide as Hin; [done|]. split; [by exists k|]. by rewrite (Hk _ _ Hl).
  - intros ((k & Hl) & Hn). exists k. rewrite lookup_delete_all.
    rewrite decide_False; [done|]. by rewrite <- (Hk _ _ Hl).
Qed.

Lemma handleBatchDelete_store
    (localeCompare : string -> string -> Z) (ids : list string) (app : App.t) :
  responsive (App.db app) ->
  harvest_entries (App.db (handleBatchDelete localeCompare ids app))
  = fold_left (fun acc id => delete id acc) ids (harvest_entries (App.db app)).
Proof.
  intros [Ho Ht].
  unfold handleBatchDelete, Db.deleteEntries, readwrite, getDB. rewrite Ho, Ht.
  unfold loadData. by destruct (Db.getAllEntries _ _).
Qed.

(** X22. The selection of the log is a set of ids and select-all reaches
    every entry: starting from no selection, select-all selects each id of
    the list once; deleting that selection empties the list and the store
    (with the list mirroring the store and the store answering); pressing
    select-all again clears the selection when the ids of the list are
    distinct; with nothing selected, or while a batch delete runs, the batch
    delete does nothing; toggling an id flips its membership, keeps the
    selection free of repetition, and does nothing while an entry is
    edited. *)
Theorem select_all_then_delete
    (localeCompare : string -> string -> Z) (app : App.t)
    (selectedIds : list string) (id editing : string) (c : ascii) :
  mirrors_store app ->
  responsive (App.db app) ->
  let all := handleSelectAll [] (App.entries app) in
  NoDup all
  /\ (forall k, k ∈ all <-> exists e, e ∈ App.entries app /\ HarvestEntry.id e = k)
  /\ (let r := handleBatchDeleteClick localeCompare all false app in
      r.1 = [] /\ App.entries r.2 = [] /\ harvest_entries (App.db r.2) = ∅)
  /\ (NoDup (map HarvestEntry.id (App.entries app)) ->
      handleSelectAll all (App.entries app) = [])
  /\ handleBatchDeleteClick localeCompare selectedIds true app = (selectedIds, app)
  /\ (NoDup selectedIds ->
      NoDup (handleToggleSelect None id selectedIds)
      /\ (id ∈ handleToggleSelect None id selectedIds <-> id ∉ selectedIds)
      /\ handleToggleSelect None id (handleToggleSelect None id selectedIds)
         ≡ₚ selectedIds)
  /\ handleToggleSelect (Some (String c editing)) id selectedIds = selectedIds.
Proof.
  intros Hmirror Hresp. cbv zeta.
  assert (Hall : forall k, k ∈ handleSelectAll [] (App.entries app)
                           <-> exists e, e ∈ App.entries app /\ HarvestEntry.id e = k).
  { intros k. unfold handleSelectAll. case_decide as E.
    - destruct (App.entries app); [|done]. split.
      + intros H. by apply elem_of_nil in H.
      + intros (e & H & _). by apply elem_of_nil in H.
    - unfold setOf. rewrite fold_setAdd_elem, list_elem_of_fmap. split.
      + intros [H|(e & -> & He)]; [by apply elem_of_nil in H|by exists e].
      + intros (e & He & <-). right. by exists e. }
  split; [|split; [|split; [|split; [|split; [|split]]]]].
  - unfold handleSelectAll. case_decide; [apply NoDup_nil_2|].
    apply fold_setAdd_NoDup, NoDup_nil_2.
  - exact Hall.
  - unfold handleBatchDeleteClick.
    destruct (Z.of_nat (length (handleSelectAll [] (App.entries app))) =? 0) eqn:E;
      cbn [orb fst snd].
    + apply Z.eqb_eq in E.
      destruct (handleSelectAll [] (App.entries app)) as [|k l] eqn:El;
        [|cbn [length] in E; lia].
      assert (Hnil : App.entries app = []).
      { destruct (App.entries app) as [|e es] eqn:Ee; [done|].
        assert (Hin : HarvestEntry.id e ∈ @nil string).
        { apply Hall. exists e. split; [left|done]. }
        by apply elem_of_nil in Hin. }
      split_and!; [done|exact Hnil|].
      apply map_eq. intros k. rewrite lookup_empty.
      destruct (harvest_entries (App.db app) !! k) as [e|] eqn:Hl; [|done].
      destruct Hmirror as [_ Hm].
      assert (He : e ∈ App.entries app) by (apply Hm; by exists k).
      rewrite Hnil in He. by apply elem_of_nil in He.
    + split_and!; [done| |].
      * destruct (App.entries (handleBatchDelete localeCompare
                   (handleSelectAll [] (App.entries app)) app)) as [|e es] eqn:Ee;
          [done|].
        assert (He : e ∈ e :: es) by left.
        rewrite <- Ee in He. apply handleBatchDelete_entries in He as [He Hn]; [|done..].
        exfalso. apply Hn, Hall. by exists e.
      * rewrite handleBatchDelete_store by done.
        apply map_eq. intros k. rewrite lookup_delete_all, lookup_empty.
        case_decide as Hin; [done|].
        destruct (harvest_entries (App.db app) !! k) as [e|] eqn:Hl; [|done].
        destruct Hmirror as [Hk Hm].
        exfalso. apply Hin, Hall. exists e. split; [apply Hm; by exists k|by apply Hk].
  - intros Hn. unfold handleSelectAll.
    destruct (decide (length (@nil string) = length (App.entries app))) as [E|E].
    + by rewrite decide_True.
    + rewrite decide_True; [done|]. by rewrite setOf_NoDup_id, length_map.
  - unfold handleBatchDeleteClick. by rewrite orb_true_r.
  - intros Hn. cbn [handleToggleSelect].
    destruct (decide (id ∈ selectedIds)) as [Hin|Hin].
    + assert (Hd : id ∉ setDelete selectedIds id).
      { unfold setDelete. rewrite list_elem_of_filter. tauto. }
      split_and!.
      * unfold setDelete. by apply NoDup_filter.
      * tauto.
      * rewrite decide_False by done. unfold setAdd. rewrite decide_False by done.
        unfold setDelete. apply NoDup_Permutation.
        -- apply NoDup_app. split_and!; [by apply NoDup_filter| |apply NoDup_singleton].
           intros x Hx Hy. apply list_elem_of_singleton in Hy. subst.
           apply list_elem_of_filter in Hx. tauto.
        -- done.
        -- intros x. rewrite elem_of_app, list_elem_of_filter, list_elem_of_singleton.
           destruct (decide (x = id)) as [->|]; tauto.
    + assert (Ha : setAdd selectedIds id = selectedIds ++ [id]).
      { unfold setAdd. by rewrite decide_False. }
      split_and!.
      * rewrite Ha. apply NoDup_app. split_and!; [done| |apply NoDup_singleton].
        intros x Hx Hy. apply list_elem_of_singleton in Hy. by subst.
      * rewrite Ha, elem_of_app, list_elem_of_singleton. tauto.
      * rewrite Ha. rewrite decide_True
          by (rewrite elem_of_app, list_elem_of_singleton; tauto).
        unfold setDelete. rewrite filter_app.
        rewrite (filter_cons_False _ id []) by tauto. rewrite filter_nil, app_nil_r.
        rewrite filter_all; [done|]. apply Forall_forall. intros x Hx ->. done.
  - done.
Qed.

Lemma select_all_then_delete_witness :
  App.entries (handleBatchDeleteClick codeCompare
                 (handleSelectAll [] (App.entries loadedApp)) false loadedApp).2
  = [].
Proof.
  destruct (select_all_then_delete codeCompare loadedApp [] "id_1" "id_1" "i"%char
              loadedApp_mirrors loadedApp_responsive)
    as (_ & _ & (_ & He & _) & _).
  exact He.
Defined.


(** ** Pushing the unsynced entries *)

Lemma filter_nil_iff {A} (P : A -> Prop) `{forall x, Decision (P x)} (l : list A) :
  filter P l = [] <-> forall x, x ∈ l -> ~ P x.
Proof.
  split.
  - intros Hf x Hx Hp.
    assert (Hin : x ∈ filter P l) by (by apply list_elem_of_filter).
    rewrite Hf in Hin. by apply elem_of_nil in Hin.
  - intros Hn. apply filter_none, Forall_forall. exact Hn.
Qed.

(** X23. Pushing never marks an entry as synced: SyncManager calls
    [DBService.markSynced], which the DBService it imports (src/db.ts) does
    not have.  With a webhook URL configured, the upload accepted and some
    entry unsynced, the push reports a connection failure, leaves the store
    as it is and calls for no reload, so the same entries are uploaded again
    by the next push; the older manual sync, run with the same DBService,
    fails in the same way, whatever its analytics call does.  With the
    DBService of part_004 in its place,
    the store answering and the list showing the content of the store, the
    push reports the number of unsynced entries and calls for a reload, and
    afterwards the store has no unsynced record, as many records as before,
    and every entry of the list stored with its flag set and nothing else
    changed.  Without a URL, or when the upload fails, the store is left as
    it is and no reload is called for. *)
Theorem push_marks_what_was_uploaded
    (localeCompare : string -> string -> Z) (c : ascii) (url : string)
    (aiOk : bool) (entries : list Entry) (result : option SyncMessage)
    (w : IndexedDB) :
  (exists e, e ∈ entries /\ unsynced e) ->
  handlePushToSheets (Some (String c url)) true entries result w
  = (Some (MsgError "Connection failed. Ensure URL is correct and public."), w, false)
  /\ handleManualSyncWith Db.markSynced aiOk entries result w
     = (Some (MsgError "Sync failed. Check connection and retry."), w, false)
  /\ (keyed_store (harvest_entries w) ->
      responsive w ->
      (forall e, e ∈ entries <-> harvest_entries w !! HarvestEntry.id e = Some e) ->
      exists w',
        handlePushToSheetsWith (Some DbService2.markSynced)
                               (Some (String c url)) true entries result w
        = (Some (MsgSuccess (countWhere unsynced entries)), w', true)
        /\ handleManualSyncWith (Some DbService2.markSynced) aiOk entries result w
           = (Some (MsgSuccess (countWhere unsynced entries)), w', true)
        /\ Db.getUnsyncedEntries localeCompare w' = Resolved []
        /\ Db.getCount w' = Db.getCount w
        /\ (forall e, e ∈ entries ->
              harvest_entries w' !! HarvestEntry.id e
              = Some (HarvestEntry.set_synced e)))
  /\ (forall markSynced,
        handlePushToSheetsWith markSynced (Some (String c url)) false entries result w
        = (Some (MsgError "Connection failed. Ensure URL is correct and public."),
           w, false)
        /\ handlePushToSheetsWith markSynced None true entries result w
           = (Some (MsgError "Configure Webhook URL first."), w, false)
        /\ handlePushToSheetsWith markSynced (Some "") true entries result w
           = (Some (MsgError "Configure Webhook URL first."), w, false)).
Proof.
  intros (e0 & He0 & Hu0).
  set (ids := map HarvestEntry.id (filter (fun e => HarvestEntry.synced e = false) entries)).
  assert (Hlen : (Z.of_nat (length (filter (fun e => HarvestEntry.synced e = false) entries))
                  =? 0) = false).
  { apply Z.eqb_neq. intros Hz.
    assert (Hin : e0 ∈ filter (fun e => HarvestEntry.synced e = false) entries)
      by (by apply list_elem_of_filter).
    destruct (filter _ entries); [by apply elem_of_nil in Hin|]. cbn [length] in Hz. lia. }
  split; [|split; [|split]].
  - unfold handlePushToSheets, handlePushToSheetsWith, callMarkSynced, Db.markSynced.
    cbv zeta. by rewrite Hlen.
  - unfold handleManualSyncWith, callMarkSynced, Db.markSynced.
    cbv zeta. by rewrite Hlen.
  - intros Hk [Ho Ht] Hm.
    assert (Hids : forall e, e ∈ entries -> HarvestEntry.synced e = false ->
                             HarvestEntry.id e ∈ ids).
    { intros e He Hs. unfold ids. apply list_elem_of_fmap. exists e.
      split; [done|]. by apply list_elem_of_filter. }
    exists (with_objects w (mark_all ids (harvest_entries w))).
    unfold handlePushToSheetsWith, handleManualSyncWith, callMarkSynced,
      DbService2.markSynced, readwrite, getDB.
    cbv zeta. rewrite Hlen, Ho, Ht. fold ids.
    assert (Hn : Z.of_nat (length ids) = countWhere unsynced entries)
      by (unfold ids, countWhere, unsynced; by rewrite length_map).
    rewrite Hn. split; [done|]. split; [done|].
    split; [|split].
    + unfold Db.getUnsyncedEntries, Db.getAllEntries, getDB.
      cbn [with_objects openable tx_commits harvest_entries]. rewrite Ho, Ht.
      f_equal. apply filter_nil_iff. intros e He Hs.
      apply elem_of_js_sort, elem_of_store_getAll in He as (k & Hl).
      rewrite mark_all_lookup in Hl by done. case_decide as Hin.
      * destruct (harvest_entries w !! k) as [e1|]; [|done].
        injection Hl as <-. done.
      * apply Hin. rewrite <- (Hk _ _ Hl). apply Hids; [|done].
        apply Hm. by rewrite (Hk _ _ Hl).
    + unfold Db.getCount, getDB.
      cbn [with_objects openable tx_commits harvest_entries]. rewrite Ho, Ht.
      by rewrite size_mark_all.
    + intros e He. cbn [with_objects harvest_entries].
      rewrite mark_all_lookup by done.
      pose proof (proj1 (Hm e) He) as Hl. rewrite Hl.
      case_decide as Hin; [done|].
      destruct (HarvestEntry.synced e) eqn:Hs.
      * f_equal. destruct e. cbn in Hs. by subst.
      * exfalso. by apply Hin, Hids.
  - intros markSynced. unfold handlePushToSheetsWith. cbv zeta. by rewrite Hlen.
Qed.

Lemma push_marks_what_was_uploaded_witness :
  handlePushToSheets (Some "https://sheet") true [otherEntry; storedEntry] None sampleDb
  = (Some (MsgError "Connection failed. Ensure URL is correct and public."),
     sampleDb, false).
Proof.
  assert (Hu : exists e, e ∈ [otherEntry; storedEntry] /\ unsynced e)
    by (exists otherEntry; split; [left|reflexivity]).
  destruct (push_marks_what_was_uploaded codeCompare "h" "ttps://sheet" true
              [otherEntry; storedEntry] None sampleDb Hu) as (Hp & _).
  exact Hp.
Defined.

(** ** Settings: storage and handlers *)

Lemma or_string_Some (s d : string) :
  or_string (Some s) d = if String.eqb s "" then d else s.
Proof. by destruct s. Qed.

Lemma readBack_well_formed (s : Settings) : well_formed s -> readBack s = s.
Proof.
  intros (Ha & Ht & [c Hc]). destruct s as [a n tc tp cw t].
  cbn in Ha, Ht, Hc. subst cw. unfold readBack. cbn.
  destruct (String.eqb_spec a ""); [done|].
  destruct (String.eqb_spec t ""); [done|]. done.
Qed.

Lemma getSettings_saveSettings (s : Settings) (ls : LocalStorage) :
  writable ls = true ->
  getSettings (saveSettings s ls) = (readBack s, saveSettings s ls).
Proof.
  intros Hw. unfold saveSettings. rewrite Hw. unfold getSettings.
  cbn [settingsItem stringify PartialSettings.activeTank PartialSettings.shrimpCount
       PartialSettings.tankCounts PartialSettings.tankPrices
       PartialSettings.crateWeight PartialSettings.teamName default].
  by rewrite !or_string_Some.
Qed.

(** X24. Settings survive a reload: when the storage can be written, what
    is read after saving is the saved record with an empty tank name replaced
    by Tank 1, an empty team name by Team and a missing crate weight by 10,
    so well-formed settings are read back unchanged, and reading leaves the
    storage as saved; when the storage cannot be written, saving changes
    nothing. *)
Theorem settings_round_trip (settings : Settings) (ls : LocalStorage) :
  writable ls = true ->
  getSettings (saveSettings settings ls) = (readBack settings, saveSettings settings ls)
  /\ (well_formed settings ->
      getSettings (saveSettings settings ls) = (settings, saveSettings settings ls))
  /\ saveSettings settings (saveSettings settings ls) = saveSettings settings ls
  /\ saveSettings settings (mkLS (settingsItem ls) false) = mkLS (settingsItem ls) false.
Proof.
  intros Hw. split_and!.
  - by apply getSettings_saveSettings.
  - intros Hwf. rewrite getSettings_saveSettings by done.
    by rewrite readBack_well_formed.
  - unfold saveSettings. rewrite Hw. cbn [writable]. by rewrite ?Hw.
  - done.
Qed.

Lemma settings_round_trip_witness :
  getSettings (saveSettings sampleSettings (mkLS None true))
  = (sampleSettings, saveSettings sampleSettings (mkLS None true)).
Proof.
  destruct (settings_round_trip sampleSettings (mkLS None true) eq_refl)
    as (_ & H & _).
  apply H. split_and!; [discriminate|discriminate|by eexists].
Defined.

Lemma or_string_nonempty (x : option string) (d : string) :
  d <> "" -> or_string x d <> "".
Proof. intros Hd. destruct x as [[|c rest]|]; done. Qed.

(** X25. Reading the settings never fails and always yields well-formed
    settings: a tank and a team are named and the crate weight is set.  With
    no item stored the defaults are returned and, when the storage can be
    written, persisted; an item that cannot be parsed or parses to a falsy
    value gives the defaults and is left in place; reading again gives the
    same settings and no longer changes the storage. *)
Theorem getSettings_well_formed (ls : LocalStorage) :
  let r := getSettings ls in
  well_formed r.1
  /\ getSettings r.2 = (r.1, r.2)
  /\ (settingsItem ls = None ->
      r.1 = defaultSettings /\ r.2 = saveSettings defaultSettings ls)
  /\ (settingsItem ls = Some Unparsable \/ settingsItem ls = Some JsonFalsy ->
      r = (defaultSettings, ls))
  /\ (settingsItem ls <> None -> r.2 = ls)
  /\ writable r.2 = writable ls.
Proof.
  cbv zeta.
  assert (Hd : well_formed defaultSettings)
    by (split_and!; [discriminate|discriminate|by eexists]).
  destruct ls as [[[| |p]|] wr]; unfold getSettings; cbn [settingsItem fst snd].
  - split; [exact Hd|]. split_and!; try done.
  - split; [exact Hd|]. split_and!; try done.
  - split.
    + split_and!; cbn;
        [by apply or_string_nonempty|by apply or_string_nonempty|by eexists].
    + split_and!; try done; intros [H|H]; discriminate H.
  - destruct wr; unfold saveSettings; cbn [writable settingsItem fst snd].
    + split; [exact Hd|]. split_and!; try done; intros [H|H]; discriminate H.
    + split; [exact Hd|]. split_and!; try done; intros [H|H]; discriminate H.
Qed.

Lemma quick_shrimpCount (c : number) (s : Settings) (ls : LocalStorage) :
  (handleQuickUpdateSettings
     (PartialSettings.mk None (Some c) None None None None) s ls).1
  = HarvestSettings.mk (HarvestSettings.activeTank s) c
      (<[HarvestSettings.activeTank s := c]> (HarvestSettings.tankCounts s))
      (HarvestSettings.tankPrices s) (HarvestSettings.crateWeight s)
      (HarvestSettings.teamName s).
Proof. by destruct s. Qed.

Lemma quick_activeTank (t : string) (s : Settings) (ls : LocalStorage) :
  t <> "" -> t <> HarvestSettings.activeTank s ->
  (handleQuickTankSelect t s ls).1
  = HarvestSettings.mk t
      (default (HarvestSettings.shrimpCount s) (HarvestSettings.tankCounts s !! t))
      (HarvestSettings.tankCounts s)
      (HarvestSettings.tankPrices s) (HarvestSettings.crateWeight s)
      (HarvestSettings.teamName s).
Proof.
  intros Ht Hne. destruct t as [|ch rest]; [done|].
  unfold handleQuickTankSelect, handleQuickUpdateSettings. cbv zeta.
  cbn [PartialSettings.activeTank PartialSettings.shrimpCount fst].
  rewrite decide_True by done.
  destruct s as [a n tc tp cw tm]. cbn.
  by destruct (tc !! String ch rest).
Qed.

Lemma quick_same_tank (s : Settings) (ls : LocalStorage) :
  (handleQuickTankSelect (HarvestSettings.activeTank s) s ls).1 = s.
Proof.
  unfold handleQuickTankSelect, handleQuickUpdateSettings. cbv zeta.
  cbn [PartialSettings.activeTank PartialSettings.shrimpCount fst].
  destruct s as [a n tc tp cw tm]. cbn.
  destruct a as [|ch rest]; [done|]. by rewrite decide_False by tauto.
Qed.

(** X26. The count of a tank is remembered: setting a count on the active
    tank makes it the current count and stores it for that tank; switching
    to another tank adopts that tank's stored count, or keeps the current
    count when it has none; switching back restores the count that was set,
    and the stored counts are not changed by switching. *)
Theorem tank_count_is_remembered
    (settings : Settings) (ls ls1 ls2 : LocalStorage) (other : string) (c : number) :
  HarvestSettings.activeTank settings <> "" ->
  other <> "" ->
  other <> HarvestSettings.activeTank settings ->
  let s1 := (handleQuickUpdateSettings
               (PartialSettings.mk None (Some c) None None None None) settings ls).1 in
  let s2 := (handleQuickTankSelect other s1 ls1).1 in
  let s3 := (handleQuickTankSelect (HarvestSettings.activeTank settings) s2 ls2).1 in
  HarvestSettings.shrimpCount s1 = c
  /\ HarvestSettings.tankCounts s1 !! HarvestSettings.activeTank settings = Some c
  /\ HarvestSettings.activeTank s2 = other
  /\ HarvestSettings.shrimpCount s2
     = default c (HarvestSettings.tankCounts settings !! other)
  /\ HarvestSettings.tankCounts s2 = HarvestSettings.tankCounts s1
  /\ s3 = s1.
Proof.
  intros Ha Ho Hne. cbv zeta. rewrite quick_shrimpCount.
  rewrite quick_activeTank by done.
  cbn [HarvestSettings.activeTank HarvestSettings.shrimpCount
       HarvestSettings.tankCounts HarvestSettings.tankPrices
       HarvestSettings.crateWeight HarvestSettings.teamName].
  rewrite quick_activeTank by (cbn; done).
  cbn [HarvestSettings.activeTank HarvestSettings.shrimpCount
       HarvestSettings.tankCounts HarvestSettings.tankPrices
       HarvestSettings.crateWeight HarvestSettings.teamName].
  rewrite lookup_insert, decide_True by done.
  rewrite lookup_insert, decide_False by done.
  done.
Qed.

Lemma tank_count_is_remembered_witness :
  HarvestSettings.shrimpCount
    (handleQuickTankSelect "Tank 1"
       (handleQuickTankSelect "Tank 2"
          (handleQuickUpdateSettings
             (PartialSettings.mk None (Some (num 45)) None None None None)
             sampleSettings (mkLS None true)).1
          (mkLS None true)).1
       (mkLS None true)).1
  = num 45.
Proof.
  assert (H1 : HarvestSettings.activeTank sampleSettings <> "") by discriminate.
  assert (H2 : "Tank 2" <> "") by discriminate.
  assert (H3 : "Tank 2" <> HarvestSettings.activeTank sampleSettings) by discriminate.
  destruct (tank_count_is_remembered sampleSettings (mkLS None true) (mkLS None true)
              (mkLS None true) "Tank 2" (num 45) H1 H2 H3)
    as (Hc & _ & _ & _ & _ & H).
  change (HarvestSettings.activeTank sampleSettings) with "Tank 1" in H.
  rewrite H. exact Hc.
Defined.

Lemma max1_ge (x : number) : (1 <= max1 x)%Qc.
Proof.
  unfold max1. rewrite num_1. destruct (num_ltb x 1%Qc) eqn:E.
  - apply Qcle_refl.
  - by apply num_ltb_ge in E.
Qed.

(** X27. The handlers keep the settings consistent and stored: saving the
    settings form and adjusting the count record the current count for the
    active tank (the adjusted count is never below 1); selecting a tank by a
    non-empty name and editing a price preserve that a count stored for the
    active tank is the current count; editing a price changes that tank's
    price only.  Every handler hands the storage its result, so with a
    writable storage a reload reads well-formed results back unchanged. *)
Theorem settings_handlers_consistent
    (settings newSettings : Settings) (ls : LocalStorage) (delta : number)
    (tankName tank price : string) :
  let saved := handleSaveSettings newSettings ls in
  let adjusted := adjustShrimpCount delta settings ls in
  let selected := handleQuickTankSelect tankName settings ls in
  let priced := handleUpdatePrice tank price settings ls in
  count_recorded saved.1
  /\ count_recorded adjusted.1
  /\ (1 <= HarvestSettings.shrimpCount adjusted.1)%Qc
  /\ (tankName <> "" -> count_consistent settings -> count_consistent selected.1)
  /\ (count_consistent settings -> count_consistent priced.1)
  /\ HarvestSettings.tankPrices priced.1 !! tank = Some price
  /\ (forall k, k <> tank ->
                HarvestSettings.tankPrices priced.1 !! k
                = HarvestSettings.tankPrices settings !! k)
  /\ Forall (fun r : Settings * LocalStorage =>
               r.2 = saveSettings r.1 ls
               /\ (writable ls = true -> well_formed r.1 -> getSettings r.2 = r))
            [saved; adjusted; selected; priced].
Proof.
  cbv zeta. split; [|split; [|split; [|split; [|split; [|split; [|split]]]]]].
  - unfold count_recorded, handleSaveSettings. cbn.
    by rewrite lookup_insert, decide_True.
  - unfold adjustShrimpCount. rewrite quick_shrimpCount. unfold count_recorded. cbn.
    by rewrite lookup_insert, decide_True.
  - unfold adjustShrimpCount. rewrite quick_shrimpCount. cbn. apply max1_ge.
  - intros Ht Hc.
    destruct (decide (tankName = HarvestSettings.activeTank settings)) as [->|Hne].
    + by rewrite quick_same_tank.
    + rewrite quick_activeTank by done. unfold count_consistent. cbn.
      intros c Hl. by rewrite Hl.
  - intros Hc. unfold handleUpdatePrice, count_consistent. cbn. apply Hc.
  - unfold handleUpdatePrice. cbn. by rewrite lookup_insert, decide_True.
  - intros k Hk. unfold handleUpdatePrice. cbn. by rewrite lookup_insert, decide_False.
  - assert (Hrt : forall r : Settings * LocalStorage,
               r.2 = saveSettings r.1 ls ->
               r.2 = saveSettings r.1 ls
               /\ (writable ls = true -> well_formed r.1 -> getSettings r.2 = r)).
    { intros [s l] Hs. split; [done|]. cbn [fst snd] in *. intros Hw Hwf.
      rewrite Hs, getSettings_saveSettings by done. by rewrite readBack_well_formed. }
    repeat apply Forall_cons_2; [apply Hrt..|apply Forall_nil_2]; reflexivity.
Qed.


(** ** Clearing the archive *)

Lemma lookup_delete_all_None (ids : list string) (s : gmap string Entry) (k : string) :
  s !! k = None -> fold_left (fun acc id => delete id acc) ids s !! k = None.
Proof. intros Hn. rewrite lookup_delete_all. by case_decide. Qed.

Section ClearAllFacts.
Variable localeCompare : string -> string -> Z.
Variable entries0 : list Entry.

Lemma deleteDateWith_step (date : string) (app : App.t) :
  responsive (App.db app) ->
  idsToDelete date entries0 <> [] ->
  let app' := deleteDateWith localeCompare entries0 date app in
  App.db app'
  = with_objects (App.db app)
      (fold_left (fun acc id => delete id acc) (idsToDelete date entries0)
                 (harvest_entries (App.db app)))
  /\ App.alerts app' = App.alerts app
  /\ (forall e, e ∈ App.entries app' <->
                exists k, harvest_entries (App.db app') !! k = Some e)
  /\ length (App.dbCalls app') = (length (App.dbCalls app) + 2)%nat.
Proof.
  intros [Ho Ht] Hne. cbv zeta. unfold deleteDateWith.
  fold (idsToDelete date entries0).
  destruct (idsToDelete date entries0) as [|i l] eqn:E; [done|].
  cbn [length]. replace (0 <? Z.of_nat (S (length l))) with true
    by (symmetry; apply Z.ltb_lt; lia).
  unfold Db.deleteEntries, readwrite, getDB. rewrite Ho, Ht.
  set (db' := with_objects (App.db app) _).
  set (mid := App.mk _ _ _ db' _ _).
  assert (Hdb : App.db (loadData localeCompare mid) = db').
  { unfold loadData. by destruct (Db.getAllEntries _ _). }
  split_and!.
  - exact Hdb.
  - unfold loadData. by destruct (Db.getAllEntries _ _).
  - intros e. rewrite Hdb. by apply loadData_entries.
  - unfold loadData. destruct (Db.getAllEntries _ _);
      cbn [App.dbCalls mid]; rewrite !length_app; cbn [length]; lia.
Qed.

Lemma clear_fold (dates : list string) (app : App.t) :
  responsive (App.db app) ->
  Forall (fun d => idsToDelete d entries0 <> []) dates ->
  let app' := fold_left (fun a d => deleteDateWith localeCompare entries0 d a) dates app in
  responsive (App.db app')
  /\ (forall k, harvest_entries (App.db app) !! k = None ->
                harvest_entries (App.db app') !! k = None)
  /\ (forall k d, d ∈ dates -> k ∈ idsToDelete d entries0 ->
                  harvest_entries (App.db app') !! k = None)
  /\ App.alerts app' = App.alerts app
  /\ (dates <> [] ->
      forall e, e ∈ App.entries app' <->
                exists k, harvest_entries (App.db app') !! k = Some e)
  /\ length (App.dbCalls app') = (length (App.dbCalls app) + 2 * length dates)%nat.
Proof.
  revert app. induction dates as [|d dates IH] using rev_ind; intros app Hr Hd.
  - cbn [fold_left length].
    split; [done|]. split; [done|]. split; [|split; [done|split; [done|lia]]].
    intros k d Hin. by apply elem_of_nil in Hin.
  - cbv zeta. rewrite fold_left_app. cbn [fold_left].
    apply Forall_app in Hd as [Hd Hlast]. apply Forall_cons in Hlast as [Hlast _].
    destruct (IH app Hr Hd) as (Hr' & Hnone & Hdel & Hal & _ & Hcalls).
    set (mid := fold_left _ dates app) in *.
    destruct (deleteDateWith_step d mid Hr' Hlast) as (Hdb & Hal' & Hent & Hc').
    split; [|split; [|split; [|split; [|split]]]].
    + rewrite Hdb. destruct Hr' as [Ho Ht]. by split.
    + intros k Hk. rewrite Hdb. cbn [with_objects harvest_entries].
      by apply lookup_delete_all_None, Hnone.
    + intros k d' Hin Hk. rewrite Hdb. cbn [with_objects harvest_entries].
      apply elem_of_app in Hin as [Hin|Hin].
      * by apply lookup_delete_all_None, (Hdel k d').
      * apply list_elem_of_singleton in Hin as ->.
        rewrite lookup_delete_all. by rewrite decide_True.
    + by rewrite Hal'.
    + intros _. exact Hent.
    + rewrite Hc', Hcalls, length_app. cbn [length]. lia.
Qed.
End ClearAllFacts.

(** X28. Clearing the archive deletes everything: confirmed, with the list
    mirroring the store and the store answering, the loop over the days
    leaves the list and the store empty, raises no alert, and makes one
    delete and one reload per day; declined, it changes nothing.  Each call
    works on the list as it was when the loop started. *)
Theorem clear_all_empties_archive
    (localeCompare : string -> string -> Z) (app : App.t) :
  mirrors_store app ->
  responsive (App.db app) ->
  let app' := handleClearAll localeCompare true app in
  App.entries app' = []
  /\ harvest_entries (App.db app') = ∅
  /\ App.alerts app' = App.alerts app
  /\ length (App.dbCalls app')
     = (length (App.dbCalls app)
        + 2 * length (dailyStats (groupedByDate localeCompare (App.entries app))))%nat
  /\ handleClearAll localeCompare false app = app
  /\ handleDeleteHistoryDate localeCompare
     = fun date app => deleteDateWith localeCompare (App.entries app) date app.
Proof.
  intros [Hk Hm] Hr. cbv zeta. unfold handleClearAll.
  rewrite <- (fold_left_fmap
                (fun a d => deleteDateWith localeCompare (App.entries app) d a)
                DailyStat.date).
  assert (Hdates : map DailyStat.date
                     (dailyStats (groupedByDate localeCompare (App.entries app)))
                   = map fst (groupedByDate localeCompare (App.entries app))).
  { unfold dailyStats. rewrite map_map. by apply map_ext. }
  rewrite Hdates.
  assert (Hln : length (dailyStats (groupedByDate localeCompare (App.entries app)))
                = length (map fst (groupedByDate localeCompare (App.entries app)))).
  { by rewrite <- Hdates, length_map. }
  rewrite Hln.
  set (dates := map fst (groupedByDate localeCompare (App.entries app))).
  assert (Hin : forall e, e ∈ App.entries app ->
                          dateOf (HarvestEntry.timestamp e) ∈ dates).
  { intros e He. unfold dates. apply list_elem_of_fmap.
    exists (dateOf (HarvestEntry.timestamp e),
            entriesOn (dateOf (HarvestEntry.timestamp e)) (App.entries app)).
    split; [done|]. apply groupedByDate_bucket. split; [done|].
    intros Hn.
    assert (Hx : e ∈ entriesOn (dateOf (HarvestEntry.timestamp e)) (App.entries app))
      by (unfold entriesOn; by apply list_elem_of_filter).
    rewrite Hn in Hx. by apply elem_of_nil in Hx. }
  assert (Hne : Forall (fun d => idsToDelete d (App.entries app) <> []) dates).
  { apply Forall_forall. intros d Hd. unfold dates in Hd.
    apply list_elem_of_fmap in Hd as ([d' l] & -> & Hg).
    apply groupedByDate_bucket in Hg as [-> Hl]. cbn [fst].
    destruct (entriesOn d' (App.entries app)) as [|e l] eqn:E; [done|].
    assert (He : e ∈ entriesOn d' (App.entries app)) by (rewrite E; left).
    unfold entriesOn in He. apply list_elem_of_filter in He as [Hd He].
    intros Hn.
    assert (Hx : HarvestEntry.id e ∈ idsToDelete d' (App.entries app)).
    { apply elem_of_idsToDelete. exists e. split_and!; [done|done|].
      by apply startsWith_dateOf. }
    rewrite Hn in Hx. by apply elem_of_nil in Hx. }
  destruct (clear_fold localeCompare (App.entries app) dates app Hr Hne)
    as (_ & Hnone & Hdel & Hal & Hent & Hcalls).
  set (app' := fold_left _ dates app) in *.
  assert (Hempty : harvest_entries (App.db app') = ∅).
  { apply map_eq. intros k. rewrite lookup_empty.
    destruct (harvest_entries (App.db app) !! k) as [e|] eqn:Hl; [|by apply Hnone].
    assert (He : e ∈ App.entries app) by (apply Hm; by exists k).
    apply (Hdel k (dateOf (HarvestEntry.timestamp e))); [by apply Hin|].
    apply elem_of_idsToDelete. exists e. split_and!; [done|by apply Hk|].
    by apply startsWith_dateOf. }
  split_and!; try done.
  destruct (App.entries app) as [|e0 es] eqn:Ee.
  - done.
  - destruct (App.entries app') as [|e es'] eqn:Ee'; [done|].
    assert (Hd : dates <> []).
    { intros Hn. assert (Hx : dateOf (HarvestEntry.timestamp e0) ∈ dates)
        by (apply Hin; left).
      rewrite Hn in Hx. by apply elem_of_nil in Hx. }
    destruct (proj1 (Hent Hd e)) as (k & Hl); [left|].
    rewrite Hempty, lookup_empty in Hl. discriminate Hl.
Qed.

Lemma clear_all_empties_archive_witness :
  App.entries (handleClearAll codeCompare true loadedApp) = [].
Proof.
  destruct (clear_all_empties_archive codeCompare loadedApp
              loadedApp_mirrors loadedApp_responsive) as (He & _).
  exact He.
Defined.


(** ** The groups of the log *)

Lemma sumZ_groupByTank (entries : list Entry) :
  sumZ (map (fun l => Z.of_nat (length l)) (JsMap.values (groupByTank entries)))
  = Z.of_nat (length entries).
Proof.
  unfold groupByTank.
  enough (H : forall m : JsMap.t (list Entry),
    sumZ (map (fun l => Z.of_nat (length l))
              (JsMap.values
                 (fold_left
                    (fun groups entry =>
                       let tank := HarvestEntry.tank entry in
                       JsMap.set groups tank
                                 (default [] (JsMap.get groups tank) ++ [entry]))
                    entries m)))
    = sumZ (map (fun l => Z.of_nat (length l)) (JsMap.values m))
      + Z.of_nat (length entries)).
  { rewrite H. unfold sumZ. simpl. lia. }
  induction entries as [|e entries IH]; intros m; cbn [fold_left length]; [lia|].
  rewrite IH. cbv zeta.
  set (k := HarvestEntry.tank e).
  pose proof (count_values_set (fun l : list Entry => Z.of_nat (length l)) m k
                (default [] (JsMap.get m k) ++ [e])) as H.
  cbv beta in H. rewrite length_app in H. cbn [length] in H.
  destruct (JsMap.get m k); cbn [from_option default id length] in H |- *; lia.
Qed.

Section LogGroups.
Variable getTime : string -> option Z.

Lemma sortedGroupedEntries_elem (entries : list Entry) (k : string) (l : list Entry) :
  (k, l) ∈ sortedGroupedEntries getTime entries <->
  l = js_sort (byTimeDesc getTime) (entriesOf k entries) /\ entriesOf k entries <> [].
Proof.
  split.
  - intros Hin. split; [by apply sortedGroupedEntries_group|].
    unfold sortedGroupedEntries in Hin.
    rewrite elem_of_js_sort, list_elem_of_fmap in Hin.
    destruct Hin as ([k' l'] & [= -> ->] & Hin). cbn [fst snd].
    apply (elem_get _ _ _ (groupByTank_NoDup entries)) in Hin.
    rewrite groupByTank_get in Hin. by destruct (entriesOf k' entries).
  - intros [-> Hne]. unfold sortedGroupedEntries.
    rewrite elem_of_js_sort, list_elem_of_fmap.
    exists (k, entriesOf k entries). split; [done|].
    apply get_Some_elem. rewrite groupByTank_get.
    by destruct (entriesOf k entries).
Qed.

End LogGroups.

(** X29. For a log whose tank names are own keys of a plain object, the log
    groups the entries by tank without loss or overlap: the group keys are
    pairwise distinct, the group of a tank is a rearrangement
    of exactly the entries of that tank and is never empty, every entry is
    in the group of its tank, and the groups together have as many rows as
    there are entries. *)
Theorem log_groups_partition (getTime : string -> option Z) (entries : list Entry) :
  plain_tanks entries ->
  let groups := sortedGroupedEntries getTime entries in
  NoDup (map fst groups)
  /\ Forall (fun g => g.2 ≡ₚ entriesOf g.1 entries /\ g.2 <> []) groups
  /\ Forall (fun e => exists g, g ∈ groups /\ g.1 = HarvestEntry.tank e /\ e ∈ g.2)
            entries
  /\ sumZ (map (fun g => Z.of_nat (length g.2)) groups) = Z.of_nat (length entries).
Proof.
  intros _. cbv zeta. split; [|split; [|split]].
  - unfold sortedGroupedEntries.
    rewrite (Permutation_map _ (js_sort_perm _ _)), map_map. cbn [fst].
    apply groupByTank_NoDup.
  - apply Forall_forall. intros [k l] Hin.
    apply sortedGroupedEntries_elem in Hin as [-> Hne]. cbn [fst snd]. split.
    + apply js_sort_perm.
    + intros Hn. apply Hne. apply Permutation_nil. by rewrite <- Hn, js_sort_perm.
  - apply Forall_forall. intros e He.
    assert (Hin : e ∈ entriesOf (HarvestEntry.tank e) entries)
      by (unfold entriesOf; by apply list_elem_of_filter).
    exists (HarvestEntry.tank e,
            js_sort (byTimeDesc getTime) (entriesOf (HarvestEntry.tank e) entries)).
    split_and!; [|done|by apply elem_of_js_sort].
    apply sortedGroupedEntries_elem. split; [done|].
    intros Hn. rewrite Hn in Hin. by apply elem_of_nil in Hin.
  - unfold sortedGroupedEntries.
    rewrite (sumZ_perm _ _ (Permutation_map _ (js_sort_perm _ _))), map_map.
    cbn [snd].
    rewrite (map_ext _ (fun g : string * list Entry => Z.of_nat (length g.2))).
    + pose proof (sumZ_groupByTank entries) as H.
      unfold JsMap.values in H. by rewrite map_map in H.
    + intros g. f_equal. apply Permutation_length, js_sort_perm.
Qed.

Lemma log_groups_partition_witness :
  sumZ (map (fun g => Z.of_nat (length g.2))
            (sortedGroupedEntries sampleGetTime exampleEntries))
  = Z.of_nat (length exampleEntries).
Proof.
  assert (Hp : plain_tanks exampleEntries).
  { unfold plain_tanks, own_key. apply (bool_decide_unpack _). by vm_compute. }
  destruct (log_groups_partition sampleGetTime exampleEntries Hp) as (_ & _ & _ & H).
  exact H.
Defined.

